(** * The TCP codec of snort3 (src/codecs/ip/cd_tcp.cc)

    A shallow embedding of [TcpCodec::decode], [DecodeTCPOptions],
    [OptLenValidate], [TCPMiscTests], [TcpCodec::encode],
    [TcpCodec::update] and [TcpCodec::format], the properties of the
    codec's specification established on it, and further properties of
    the code.

    Conventions.
    - Memory is a map from addresses to bytes; a pointer is an address and
      a nullable pointer is an [option ptr].
    - A C integer of width w is a [Z]; where the C type wraps, the wrap is
      written out with [mod].
    - The packet record and the queue of decoder events are threaded through
      the code as a [World]; the world's [trace] lists, in program order,
      the decoder events raised, the stores to [p->tcph] and the requests
      for an active drop.
    - A computation that dereferences [p->tcph] yields [Fault NullDeref]
      when the pointer is null; a loop that runs out of fuel yields
      [Fault OutOfFuel].  Both are shown never to happen. *)

From Stdlib Require Import ZArith List Bool Lia.
From stdpp Require Import base list.
Import ListNotations.
Open Scope Z_scope.

(* ===================================================================== *)
(** * Memory, pointers and results *)
(* ===================================================================== *)

(** Memory maps an address to the byte stored there; a pointer is an
    address. *)
Definition mem := Z -> Z.
Definition ptr := Z.

(** [*a] for a [uint8_t* a]. *)
Definition load8 (m : mem) (a : ptr) : Z := m a mod 256.

(** [*a = v] for a [uint8_t* a]. *)
Definition store8 (m : mem) (a : ptr) (v : Z) : mem :=
  fun b => if b =? a then v mod 256 else m b.

(** [memcpy(dst, src, n)] from memory [ms] into memory [md]. *)
Definition memcpy (md : mem) (dst : ptr) (ms : mem) (src : ptr) (n : Z) : mem :=
  fun b => if (dst <=? b) && (b <? dst + n) then load8 ms (src + (b - dst))
           else md b.

(** The memory that holds the bytes [l] from address 0 on. *)
Definition mem_of_bytes (l : list Z) : mem :=
  fun a => if a <? 0 then 0 else nth (Z.to_nat a) l 0.

Inductive fault := NullDeref | OutOfFuel.

Inductive res (A : Type) :=
| Ok (a : A)
| Fault (f : fault).
Arguments Ok {A} a.
Arguments Fault {A} f.

Definition bind {A B : Type} (c : res A) (k : A -> res B) : res B :=
  match c with
  | Ok a => k a
  | Fault f => Fault f
  end.

Notation "'let*' x := c 'in' k" := (bind c (fun x => k))
  (at level 10, x name, c at level 200, k at level 200, only parsing).

(** One turn of a [while] loop: go round again, or [return] from the
    enclosing function. *)
Inductive step (S R : Type) :=
| Next (s : S)
| Return (r : R).
Arguments Next {S R} s.
Arguments Return {S R} r.

Section While.
Context {S R : Type}.
Variable cond : S -> bool.
Variable body : S -> res (step S R).

(** [while (cond) body].  [Ok (Next s)]: the condition failed in state
    [s]; [Ok (Return r)]: the body returned [r]. *)
Fixpoint while (fuel : nat) (s : S) : res (step S R) :=
  if cond s then
    match fuel with
    | O => Fault OutOfFuel
    | Datatypes.S n =>
        match body s with
        | Ok (Next s') => while n s'
        | Ok (Return r) => Ok (Return r)
        | Fault f => Fault f
        end
    end
  else Ok (Next s).

(** The states in which the body was entered, in order. *)
Fixpoint iterations (fuel : nat) (s : S) : list S :=
  if cond s then
    match fuel with
    | O => []
    | Datatypes.S n =>
        s :: match body s with
             | Ok (Next s') => iterations n s'
             | _ => []
             end
    end
  else [].
End While.

(* ===================================================================== *)
(** * Constants and types of the headers that are not among the sources *)
(* ===================================================================== *)

(** Modelled from the spec: protocols/tcp.h is not among the sources.  The
    header is 20 bytes without options and an option region is at most 40
    bytes ("TCP_OPTLENMAX = 40"). *)
Definition TCP_HEADER_LEN : Z := 20.
Definition TCP_HDR_LEN : Z := 20.
Definition TCP_OPTLENMAX : Z := 40.

(** Modelled from the spec: protocols/tcp.h is not among the sources.  The
    flag bits {FIN, SYN, RST, PUSH, ACK, URG} of the wire format (RFC 793);
    [TH_NORESERVED] masks the two reserved bits off. *)
Definition TH_FIN : Z := 0x01.
Definition TH_SYN : Z := 0x02.
Definition TH_RST : Z := 0x04.
Definition TH_PUSH : Z := 0x08.
Definition TH_ACK : Z := 0x10.
Definition TH_URG : Z := 0x20.
Definition TH_NORESERVED : Z :=
  Z.lor TH_FIN (Z.lor TH_SYN (Z.lor TH_RST (Z.lor TH_PUSH (Z.lor TH_ACK TH_URG)))).

(** Modelled from the spec: protocols/tcp.h is not among the sources.  The
    validator's two error codes; the walker tests [code < 0], so both are
    negative. *)
Definition OPT_TRUNC : Z := -1.
Definition OPT_BADLEN : Z := -2.

(** Modelled from the spec: protocols/tcp.h is not among the sources.  The
    fixed option lengths of the walker's table. *)
Definition TCPOLEN_MAXSEG : Z := 4.
Definition TCPOLEN_WSCALE : Z := 3.
Definition TCPOLEN_SACKOK : Z := 2.
Definition TCPOLEN_ECHO : Z := 6.
Definition TCPOLEN_TIMESTAMP : Z := 10.
Definition TCPOLEN_CC : Z := 6.
Definition TCPOLEN_MD5SIG : Z := 18.

(** The rule catalogue [tcp_rules]. *)
Inductive DecodeEvent :=
| DECODE_TCP_DGRAM_LT_TCPHDR
| DECODE_TCP_INVALID_OFFSET
| DECODE_TCP_LARGE_OFFSET
| DECODE_TCPOPT_BADLEN
| DECODE_TCPOPT_TRUNCATED
| DECODE_TCPOPT_TTCP
| DECODE_TCPOPT_OBSOLETE
| DECODE_TCPOPT_EXPERIMENTAL
| DECODE_TCPOPT_WSCALE_INVALID
| DECODE_TCP_XMAS
| DECODE_TCP_NMAP_XMAS
| DECODE_TCP_BAD_URP
| DECODE_TCP_SYN_FIN
| DECODE_TCP_SYN_RST
| DECODE_TCP_MUST_ACK
| DECODE_TCP_NO_SYN_ACK_RST
| DECODE_TCP_SHAFT_SYNFLOOD
| DECODE_TCP_PORT_ZERO
| DECODE_DOS_NAPTHA
| DECODE_SYN_TO_MULTICAST.

(** What the codec does to the world outside its locals, in program
    order. *)
Inductive Action :=
| Event (e : DecodeEvent)          (* codec_events::decoder_event(p, e) *)
| TcphStore (v : option ptr)       (* p->tcph = v *)
| ActiveDrop.                      (* Active_DropPacket() *)

(** [struct Options]: the option kind, the payload length and a pointer to
    the payload, borrowed from the segment. *)
Record Options := {
  opt_code : Z;
  opt_len : Z;
  opt_data : option ptr
}.

(** The part of [ip::IpApi] the codec consults. *)
Record IpApi := {
  is_ip4 : bool;
  get_ip4_src : Z;
  get_ip4_dst : Z;
  get_ip6_src : list Z;      (* u6_addr32: four 32-bit words *)
  get_ip6_dst : list Z;
  ip_proto : Z;              (* ip_api.proto() *)
  ip_id : Z                  (* ip_api.id(p) *)
}.

(** The fields of [Packet] the codec reads or writes. *)
Record Packet := {
  tcph : option ptr;
  sp : Z;
  dp : Z;
  tcp_options : list Options;       (* Options tcp_options[TCP_OPTLENMAX] *)
  tcp_option_count : Z;
  data : ptr;
  dsize : Z;
  proto_bits : Z;
  error_flags : Z;
  decode_flags : Z;
  packet_flags : Z;
  ip_api : IpApi
}.

Record World := {
  pkt : Packet;
  trace : list Action
}.

(** [checksum::Pseudoheader] and [checksum::Pseudoheader6], as the codec
    fills them in. *)
Record Pseudoheader := {
  ph_sip : Z;
  ph_dip : Z;
  ph_zero : Z;
  ph_protocol : Z;
  ph_len : Z
}.

Record Pseudoheader6 := {
  ph6_sip : list Z;
  ph6_dip : list Z;
  ph6_zero : Z;
  ph6_protocol : Z;
  ph6_len : Z
}.

(** The second argument of the overloaded [checksum::tcp_cksum]. *)
Inductive pseudo :=
| PH4 (ph : Pseudoheader)
| PH6 (ph : Pseudoheader6).

(** The collaborators of the codec and the constants of headers that are
    not among the sources.  Every theorem below holds for every [Env]. *)
Record Env := {
  (* the host *)
  host_big_endian : bool;
  (* policy queries *)
  ScTcpChecksums : bool;
  ScInlineMode : bool;
  ScTcpChecksumDrops : bool;
  (* checksum::tcp_cksum(hdr, len, &ph) *)
  tcp_cksum : mem -> ptr -> Z -> pseudo -> Z;
  (* sfvar_ip_in(SynToMulticastDstIp, p->ip_api.get_dst()) *)
  sfvar_ip_in_SynToMulticastDstIp : IpApi -> bool;
  (* DAQ_GetInterfaceMode(enc->p->pkth) == DAQ_MODE_INLINE *)
  DAQ_interface_inline : bool;
  (* PacketWasCooked(p) *)
  PacketWasCooked : Packet -> bool;
  (* bit masks *)
  PKT_ERR_CKSUM_TCP : Z;
  PROTO_BIT__TCP : Z;
  DECODE__UNSURE_ENCAP : Z;
  PKT_REBUILT_FRAG : Z;
  ENC_FLAG_FWD : Z;
  ENC_FLAG_SEQ : Z;
  ENC_FLAG_VAL : Z;
  (* the one fixed option length the spec's table does not give *)
  TCPOLEN_TRAILER_CSUM : Z
}.

(* ===================================================================== *)
(** * Primitive state updates *)
(* ===================================================================== *)

Definition decoder_event (w : World) (e : DecodeEvent) : World :=
  {| pkt := pkt w; trace := trace w ++ [Event e] |}.

Definition Active_DropPacket (w : World) : World :=
  {| pkt := pkt w; trace := trace w ++ [ActiveDrop] |}.

Definition with_pkt (w : World) (f : Packet -> Packet) : World :=
  {| pkt := f (pkt w); trace := trace w |}.

Definition set_tcph (w : World) (v : option ptr) : World :=
  {| pkt := {| tcph := v; sp := sp (pkt w); dp := dp (pkt w);
               tcp_options := tcp_options (pkt w);
               tcp_option_count := tcp_option_count (pkt w);
               data := data (pkt w); dsize := dsize (pkt w);
               proto_bits := proto_bits (pkt w);
               error_flags := error_flags (pkt w);
               decode_flags := decode_flags (pkt w);
               packet_flags := packet_flags (pkt w);
               ip_api := ip_api (pkt w) |};
     trace := trace w ++ [TcphStore v] |}.

Definition set_ports (p : Packet) (s d : Z) : Packet :=
  {| tcph := tcph p; sp := s; dp := d;
     tcp_options := tcp_options p; tcp_option_count := tcp_option_count p;
     data := data p; dsize := dsize p; proto_bits := proto_bits p;
     error_flags := error_flags p; decode_flags := decode_flags p;
     packet_flags := packet_flags p; ip_api := ip_api p |}.

Definition set_tcp_options (p : Packet) (o : list Options) : Packet :=
  {| tcph := tcph p; sp := sp p; dp := dp p;
     tcp_options := o; tcp_option_count := tcp_option_count p;
     data := data p; dsize := dsize p; proto_bits := proto_bits p;
     error_flags := error_flags p; decode_flags := decode_flags p;
     packet_flags := packet_flags p; ip_api := ip_api p |}.

Definition set_tcp_option_count (p : Packet) (n : Z) : Packet :=
  {| tcph := tcph p; sp := sp p; dp := dp p;
     tcp_options := tcp_options p; tcp_option_count := n;
     data := data p; dsize := dsize p; proto_bits := proto_bits p;
     error_flags := error_flags p; decode_flags := decode_flags p;
     packet_flags := packet_flags p; ip_api := ip_api p |}.

Definition set_data (p : Packet) (d : ptr) (n : Z) : Packet :=
  {| tcph := tcph p; sp := sp p; dp := dp p;
     tcp_options := tcp_options p; tcp_option_count := tcp_option_count p;
     data := d; dsize := n; proto_bits := proto_bits p;
     error_flags := error_flags p; decode_flags := decode_flags p;
     packet_flags := packet_flags p; ip_api := ip_api p |}.

Definition set_proto_bits (p : Packet) (b : Z) : Packet :=
  {| tcph := tcph p; sp := sp p; dp := dp p;
     tcp_options := tcp_options p; tcp_option_count := tcp_option_count p;
     data := data p; dsize := dsize p; proto_bits := b;
     error_flags := error_flags p; decode_flags := decode_flags p;
     packet_flags := packet_flags p; ip_api := ip_api p |}.

Definition set_error_flags (p : Packet) (b : Z) : Packet :=
  {| tcph := tcph p; sp := sp p; dp := dp p;
     tcp_options := tcp_options p; tcp_option_count := tcp_option_count p;
     data := data p; dsize := dsize p; proto_bits := proto_bits p;
     error_flags := b; decode_flags := decode_flags p;
     packet_flags := packet_flags p; ip_api := ip_api p |}.

(** [ptr == NULL] *)
Definition is_null (p : option ptr) : bool :=
  match p with
  | Some _ => false
  | None => true
  end.

(** [p->tcph->...]: the header that [p->tcph] points to. *)
Definition deref_tcph (w : World) : res ptr :=
  match tcph (pkt w) with
  | Some h => Ok h
  | None => Fault NullDeref
  end.

(** [p->tcp_options[i]] as an lvalue and as an rvalue.  The array has
    [TCP_OPTLENMAX] elements and the walker keeps [i] below that. *)
Definition no_option : Options :=
  {| opt_code := 0; opt_len := 0; opt_data := None |}.

Definition get_option (w : World) (i : Z) : Options :=
  match tcp_options (pkt w) !! Z.to_nat i with
  | Some o => o
  | None => no_option
  end.

Definition put_option (w : World) (i : Z) (o : Options) : World :=
  with_pkt w (fun p => set_tcp_options p (<[Z.to_nat i := o]> (tcp_options p))).

(* ===================================================================== *)
(** * The header laid over the raw bytes *)
(* ===================================================================== *)

Section Header.
Variable env : Env.
Variable m : mem.

(** A 16-bit and a 32-bit field read in the byte order of the host. *)
Definition load16 (a : ptr) : Z :=
  if host_big_endian env
  then load8 m a * 256 + load8 m (a + 1)
  else load8 m a + load8 m (a + 1) * 256.

Definition load32 (a : ptr) : Z :=
  if host_big_endian env
  then load8 m a * 16777216 + load8 m (a + 1) * 65536
       + load8 m (a + 2) * 256 + load8 m (a + 3)
  else load8 m a + load8 m (a + 1) * 256
       + load8 m (a + 2) * 65536 + load8 m (a + 3) * 16777216.

(** Modelled from the spec: protocols/tcp.h is not among the sources.
    [struct TCPHdr] has the layout of the wire format (spec, data model):
    ports, sequence, acknowledgement, the data offset in the high four
    bits of one byte, the flags, window, checksum, urgent pointer. *)
Definition th_sport (h : ptr) : Z := load16 h.
Definition th_dport (h : ptr) : Z := load16 (h + 2).
Definition th_seq (h : ptr) : Z := load32 (h + 4).
Definition th_ack (h : ptr) : Z := load32 (h + 8).
Definition th_offx2 (h : ptr) : Z := load8 m (h + 12).
Definition th_flags (h : ptr) : Z := load8 m (h + 13).
Definition th_win (h : ptr) : Z := load16 (h + 14).
Definition th_sum (h : ptr) : Z := load16 (h + 16).
Definition th_urp (h : ptr) : Z := load16 (h + 18).

(** Modelled from the spec: protocols/tcp.h is not among the sources.
    The data offset is the header length in 32-bit words; [hdr_len] is
    that length in bytes ("layer_len = data_offset * 4"). *)
Definition TCP_OFFSET (h : ptr) : Z :=
  Z.shiftr (Z.land (th_offx2 h) 0xf0) 4.

Definition hdr_len (h : ptr) : Z :=
  Z.shiftr (Z.land (th_offx2 h) 0xf0) 2.

(** Modelled from the spec: protocols/tcp.h is not among the sources.
    [TCP_ISFLAGSET(h, flags)]: all of [flags] are set in the header. *)
Definition TCP_ISFLAGSET (h : ptr) (flags : Z) : bool :=
  Z.land (th_flags h) flags =? flags.
End Header.

(** Byte-order conversions of the host. *)
Definition bswap16 (x : Z) : Z := (x mod 256) * 256 + (x / 256) mod 256.

Definition bswap32 (x : Z) : Z :=
  (x mod 256) * 16777216 + ((x / 256) mod 256) * 65536
  + ((x / 65536) mod 256) * 256 + (x / 16777216) mod 256.

Definition ntohs (env : Env) (x : Z) : Z :=
  if host_big_endian env then x else bswap16 x.
Definition htons (env : Env) (x : Z) : Z :=
  if host_big_endian env then x else bswap16 x.
Definition ntohl (env : Env) (x : Z) : Z :=
  if host_big_endian env then x else bswap32 x.
Definition htonl (env : Env) (x : Z) : Z :=
  if host_big_endian env then x else bswap32 x.

(* ===================================================================== *)
(** * OptLenValidate *)
(* ===================================================================== *)

(** [OptLenValidate(option_ptr, end, len_ptr, expected_len, tcpopt,
    byte_skip)]: the returned code, [*tcpopt] and [*byte_skip] after the
    call. *)
Definition OptLenValidate (m : mem) (option_ptr end_ : ptr)
    (len_ptr : option ptr) (expected_len : Z) (tcpopt : Options)
    : Z * Options * Z :=
  let byte_skip := 0 in
  match len_ptr with
  | None => (OPT_TRUNC, tcpopt, byte_skip)
  | Some lp =>
      let len := load8 m lp in
      let bad :=
        if (len =? 0) || (expected_len =? 0) || (expected_len =? 1) then
          Some OPT_BADLEN
        else if 1 <? expected_len then
          (* not enough data to read in a perfect world *)
          if end_ <? option_ptr + expected_len then Some OPT_TRUNC
          else if negb (len =? expected_len) then Some OPT_BADLEN
          else None
        else (* expected_len < 0 (i.e. variable length) *)
          if len <? 2 then Some OPT_BADLEN
          else if end_ <? option_ptr + len then Some OPT_TRUNC
          else None
      in
      match bad with
      | Some code => (code, tcpopt, byte_skip)
      | None =>
          (0,
           {| opt_code := opt_code tcpopt;
              opt_len := (len - 2) mod 256;
              opt_data := if len =? 2 then None else Some (option_ptr + 2) |},
           len)
      end
  end.


(* ===================================================================== *)
(** * DecodeTCPOptions *)
(* ===================================================================== *)

(** The locals of [DecodeTCPOptions] that live across loop turns.
    [byte_skip] is declared without an initial value and is written by
    every path that reads it; it starts here as 0. *)
Record Walk := {
  option_ptr : ptr;
  opt_count : Z;
  done : bool;
  experimental_option_found : bool;
  obsolete_option_found : bool;
  ttcp_found : bool;
  code : Z;
  byte_skip : Z
}.

Definition walk_init (start : ptr) : Walk :=
  {| option_ptr := start; opt_count := 0; done := false;
     experimental_option_found := false; obsolete_option_found := false;
     ttcp_found := false; code := 2; byte_skip := 0 |}.

Definition set_done (s : Walk) : Walk :=
  {| option_ptr := option_ptr s; opt_count := opt_count s; done := true;
     experimental_option_found := experimental_option_found s;
     obsolete_option_found := obsolete_option_found s;
     ttcp_found := ttcp_found s; code := code s; byte_skip := byte_skip s |}.

Definition set_experimental (s : Walk) : Walk :=
  {| option_ptr := option_ptr s; opt_count := opt_count s; done := done s;
     experimental_option_found := true;
     obsolete_option_found := obsolete_option_found s;
     ttcp_found := ttcp_found s; code := code s; byte_skip := byte_skip s |}.

Definition set_obsolete (s : Walk) : Walk :=
  {| option_ptr := option_ptr s; opt_count := opt_count s; done := done s;
     experimental_option_found := experimental_option_found s;
     obsolete_option_found := true;
     ttcp_found := ttcp_found s; code := code s; byte_skip := byte_skip s |}.

Definition set_ttcp (s : Walk) : Walk :=
  {| option_ptr := option_ptr s; opt_count := opt_count s; done := done s;
     experimental_option_found := experimental_option_found s;
     obsolete_option_found := obsolete_option_found s;
     ttcp_found := true; code := code s; byte_skip := byte_skip s |}.

Definition set_code (s : Walk) (c : Z) : Walk :=
  {| option_ptr := option_ptr s; opt_count := opt_count s; done := done s;
     experimental_option_found := experimental_option_found s;
     obsolete_option_found := obsolete_option_found s;
     ttcp_found := ttcp_found s; code := c; byte_skip := byte_skip s |}.

Definition set_byte_skip (s : Walk) (b : Z) : Walk :=
  {| option_ptr := option_ptr s; opt_count := opt_count s; done := done s;
     experimental_option_found := experimental_option_found s;
     obsolete_option_found := obsolete_option_found s;
     ttcp_found := ttcp_found s; code := code s; byte_skip := b |}.

(** [opt_count++; option_ptr += byte_skip;] with [opt_count] a
    [uint8_t]. *)
Definition walk_advance (s : Walk) : Walk :=
  {| option_ptr := option_ptr s + byte_skip s;
     opt_count := (opt_count s + 1) mod 256; done := done s;
     experimental_option_found := experimental_option_found s;
     obsolete_option_found := obsolete_option_found s;
     ttcp_found := ttcp_found s; code := code s; byte_skip := byte_skip s |}.

Definition set_opt_code (o : Options) (c : Z) : Options :=
  {| opt_code := c; opt_len := opt_len o; opt_data := opt_data o |}.

Section Walker.
Variable env : Env.
Variable m : mem.
Variable end_ptr : ptr.

(** [code = OptLenValidate(option_ptr, end_ptr, len_ptr, expected_len,
    &p->tcp_options[opt_count], &byte_skip);] *)
Definition validate (len_ptr : option ptr) (expected_len : Z)
    (s : Walk) (w : World) : Walk * World :=
  let '(c, o, skip) :=
    OptLenValidate m (option_ptr s) end_ptr len_ptr expected_len
                   (get_option w (opt_count s)) in
  (set_code (set_byte_skip s skip) c, put_option w (opt_count s) o).

(** The [case] of EOL and NOP. *)
Definition nop_case (s : Walk) (w : World) : Walk * World :=
  (set_code (set_byte_skip s 1) 0,
   put_option w (opt_count s)
     {| opt_code := opt_code (get_option w (opt_count s));
        opt_len := 0; opt_data := None |}).

(** Modelled from the spec: protocols/tcp.h, which declares
    [tcp::TcpOpt], is not among the sources.  The option kinds are those of
    the spec's walker table; TRAILER_CSUM (18) and UNASSIGNED (25), which
    the table leaves without a number, are as in the IANA registry that the
    source's comment refers to.  The kinds SCPS, SELNEGACK, RECORDBOUND,
    CORRUPTION, PARTIAL_PERM, PARTIAL_SVC, ALTCSUM and SNAP share the
    [default] label. *)
Definition DecodeTCPOptions_switch (len_ptr : option ptr)
    (s : Walk) (w : World) : res (Walk * World) :=
  match load8 m (option_ptr s) with
  | 0 (* EOL *) => Ok (nop_case (set_done s) w)
  | 1 (* NOP *) => Ok (nop_case s w)
  | 2 (* MAXSEG *) => Ok (validate len_ptr TCPOLEN_MAXSEG s w)
  | 4 (* SACKOK *) => Ok (validate len_ptr TCPOLEN_SACKOK s w)
  | 3 (* WSCALE *) =>
      let '(s, w) := validate len_ptr TCPOLEN_WSCALE s w in
      if code s =? 0 then
        match opt_data (get_option w (opt_count s)) with
        | Some d =>
            if 14 <? load8 m d
            then Ok (s, decoder_event w DECODE_TCPOPT_WSCALE_INVALID)
            else Ok (s, w)
        | None => Fault NullDeref
        end
      else Ok (s, w)
  | 6 | 7 (* ECHO, ECHOREPLY *) =>
      Ok (validate len_ptr TCPOLEN_ECHO (set_obsolete s) w)
  | 19 (* MD5SIG *) =>
      Ok (validate len_ptr TCPOLEN_MD5SIG (set_obsolete s) w)
  | 29 (* AUTH *) =>
      if match len_ptr with
         | Some lp => load8 m lp <? 4
         | None => false
         end
      then Ok (set_code s OPT_BADLEN, w)
      else Ok (validate len_ptr (-1) s w)
  | 5 (* SACK *) =>
      let '(s, w) := validate len_ptr (-1) s w in
      if (code s =? 0)
         && is_null (opt_data (get_option w (opt_count s)))
      then Ok (set_code s OPT_BADLEN, w)
      else Ok (s, w)
  | 13 (* CC_ECHO *) => Ok (validate len_ptr TCPOLEN_CC (set_ttcp s) w)
  | 11 | 12 (* CC, CC_NEW *) => Ok (validate len_ptr TCPOLEN_CC s w)
  | 18 (* TRAILER_CSUM *) =>
      Ok (validate len_ptr (TCPOLEN_TRAILER_CSUM env) (set_experimental s) w)
  | 8 (* TIMESTAMP *) => Ok (validate len_ptr TCPOLEN_TIMESTAMP s w)
  | 16 | 17 | 25 (* SKEETER, BUBBA, UNASSIGNED *) =>
      Ok (validate len_ptr (-1) (set_obsolete s) w)
  | _ (* default *) =>
      Ok (validate len_ptr (-1) (set_experimental s) w)
  end.

(** The condition of the [while]. *)
Definition DecodeTCPOptions_cond (sw : Walk * World) : bool :=
  (option_ptr (fst sw) <? end_ptr)
  && (opt_count (fst sw) <? TCP_OPTLENMAX)
  && negb (done (fst sw)).

(** One turn of the [while] up to the end of the [switch]: the option at
    [option_ptr] is recorded and validated. *)
Definition DecodeTCPOptions_option (sw : Walk * World) : res (Walk * World) :=
  let '(s, w) := sw in
  let w :=
    put_option w (opt_count s)
      (set_opt_code (get_option w (opt_count s)) (load8 m (option_ptr s))) in
  let len_ptr :=
    if option_ptr s + 1 <? end_ptr then Some (option_ptr s + 1) else None in
  DecodeTCPOptions_switch len_ptr s w.

(** One turn of the [while]. *)
Definition DecodeTCPOptions_body (sw : Walk * World)
    : res (step (Walk * World) World) :=
  let* r := DecodeTCPOptions_option sw in
  let '(s, w) := r in
  if code s <? 0 then
    let w :=
      if code s =? OPT_BADLEN then decoder_event w DECODE_TCPOPT_BADLEN
      else if code s =? OPT_TRUNC then decoder_event w DECODE_TCPOPT_TRUNCATED
      else w in
    (* set the option count to the number of valid options found before
       this bad one *)
    Ok (Return (with_pkt w (fun p => set_tcp_option_count p (opt_count s))))
  else
    Ok (Next (walk_advance s, w)).

(** The code after the [while]. *)
Definition DecodeTCPOptions_finish (s : Walk) (w : World) : World :=
  let w := with_pkt w (fun p => set_tcp_option_count p (opt_count s)) in
  if experimental_option_found s then
    decoder_event w DECODE_TCPOPT_EXPERIMENTAL
  else if obsolete_option_found s then
    decoder_event w DECODE_TCPOPT_OBSOLETE
  else if ttcp_found s then
    decoder_event w DECODE_TCPOPT_TTCP
  else w.
End Walker.

(** The fuel of the walker's loop; [DecodeTCPOptions_total] shows that it
    is never used up. *)
Definition walk_fuel : nat := Z.to_nat TCP_OPTLENMAX.

Definition DecodeTCPOptions (env : Env) (m : mem) (start : ptr) (o_len : Z)
    (w : World) : res World :=
  let end_ptr := start + o_len in
  if TCP_OPTLENMAX <? o_len then
    (* This shouldn't ever alert if we are doing our job properly in the
       caller *)
    Ok (set_tcph w None)
  else
    let s := walk_init start in
    let* r := while (DecodeTCPOptions_cond end_ptr)
               (DecodeTCPOptions_body env m end_ptr) walk_fuel (s, w) in
    match r with
    | Return w' => Ok w'
    | Next (s, w') => Ok (DecodeTCPOptions_finish s w')
    end.


(* ===================================================================== *)
(** * TcpCodec::decode *)
(* ===================================================================== *)

(** Modelled from the spec: the system header that defines [IPPROTO_TCP]
    is not among the sources; the pseudoheader's protocol is 6. *)
Definition IPPROTO_TCP : Z := 6.

Section Decode.
Variable env : Env.
Variable m : mem.

(** The checksum that [decode] computes over the pseudoheader and the
    [raw_len] bytes at [h]. *)
Definition decode_csum (h : ptr) (raw_len : Z) (api : IpApi) : Z :=
  if is_ip4 api then
    tcp_cksum env m h raw_len
      (PH4 {| ph_sip := get_ip4_src api; ph_dip := get_ip4_dst api;
              ph_zero := 0; ph_protocol := ip_proto api;
              ph_len := htons env (raw_len mod 65536) |})
  else
    tcp_cksum env m h raw_len
      (PH6 {| ph6_sip := get_ip6_src api; ph6_dip := get_ip6_dst api;
              ph6_zero := 0; ph6_protocol := ip_proto api;
              ph6_len := htons env (raw_len mod 65536) |}).

(** [p->decode_flags & DECODE__UNSURE_ENCAP] *)
Definition unsure_encap (p : Packet) : bool :=
  negb (Z.land (decode_flags p) (DECODE__UNSURE_ENCAP env) =? 0).

(** The checksum block of [decode].  [Next w]: decoding goes on in [w];
    [Return w]: [decode] returns [false] in [w]. *)
Definition decode_checksum (raw_len : Z) (w : World)
    : res (step World World) :=
  if ScTcpChecksums env then
    let* h := deref_tcph w in
    let csum := decode_csum h raw_len (ip_api (pkt w)) in
    if negb (csum =? 0) then
      (* Don't drop the packet if this is encapuslated in Teredo or ESP.
         Just get rid of the TCP header and stop decoding. *)
      if unsure_encap (pkt w)
      then Ok (Return (set_tcph w None))
      else
        let w :=
          with_pkt w (fun p =>
            set_error_flags p (Z.lor (error_flags p) (PKT_ERR_CKSUM_TCP env))) in
        let w :=
          if ScInlineMode env && ScTcpChecksumDrops env
          then Active_DropPacket w else w in
        Ok (Next w)
    else Ok (Next w)
  else Ok (Next w).

(** The tests on the flag combinations. *)
Definition decode_flag_tests (w : World) : res World :=
  let* h := deref_tcph w in
  let flags := th_flags m h in
  let w :=
    if TCP_ISFLAGSET m h (Z.lor TH_FIN (Z.lor TH_PUSH TH_URG)) then
      if TCP_ISFLAGSET m h (Z.lor TH_SYN (Z.lor TH_ACK TH_RST))
      then decoder_event w DECODE_TCP_XMAS
      else decoder_event w DECODE_TCP_NMAP_XMAS
    else w in
  let w :=
    if TCP_ISFLAGSET m h TH_SYN then
      (* check if only SYN is set *)
      let w :=
        if flags =? TH_SYN then
          if th_seq env m h =? 6060842 then
            if ip_id (ip_api (pkt w)) =? 413
            then decoder_event w DECODE_DOS_NAPTHA
            else w
          else w
        else w in
      let w :=
        if sfvar_ip_in_SynToMulticastDstIp env (ip_api (pkt w))
        then decoder_event w DECODE_SYN_TO_MULTICAST else w in
      let w :=
        if negb (Z.land flags TH_RST =? 0)
        then decoder_event w DECODE_TCP_SYN_RST else w in
      if negb (Z.land flags TH_FIN =? 0)
      then decoder_event w DECODE_TCP_SYN_FIN else w
    else
      (* we already know there is no SYN *)
      if Z.land flags (Z.lor TH_ACK TH_RST) =? 0
      then decoder_event w DECODE_TCP_NO_SYN_ACK_RST else w in
  let w :=
    if negb (Z.land flags (Z.lor TH_FIN (Z.lor TH_PUSH TH_URG)) =? 0)
       && (Z.land flags TH_ACK =? 0)
    then decoder_event w DECODE_TCP_MUST_ACK else w in
  Ok w.

(** [TCPMiscTests(p)] *)
Definition TCPMiscTests (w : World) : res World :=
  let* h := deref_tcph w in
  let w :=
    if (Z.land (th_flags m h) TH_NORESERVED =? TH_SYN)
       && (th_seq env m h =? htonl env 674711609)
    then decoder_event w DECODE_TCP_SHAFT_SYNFLOOD else w in
  let w :=
    if (sp (pkt w) =? 0) || (dp (pkt w) =? 0)
    then decoder_event w DECODE_TCP_PORT_ZERO else w in
  Ok w.

(** [(uint16_t)(tcph->hdr_len() - tcp::TCP_HEADER_LEN)] *)
Definition tcp_opt_len (tcph_ : ptr) : Z :=
  (hdr_len m tcph_ - TCP_HEADER_LEN) mod 65536.

(** [decode] from the ports on: the ports, the options, the payload and
    the last tests. *)
Definition decode_payload (raw_pkt : ptr) (raw_len lyr_len : Z) (w : World)
    : res World :=
  let tcph_ := raw_pkt in
  (* stuff more data into the printout data struct *)
  let* h := deref_tcph w in
  let w :=
    with_pkt w (fun p =>
      set_ports p (ntohs env (th_sport env m h)) (ntohs env (th_dport env m h))) in
  (* if options are present, decode them *)
  let* w :=
    if 0 <? tcp_opt_len tcph_ then
      DecodeTCPOptions env m (raw_pkt + TCP_HEADER_LEN) (tcp_opt_len tcph_) w
    else Ok (with_pkt w (fun p => set_tcp_option_count p 0)) in
  (* set the data pointer and size *)
  let w :=
    with_pkt w (fun p =>
      set_data p (raw_pkt + lyr_len)
        (if lyr_len <? raw_len then (raw_len - lyr_len) mod 65536 else 0)) in
  let* h := deref_tcph w in
  let w :=
    if negb (Z.land (th_flags m h) TH_URG =? 0)
       && ((dsize (pkt w) =? 0)
           || (dsize (pkt w) <? ntohs env (th_urp env m h)))
    then decoder_event w DECODE_TCP_BAD_URP else w in
  let w :=
    with_pkt w (fun p =>
      set_proto_bits p (Z.lor (proto_bits p) (PROTO_BIT__TCP env))) in
  TCPMiscTests w.

(** [decode] from the flag tests on: everything after the checksum
    block. *)
Definition decode_rest (raw_pkt : ptr) (raw_len lyr_len : Z) (w : World)
    : res World :=
  let* w := decode_flag_tests w in
  decode_payload raw_pkt raw_len lyr_len w.

(** [TcpCodec::decode(raw_pkt, raw_len, p, lyr_len, next_prot_id)]: the
    returned [bool], the value stored in [lyr_len] if one was stored, and
    the world after the call. *)
Definition decode (raw_pkt : ptr) (raw_len : Z) (w : World)
    : res (bool * option Z * World) :=
  if raw_len <? TCP_HEADER_LEN then
    let w := decoder_event w DECODE_TCP_DGRAM_LT_TCPHDR in
    let w := set_tcph w None in
    Ok (false, None, w)
  else
    (* lay TCP on top of the data cause there is enough of it! *)
    let tcph_ := raw_pkt in
    let w := set_tcph w (Some tcph_) in
    (* multiply the payload offset value by 4 *)
    let lyr_len := hdr_len m tcph_ in
    if lyr_len <? TCP_HEADER_LEN then
      let w := decoder_event w DECODE_TCP_INVALID_OFFSET in
      let w := set_tcph w None in
      Ok (false, Some lyr_len, w)
    else if raw_len <? lyr_len then
      let w := decoder_event w DECODE_TCP_LARGE_OFFSET in
      let w := set_tcph w None in
      Ok (false, Some lyr_len, w)
    else
      let* r := decode_checksum raw_len w in
      match r with
      | Return w => Ok (false, Some lyr_len, w)
      | Next w =>
          let* w := decode_rest raw_pkt raw_len lyr_len w in
          Ok (true, Some lyr_len, w)
      end.
End Decode.


(* ===================================================================== *)
(** * Writing a header *)
(* ===================================================================== *)

Section HeaderStores.
Variable env : Env.

(** A 16-bit and a 32-bit field written in the byte order of the host. *)
Definition store16 (m : mem) (a : ptr) (v : Z) : mem :=
  if host_big_endian env
  then store8 (store8 m a (v / 256)) (a + 1) v
  else store8 (store8 m a v) (a + 1) (v / 256).

Definition store32 (m : mem) (a : ptr) (v : Z) : mem :=
  if host_big_endian env
  then store8 (store8 (store8 (store8 m a (v / 16777216))
                         (a + 1) (v / 65536)) (a + 2) (v / 256)) (a + 3) v
  else store8 (store8 (store8 (store8 m a v)
                         (a + 1) (v / 256)) (a + 2) (v / 65536))
              (a + 3) (v / 16777216).

Definition set_th_sport (m : mem) (h : ptr) (v : Z) : mem := store16 m h v.
Definition set_th_dport (m : mem) (h : ptr) (v : Z) : mem := store16 m (h + 2) v.
Definition set_th_seq (m : mem) (h : ptr) (v : Z) : mem := store32 m (h + 4) v.
Definition set_th_ack (m : mem) (h : ptr) (v : Z) : mem := store32 m (h + 8) v.
Definition set_th_offx2 (m : mem) (h : ptr) (v : Z) : mem := store8 m (h + 12) v.
Definition set_th_flags (m : mem) (h : ptr) (v : Z) : mem := store8 m (h + 13) v.
Definition set_th_win (m : mem) (h : ptr) (v : Z) : mem := store16 m (h + 14) v.
Definition set_th_sum (m : mem) (h : ptr) (v : Z) : mem := store16 m (h + 16) v.
Definition set_th_urp (m : mem) (h : ptr) (v : Z) : mem := store16 m (h + 18) v.

(** Modelled from the spec: protocols/tcp.h is not among the sources.
    [tcp::set_tcp_offset(h, value)] sets the data offset, the high four
    bits of [th_offx2], and keeps the low four. *)
Definition set_tcp_offset (m : mem) (h : ptr) (value : Z) : mem :=
  set_th_offx2 m h (Z.lor (Z.land (th_offx2 m h) 0x0f) (Z.shiftl value 4)).
End HeaderStores.

(* ===================================================================== *)
(** * TcpCodec::encode and TcpCodec::update *)
(* ===================================================================== *)

(** Modelled from the spec: framework/codec.h, which declares
    [EncodeType], [EncState], [Buffer], [update_buffer], [buff_diff] and
    [forward], is not among the sources.  The encode state carries the
    source packet, the type of the response, the direction flags, an
    optional payload and the protocol for the outer layer.  The output
    buffer is filled from the back: growing it by [n] bytes moves its
    start [n] bytes down and is refused when the buffer is full;
    [buff_diff] is the number of bytes from a pointer to the end of the
    buffer's content. *)
Inductive EncodeType :=
| ENC_TCP_FIN
| ENC_TCP_RST
| ENC_UNR_NET
| ENC_UNR_HOST
| ENC_UNR_PORT
| ENC_UNR_FW
| ENC_TCP_PUSH.

Record EncState := {
  enc_type : EncodeType;
  enc_flags : Z;
  payLoad : option ptr;
  payLen : Z;
  enc_proto : Z;
  enc_p : Packet
}.

Record Buffer := {
  buf_mem : mem;       (* the memory the buffer lies in *)
  base : ptr;          (* start of the content *)
  buf_end : Z;         (* length of the content *)
  buf_size : Z         (* size of the allocation *)
}.

Definition update_buffer (buf : Buffer) (n : Z) : option Buffer :=
  if buf_size buf <? buf_end buf + n then None
  else Some {| buf_mem := buf_mem buf; base := base buf - n;
               buf_end := buf_end buf + n; buf_size := buf_size buf |}.

Definition buff_diff (buf : Buffer) (ho : ptr) : Z :=
  base buf + buf_end buf - ho.

Definition set_buf_mem (buf : Buffer) (m : mem) : Buffer :=
  {| buf_mem := m; base := base buf; buf_end := buf_end buf;
     buf_size := buf_size buf |}.

Definition set_enc_proto (enc : EncState) (v : Z) : EncState :=
  {| enc_type := enc_type enc; enc_flags := enc_flags enc;
     payLoad := payLoad enc; payLen := payLen enc; enc_proto := v;
     enc_p := enc_p enc |}.

Definition forward (env : Env) (f : Z) : bool :=
  negb (Z.land f (ENC_FLAG_FWD env) =? 0).

Definition is_fin_or_push (t : EncodeType) : bool :=
  match t with
  | ENC_TCP_FIN | ENC_TCP_PUSH => true
  | _ => false
  end.

Definition is_push (t : EncodeType) : bool :=
  match t with
  | ENC_TCP_PUSH => true
  | _ => false
  end.

Section Encode.
Variable env : Env.

(** [ctl = (hi->th_flags & TH_SYN) ? 1 : 0] *)
Definition encode_ctl (mi : mem) (hi : ptr) : Z :=
  if negb (Z.land (th_flags mi hi) TH_SYN =? 0) then 1 else 0.

(** The ports, the sequence number and the acknowledgement of the
    response, written through [ho] into the memory [mo] of the output
    buffer from the header [hi] in the memory [mi] of the input. *)
Definition encode_direction (mi : mem) (hi : ptr) (enc : EncState)
    (mo : mem) (ho : ptr) : mem :=
  let ctl := encode_ctl mi hi in
  if forward env (enc_flags enc) then
    let mo := set_th_sport env mo ho (th_sport env mi hi) in
    let mo := set_th_dport env mo ho (th_dport env mi hi) in
    (* th_seq depends on whether the data passes or drops *)
    let mo :=
      if negb (DAQ_interface_inline env) then
        set_th_seq env mo ho
          (htonl env ((ntohl env (th_seq env mi hi) + dsize (enc_p enc) + ctl)
                      mod 4294967296))
      else set_th_seq env mo ho (th_seq env mi hi) in
    set_th_ack env mo ho (th_ack env mi hi)
  else
    let mo := set_th_sport env mo ho (th_dport env mi hi) in
    let mo := set_th_dport env mo ho (th_sport env mi hi) in
    let mo := set_th_seq env mo ho (th_ack env mi hi) in
    set_th_ack env mo ho
      (htonl env ((ntohl env (th_seq env mi hi) + dsize (enc_p enc) + ctl)
                  mod 4294967296)).

(** [if ( enc->flags & ENC_FLAG_SEQ ) ...]: the sequence number moved on
    by the value bits of the flags. *)
Definition encode_seq_flag (enc : EncState) (mo : mem) (ho : ptr) : mem :=
  if negb (Z.land (enc_flags enc) (ENC_FLAG_SEQ env) =? 0) then
    let seq := ntohl env (th_seq env mo ho) in
    let seq :=
      (seq + Z.land (enc_flags enc) (ENC_FLAG_VAL env)) mod 4294967296 in
    set_th_seq env mo ho (htonl env seq)
  else mo.

(** The data offset, the window, the urgent pointer and the flags of the
    response. *)
Definition encode_control (enc : EncState) (mo : mem) (ho : ptr) : mem :=
  let attach_payload := is_fin_or_push (enc_type enc) in
  let mo := set_th_offx2 mo ho 0 in
  let mo := set_tcp_offset mo ho (Z.shiftr TCP_HDR_LEN 2) in
  let mo := set_th_urp env mo ho 0 in
  let mo := set_th_win env mo ho 0 in
  if attach_payload then
    let mo := set_th_flags mo ho TH_ACK in
    if is_push (enc_type enc) then
      let mo := set_th_flags mo ho (Z.lor (th_flags mo ho) TH_PUSH) in
      set_th_win env mo ho (htons env 65535)
    else
      set_th_flags mo ho (Z.lor (th_flags mo ho) TH_FIN)
  else
    set_th_flags mo ho (Z.lor TH_RST TH_ACK).

(** The header fields of the response, in the order in which [encode]
    writes them. *)
Definition encode_header (mi : mem) (hi : ptr) (enc : EncState)
    (mo : mem) (ho : ptr) : mem :=
  let mo := encode_direction mi hi enc mo ho in
  let mo := encode_seq_flag enc mo ho in
  encode_control enc mo ho.

(** The checksum of the response, computed over the header at [ho] and
    what follows it in the buffer. *)
Definition encode_checksum (enc : EncState) (out : Buffer) (ho : ptr) : mem :=
  let mo := set_th_sum env (buf_mem out) ho 0 in
  let api := ip_api (enc_p enc) in
  let len := buff_diff out ho in
  if is_ip4 api then
    set_th_sum env mo ho
      (tcp_cksum env mo ho len
         (PH4 {| ph_sip := get_ip4_src api; ph_dip := get_ip4_dst api;
                 ph_zero := 0; ph_protocol := IPPROTO_TCP;
                 ph_len := htons env (len mod 65536) |}))
  else
    set_th_sum env mo ho
      (tcp_cksum env mo ho len
         (PH6 {| ph6_sip := get_ip6_src api; ph6_dip := get_ip6_dst api;
                 ph6_zero := 0; ph6_protocol := IPPROTO_TCP;
                 ph6_len := htons env (len mod 65536) |})).

(** [TcpCodec::encode(enc, out, raw_in)]: the returned [bool], [*enc] and
    [*out] after the call.  [mi] is the memory that [raw_in] and
    [enc->payLoad] point into. *)
Definition encode (mi : mem) (enc : EncState) (out : Buffer) (raw_in : ptr)
    : bool * EncState * Buffer :=
  let hi := raw_in in
  let attach_payload := is_fin_or_push (enc_type enc) in
  (* working our way backwards throught he packet. First, attach a
     payload *)
  let attached :=
    match payLoad enc with
    | Some pl =>
        if attach_payload && (0 <? payLen enc) then
          match update_buffer out (payLen enc) with
          | Some out' =>
              Some (set_buf_mem out'
                      (memcpy (buf_mem out') (base out') mi pl (payLen enc)))
          | None => None
          end
        else Some out
    | None => Some out
    end in
  match attached with
  | None => (false, enc, out)
  | Some out =>
      match update_buffer out (hdr_len mi hi) with
      | None => (false, enc, out)
      | Some out =>
          let ho := base out in
          let out := set_buf_mem out (encode_header mi hi enc (buf_mem out) ho) in
          (* in case of ip6 extension headers, this gets next correct *)
          let enc := set_enc_proto enc IPPROTO_TCP in
          let out := set_buf_mem out (encode_checksum enc out ho) in
          (true, enc, out)
      end
  end.

(** The checksum that [update] computes over the pseudoheader and the
    [len] bytes at [h]. *)
Definition update_csum (m : mem) (h : ptr) (len : Z) (api : IpApi) : Z :=
  if is_ip4 api then
    tcp_cksum env m h len
      (PH4 {| ph_sip := get_ip4_src api; ph_dip := get_ip4_dst api;
              ph_zero := 0; ph_protocol := IPPROTO_TCP;
              ph_len := htons env (len mod 65536) |})
  else
    tcp_cksum env m h len
      (PH6 {| ph6_sip := get_ip6_src api; ph6_dip := get_ip6_dst api;
              ph6_zero := 0; ph6_protocol := IPPROTO_TCP;
              ph6_len := htons env (len mod 65536) |}).

(** [TcpCodec::update(p, lyr, len)]: the returned [bool], the memory that
    [lyr->start] points into and [*len] after the call. *)
Definition update (m : mem) (p : Packet) (lyr_start : ptr) (len : Z)
    : bool * mem * Z :=
  let h := lyr_start in
  let len := (len + (hdr_len m h + dsize p)) mod 4294967296 in
  if negb (PacketWasCooked env p)
     || negb (Z.land (packet_flags p) (PKT_REBUILT_FRAG env) =? 0)
  then
    let m := set_th_sum env m h 0 in
    (true, set_th_sum env m h (update_csum m h len (ip_api p)), len)
  else (true, m, len).
End Encode.


(* ===================================================================== *)
(** * A concrete environment and concrete inputs *)
(* ===================================================================== *)

(** Modelled from the spec: codecs/ip/checksum.h is not among the sources.
    [checksum::tcp_cksum] is the 16-bit one's-complement sum over the
    pseudoheader and the segment, carries folded, complemented; an odd
    trailing byte is padded with a zero byte. *)
Fixpoint words16 (env : Env) (m : mem) (a : ptr) (n : nat) : list Z :=
  match n with
  | O => []
  | Datatypes.S k => load16 env m a :: words16 env m (a + 2) k
  end.

Definition halves (v : Z) : list Z := [v mod 65536; (v / 65536) mod 65536].

Definition pseudo_words (env : Env) (ps : pseudo) : list Z :=
  let pair a b := if host_big_endian env then a * 256 + b else a + b * 256 in
  match ps with
  | PH4 ph =>
      halves (ph_sip ph) ++ halves (ph_dip ph)
      ++ [pair (ph_zero ph mod 256) (ph_protocol ph mod 256); ph_len ph]
  | PH6 ph =>
      concat (map halves (ph6_sip ph)) ++ concat (map halves (ph6_dip ph))
      ++ [pair (ph6_zero ph mod 256) (ph6_protocol ph mod 256); ph6_len ph]
  end.

Definition cksum_fold (s : Z) : Z :=
  let s := s / 65536 + s mod 65536 in
  let s := s + s / 65536 in
  65535 - s mod 65536.

Definition spec_tcp_cksum (env : Env) (m : mem) (h : ptr) (len : Z)
    (ps : pseudo) : Z :=
  let odd :=
    if len mod 2 =? 1 then
      [if host_big_endian env then load8 m (h + len - 1) * 256
       else load8 m (h + len - 1)]
    else [] in
  cksum_fold
    (fold_right Z.add 0
       (pseudo_words env ps ++ words16 env m h (Z.to_nat (len / 2)) ++ odd)).

(** An environment for the examples: the byte order of the host, the
    three policy switches and the interface mode are chosen by the
    arguments; the bit masks have the values of snort's headers. *)
Definition sample_env (big_endian checksums inline drops daq_inline : bool)
    : Env :=
  {| host_big_endian := big_endian;
     ScTcpChecksums := checksums;
     ScInlineMode := inline;
     ScTcpChecksumDrops := drops;
     tcp_cksum :=
       spec_tcp_cksum
         {| host_big_endian := big_endian;
            ScTcpChecksums := checksums; ScInlineMode := inline;
            ScTcpChecksumDrops := drops;
            tcp_cksum := fun _ _ _ _ => 0;
            sfvar_ip_in_SynToMulticastDstIp := fun _ => false;
            DAQ_interface_inline := daq_inline;
            PacketWasCooked := fun _ => false;
            PKT_ERR_CKSUM_TCP := 0; PROTO_BIT__TCP := 0;
            DECODE__UNSURE_ENCAP := 0; PKT_REBUILT_FRAG := 0;
            ENC_FLAG_FWD := 0; ENC_FLAG_SEQ := 0; ENC_FLAG_VAL := 0;
            TCPOLEN_TRAILER_CSUM := 0 |};
     sfvar_ip_in_SynToMulticastDstIp := fun _ => false;
     DAQ_interface_inline := daq_inline;
     PacketWasCooked := fun p => negb (Z.land (packet_flags p) 0x80 =? 0);
     PKT_ERR_CKSUM_TCP := 0x02;
     PROTO_BIT__TCP := 0x04;
     DECODE__UNSURE_ENCAP := 0x08;
     PKT_REBUILT_FRAG := 0x01;
     ENC_FLAG_FWD := 0x80000000;
     ENC_FLAG_SEQ := 0x40000000;
     ENC_FLAG_VAL := 0x0FFFFFFF;
     TCPOLEN_TRAILER_CSUM := 3 |}.

(** A little-endian host that verifies checksums, taps passively. *)
Definition env_passive : Env := sample_env false true false false false.
(** The same host in inline mode with checksum drops on. *)
Definition env_inline : Env := sample_env false true true true true.

(** An IPv4 layer 10.0.0.1 -> 10.0.0.2 with the given IP id. *)
Definition sample_ip (id : Z) : IpApi :=
  {| is_ip4 := true; get_ip4_src := 0x0100000a; get_ip4_dst := 0x0200000a;
     get_ip6_src := []; get_ip6_dst := []; ip_proto := 6; ip_id := id |}.

(** A packet fresh from the IP decoder. *)
Definition sample_packet (id dflags pflags : Z) : Packet :=
  {| tcph := None; sp := 0; dp := 0;
     tcp_options := repeat no_option 40; tcp_option_count := 0;
     data := 0; dsize := 0; proto_bits := 0x01; error_flags := 0;
     decode_flags := dflags; packet_flags := pflags;
     ip_api := sample_ip id |}.

Definition sample_world (id dflags : Z) : World :=
  {| pkt := sample_packet id dflags 0; trace := [] |}.

(** The minimum valid SYN of the spec's scenario S1: ports 40000 -> 80,
    seq 1, ack 0, offset 5, flags SYN, window 8192, urp 0; the checksum
    field is left to the argument. *)
Definition syn_segment (c0 c1 : Z) : list Z :=
  [0x9c; 0x40; 0x00; 0x50;  0; 0; 0; 1;  0; 0; 0; 0;
   0x50; 0x02; 0x20; 0x00;  c0; c1; 0; 0].


(** The segment of scenario S1 with its checksum filled in. *)
Definition seg_syn : mem := mem_of_bytes (syn_segment 0xdf 0x4e).

(** The same segment with a corrupted checksum. *)
Definition seg_syn_badsum : mem := mem_of_bytes (syn_segment 0 0).

(* ===================================================================== *)
(** * Vocabulary of the statements *)
(* ===================================================================== *)

(** [a] occurs in the trace [t] at a position before an occurrence of
    [b]. *)
Definition before (a b : Action) (t : list Action) : Prop :=
  exists t1 t2 t3, t = t1 ++ a :: t2 ++ b :: t3.

(** The decoder events of a trace, in order. *)
Fixpoint events_of (t : list Action) : list DecodeEvent :=
  match t with
  | [] => []
  | Event e :: t' => e :: events_of t'
  | _ :: t' => events_of t'
  end.

(** The byte by which the walker advances over the option at [p]: one for
    EOL and NOP, the option's length byte otherwise. *)
Definition option_skip (m : mem) (p : ptr) : Z :=
  if (load8 m p =? 0) || (load8 m p =? 1) then 1 else load8 m (p + 1).

(** [decode] returns failure with the header reference cleared, having
    raised the decoder event [e] and no other. *)
Definition decode_fails_with (env : Env) (m : mem) (raw_pkt : ptr)
    (raw_len : Z) (w : World) (e : DecodeEvent) : Prop :=
  exists lyr w' new,
    decode env m raw_pkt raw_len w = Ok (false, lyr, w')
    /\ tcph (pkt w') = None
    /\ trace w' = trace w ++ new
    /\ events_of new = [e].

(** A 16-byte fragment of a segment whose data offset field is 4. *)
Definition short_segment : mem :=
  mem_of_bytes [0x9c; 0x40; 0x00; 0x50;  0; 0; 0; 1;  0; 0; 0; 0;
                0x40; 0x02; 0x20; 0x00].

(** A window scale option, shift 7, then a NOP. *)
Definition wscale_option : mem := mem_of_bytes [3; 3; 7; 1].

(** [decode] returns [ret], having appended [new] to the trace. *)
Definition decode_appends (env : Env) (m : mem) (raw_pkt : ptr)
    (raw_len : Z) (w : World) (ret : bool) (new : list Action) : Prop :=
  exists lyr w',
    decode env m raw_pkt raw_len w = Ok (ret, lyr, w')
    /\ trace w' = trace w ++ new.

(** What one pass through the walker's [switch] may change: [w'] agrees
    with [w] on the header reference, the error flags and the IP layer; the
    option array has kept its length and all records but the one at
    [opt_count]; and either the option was accepted, with [byte_skip] its
    [skip] and at most the window scale event raised, or it was refused
    with one of the two error codes and nothing raised. *)
Definition option_post (skip : Z) (s : Walk) (w : World)
    (s' : Walk) (w' : World) : Prop :=
  option_ptr s' = option_ptr s
  /\ opt_count s' = opt_count s
  /\ tcph (pkt w') = tcph (pkt w)
  /\ error_flags (pkt w') = error_flags (pkt w)
  /\ ip_api (pkt w') = ip_api (pkt w)
  /\ length (tcp_options (pkt w')) = length (tcp_options (pkt w))
  /\ (forall i : nat,
        i <> Z.to_nat (opt_count s) ->
        tcp_options (pkt w') !! i = tcp_options (pkt w) !! i)
  /\ ((code s' = 0 /\ byte_skip s' = skip
       /\ (trace w' = trace w
           \/ trace w' = trace w ++ [Event DECODE_TCPOPT_WSCALE_INVALID]))
      \/ ((code s' = OPT_BADLEN \/ code s' = OPT_TRUNC)
          /\ trace w' = trace w)).

(** The length pointer of an option: null, or the byte after the kind. *)
Definition len_ptr_of (s : Walk) (len_ptr : option ptr) : Prop :=
  len_ptr = None \/ len_ptr = Some (option_ptr s + 1).


(** The events that the option walker raises. *)
Definition walker_event (e : DecodeEvent) : Prop :=
  In e [DECODE_TCPOPT_BADLEN; DECODE_TCPOPT_TRUNCATED; DECODE_TCPOPT_TTCP;
        DECODE_TCPOPT_OBSOLETE; DECODE_TCPOPT_EXPERIMENTAL;
        DECODE_TCPOPT_WSCALE_INVALID].

(** [w'] agrees with [w] on the header reference, the error flags, the IP
    layer and the length of the option array, and its trace is that of [w]
    followed by decoder events that satisfy [P]. *)
Definition frame (P : DecodeEvent -> Prop) (w w' : World) : Prop :=
  tcph (pkt w') = tcph (pkt w)
  /\ error_flags (pkt w') = error_flags (pkt w)
  /\ ip_api (pkt w') = ip_api (pkt w)
  /\ length (tcp_options (pkt w')) = length (tcp_options (pkt w))
  /\ exists evs, trace w' = trace w ++ map Event evs /\ Forall P evs.

(** The event that the walker raises for an error code. *)
Definition error_event (c : Z) : DecodeEvent :=
  if c =? OPT_BADLEN then DECODE_TCPOPT_BADLEN else DECODE_TCPOPT_TRUNCATED.

(** Two window scale options, the second with a length byte of 2, and the
    world in which the walker meets the second. *)
Definition bad_second_option : mem := mem_of_bytes [3; 3; 7; 3; 2; 0].

(** At the head of the loop, [opt_count] is the number of turns made and
    the option array has its 40 records. *)
Definition walk_inv (k : nat) (sw : Walk * World) : Prop :=
  opt_count (fst sw) = Z.of_nat k
  /\ length (tcp_options (pkt (snd sw))) = 40%nat.

(** A pure SYN whose sequence field reads 6060842 on a little-endian
    host, checksum filled in. *)
Definition naptha_segment : mem :=
  mem_of_bytes [0x9c; 0x40; 0x00; 0x50;  0x2a; 0x7b; 0x5c; 0x00;
                0; 0; 0; 0;  0x50; 0x02; 0x20; 0x00;  0x58; 0xd4; 0; 0].

(** The SYN of S1 with a data offset of 6 and a window scale option,
    checksum filled in. *)
Definition syn_wscale_segment : mem :=
  mem_of_bytes [0x9c; 0x40; 0x00; 0x50;  0; 0; 0; 1;  0; 0; 0; 0;
                0x60; 0x02; 0x20; 0x00;  0xc5; 0x47; 0; 0;  3; 3; 7; 0].


(** The sequence number after the segment [hi] as [encode] computes it:
    the segment's sequence number, plus the packet's payload size, plus
    one for a SYN, modulo 2^32. *)
Definition next_seq (env : Env) (mi : mem) (hi : ptr) (enc : EncState) : Z :=
  (ntohl env (th_seq env mi hi) + dsize (enc_p enc) + encode_ctl mi hi)
  mod 4294967296.

(** An empty output buffer of 100 bytes. *)
Definition sample_buffer : Buffer :=
  {| buf_mem := fun _ => 0xaa; base := 100; buf_end := 0; buf_size := 100 |}.

(** An encode state for the packet of S1 with the given type and flags. *)
Definition sample_enc (t : EncodeType) (flags : Z) : EncState :=
  {| enc_type := t; enc_flags := flags; payLoad := None; payLen := 0;
     enc_proto := 0; enc_p := sample_packet 1 0 0 |}.

(** The packet was cooked and is not a rebuilt fragment. *)
Definition cooked_not_rebuilt (env : Env) (p : Packet) : bool :=
  PacketWasCooked env p
  && (Z.land (packet_flags p) (PKT_REBUILT_FRAG env) =? 0).

(** The sequence number of the segment at [h]: the header keeps it in
    network byte order, [encode] reads it as [ntohl(hi->th_seq)] and
    [TCPMiscTests] compares the field with [htonl(674711609)]. *)
Definition seq_number (env : Env) (m : mem) (h : ptr) : Z :=
  ntohl env (th_seq env m h).

(** A pure SYN with the sequence number 6060842 (its bytes on the wire are
    00 5c 7b 2a), checksum filled in. *)
Definition naptha_wire_segment : mem :=
  mem_of_bytes [0x9c; 0x40; 0x00; 0x50;  0x00; 0x5c; 0x7b; 0x2a;
                0; 0; 0; 0;  0x50; 0x02; 0x20; 0x00;  0x63; 0xc9; 0; 0].

(** A big-endian host that does not verify checksums. *)
Definition env_big_endian : Env := sample_env true false false false false.

(* ===================================================================== *)
(** * TcpCodec::format *)
(* ===================================================================== *)

(** framework/codec.h, which declares [forward] and [reverse], is not
    among the sources.  Modelled from the spec, by which a direction is
    forward or reverse: [reverse(f)] is the negation of [forward(f)].  The
    properties of [format] are stated on the value of [reverse(f)] and
    hold however it is computed. *)
Definition reverse (env : Env) (f : Z) : bool := negb (forward env f).

(** [TcpCodec::format(f, p, c, lyr)]: the memory and the copy [c] after
    the call.  [lyr_start] is [lyr->start], the header of the copy, and
    [ph] is [p->layers[i].start], the header of the original, for the
    index [i] of [lyr] in [c->layers]; both lie in the memory [m]. *)
Definition format (env : Env) (f : Z) (m : mem) (ph : ptr) (c : World)
    (lyr_start : ptr) : mem * World :=
  let ch := lyr_start in
  let c := set_tcph c (Some ch) in
  let m :=
    if reverse env f then
      let m := set_th_sport env m ch (th_dport env m ph) in
      set_th_dport env m ch (th_sport env m ph)
    else m in
  (m,
   with_pkt c (fun p =>
     set_ports p (ntohs env (th_sport env m ch)) (ntohs env (th_dport env m ch)))).

(* ===================================================================== *)
(** * Vocabulary of the further properties *)
(* ===================================================================== *)

(** [p'] is [p] but for the option array and the option count. *)
Definition same_but_options (p p' : Packet) : Prop :=
  tcph p' = tcph p /\ sp p' = sp p /\ dp p' = dp p
  /\ data p' = data p /\ dsize p' = dsize p
  /\ proto_bits p' = proto_bits p /\ error_flags p' = error_flags p
  /\ decode_flags p' = decode_flags p /\ packet_flags p' = packet_flags p
  /\ ip_api p' = ip_api p.

(** The record [o] describes an option that lies in the region from
    [start] to [end_]: its kind is the byte at some [p] in the region, and
    its payload, when it has one, is the [opt_len o] bytes from [p + 2] on,
    all of them before [end_]. *)
Definition option_within (m : mem) (start end_ : ptr) (o : Options) : Prop :=
  exists p,
    start <= p < end_
    /\ opt_code o = load8 m p
    /\ match opt_data o with
       | None => opt_len o = 0
       | Some d => d = p + 2 /\ 1 <= opt_len o /\ d + opt_len o <= end_
       end.

(** The memories [m] and [m'] hold the same bytes from [a] up to, not
    including, [b]. *)
Definition agree_on (m m' : mem) (a b : ptr) : Prop :=
  forall x, a <= x < b -> load8 m x = load8 m' x.

(** [w'] is [w] with the decoder events [evs] raised. *)
Definition raises (w w' : World) (evs : list DecodeEvent) : Prop :=
  pkt w' = pkt w /\ trace w' = trace w ++ map Event evs.

(** What one turn of the walker's loop does up to the end of the [switch],
    entered with the option pointer inside the region: it leaves the
    packet alone but for the record at [opt_count]; and either it accepts
    the option, with a skip of at least one byte that stays inside the
    region and a record whose payload lies inside the region, raising at
    most the window scale event, or it refuses the option with one of the
    two error codes and raises nothing. *)
Definition turn_post (end_ptr : ptr) (s : Walk) (w : World)
    (s' : Walk) (w' : World) : Prop :=
  option_ptr s' = option_ptr s
  /\ opt_count s' = opt_count s
  /\ same_but_options (pkt w) (pkt w')
  /\ tcp_option_count (pkt w') = tcp_option_count (pkt w)
  /\ length (tcp_options (pkt w')) = length (tcp_options (pkt w))
  /\ (forall i : nat,
        i <> Z.to_nat (opt_count s) ->
        tcp_options (pkt w') !! i = tcp_options (pkt w) !! i)
  /\ ((code s' = 0
       /\ 1 <= byte_skip s' <= 255
       /\ option_ptr s + byte_skip s' <= end_ptr
       /\ (exists o,
             tcp_options (pkt w') !! Z.to_nat (opt_count s) = Some o
             /\ opt_code o = opt_code (get_option w (opt_count s))
             /\ match opt_data o with
                | None => opt_len o = 0
                | Some d =>
                    d = option_ptr s + 2 /\ 1 <= opt_len o
                    /\ d + opt_len o <= end_ptr
                end)
       /\ (trace w' = trace w
           \/ trace w' = trace w ++ [Event DECODE_TCPOPT_WSCALE_INVALID]))
      \/ ((code s' = OPT_BADLEN \/ code s' = OPT_TRUNC)
          /\ trace w' = trace w)).

(** The events with which a walk ends: one of the two errors, or one of
    the three findings. *)
Definition closing_event (e : DecodeEvent) : Prop :=
  In e [DECODE_TCPOPT_BADLEN; DECODE_TCPOPT_TRUNCATED;
        DECODE_TCPOPT_EXPERIMENTAL; DECODE_TCPOPT_OBSOLETE;
        DECODE_TCPOPT_TTCP].

(** The first [n] records of the option array of [p] describe options
    that lie in the region from [start] to [end_]. *)
Definition records_within (m : mem) (start end_ : ptr) (p : Packet)
    (n : Z) : Prop :=
  forall i : nat,
    (i < Z.to_nat n)%nat ->
    exists o, tcp_options p !! i = Some o /\ option_within m start end_ o.

(** The trace of [w'] is that of [w] followed by [n] window scale events,
    each of them raised for an option that was accepted ([n] is at most
    [count]), and then by the events [last]. *)
Definition walk_trace (w w' : World) (count : Z) (n : nat)
    (last : list DecodeEvent) : Prop :=
  trace w' = trace w
             ++ map Event (repeat DECODE_TCPOPT_WSCALE_INVALID n ++ last)
  /\ Z.of_nat n <= count.

(** The state of the walk over the region from [start] to [end_ptr] at
    the head of the loop, begun in the world [w0]: the pointer has moved
    on by at least one byte per accepted option and, once an option was
    accepted, not beyond the end of the region; the option array has its
    40 records, of which those written so far lie in the region; nothing
    else of the packet has changed; and only window scale events have been
    raised. *)
Definition walk_ok (m : mem) (start end_ptr : ptr) (w0 : World)
    (sw : Walk * World) : Prop :=
  0 <= opt_count (fst sw) <= 40
  /\ start + opt_count (fst sw) <= option_ptr (fst sw)
  /\ (opt_count (fst sw) = 0 \/ option_ptr (fst sw) <= end_ptr)
  /\ length (tcp_options (pkt (snd sw))) = 40%nat
  /\ records_within m start end_ptr (pkt (snd sw)) (opt_count (fst sw))
  /\ same_but_options (pkt w0) (pkt (snd sw))
  /\ exists n, walk_trace w0 (snd sw) (opt_count (fst sw)) n [].

(** What the walk over the region of [o_len] bytes at [start], begun in
    the world [w0], leaves behind. *)
Definition walk_done (m : mem) (start : ptr) (o_len : Z) (w0 w' : World)
    : Prop :=
  0 <= tcp_option_count (pkt w') <= Z.max 0 o_len
  /\ length (tcp_options (pkt w')) = 40%nat
  /\ records_within m start (start + o_len) (pkt w') (tcp_option_count (pkt w'))
  /\ same_but_options (pkt w0) (pkt w')
  /\ exists n last,
       walk_trace w0 w' (tcp_option_count (pkt w')) n last
       /\ (last = [] \/ exists e, last = [e] /\ closing_event e).

(** A region of six bytes: the window scale option and the NOP of
    [wscale_option], then two bytes that the walk over the first four
    must not look at. *)
Definition wscale_option_tail : mem := mem_of_bytes [3; 3; 7; 1; 3; 2].

(** The events of the tests on the flag combinations, in the order in
    which [decode] raises them, for the header at [h] under the IP layer
    [api]. *)
Definition flag_events (env : Env) (m : mem) (h : ptr) (api : IpApi)
    : list DecodeEvent :=
  let f := th_flags m h in
  (if TCP_ISFLAGSET m h (Z.lor TH_FIN (Z.lor TH_PUSH TH_URG)) then
     if TCP_ISFLAGSET m h (Z.lor TH_SYN (Z.lor TH_ACK TH_RST))
     then [DECODE_TCP_XMAS] else [DECODE_TCP_NMAP_XMAS]
   else [])
  ++ (if TCP_ISFLAGSET m h TH_SYN then
        (if (f =? TH_SYN) && (th_seq env m h =? 6060842)
            && (ip_id api =? 413)
         then [DECODE_DOS_NAPTHA] else [])
        ++ (if sfvar_ip_in_SynToMulticastDstIp env api
            then [DECODE_SYN_TO_MULTICAST] else [])
        ++ (if negb (Z.land f TH_RST =? 0) then [DECODE_TCP_SYN_RST] else [])
        ++ (if negb (Z.land f TH_FIN =? 0) then [DECODE_TCP_SYN_FIN] else [])
      else
        if Z.land f (Z.lor TH_ACK TH_RST) =? 0
        then [DECODE_TCP_NO_SYN_ACK_RST] else [])
  ++ (if negb (Z.land f (Z.lor TH_FIN (Z.lor TH_PUSH TH_URG)) =? 0)
         && (Z.land f TH_ACK =? 0)
      then [DECODE_TCP_MUST_ACK] else []).

(** The payload size that [decode] stores in [p->dsize]: what is left of
    the [raw_len] bytes behind a header of [lyr_len] bytes, as a
    [uint16_t]. *)
Definition payload_size (lyr_len raw_len : Z) : Z :=
  if lyr_len <? raw_len then (raw_len - lyr_len) mod 65536 else 0.

(** The events of the urgent pointer test and of [TCPMiscTests], in the
    order in which [decode] raises them, for the header at [h] and the
    payload size [dsz]. *)
Definition tail_events (env : Env) (m : mem) (h : ptr) (dsz : Z)
    : list DecodeEvent :=
  (if negb (Z.land (th_flags m h) TH_URG =? 0)
      && ((dsz =? 0) || (dsz <? ntohs env (th_urp env m h)))
   then [DECODE_TCP_BAD_URP] else [])
  ++ (if (Z.land (th_flags m h) TH_NORESERVED =? TH_SYN)
         && (th_seq env m h =? htonl env 674711609)
      then [DECODE_TCP_SHAFT_SYNFLOOD] else [])
  ++ (if (ntohs env (th_sport env m h) =? 0)
         || (ntohs env (th_dport env m h) =? 0)
      then [DECODE_TCP_PORT_ZERO] else []).

(** What the checksum block of [decode] finds: verification is on and the
    checksum over pseudoheader and segment is not zero. *)
Definition checksum_bad (env : Env) (m : mem) (raw_pkt : ptr) (raw_len : Z)
    (p : Packet) : bool :=
  ScTcpChecksums env
  && negb (decode_csum env m raw_pkt raw_len (ip_api p) =? 0).

(** The world in which [decode] goes on behind the checksum block: the
    header reference is set, and for a bad checksum the error flag is set
    and, in inline mode with checksum drops on, a drop is requested. *)
Definition after_checksum (env : Env) (m : mem) (raw_pkt : ptr) (raw_len : Z)
    (w : World) : World :=
  let w0 := set_tcph w (Some raw_pkt) in
  if checksum_bad env m raw_pkt raw_len (pkt w) then
    let w1 :=
      with_pkt w0 (fun p =>
        set_error_flags p (Z.lor (error_flags p) (PKT_ERR_CKSUM_TCP env))) in
    if ScInlineMode env && ScTcpChecksumDrops env
    then Active_DropPacket w1 else w1
  else w0.

(** The events of the three bounds checks of [decode]. *)
Definition bounds_event (e : DecodeEvent) : Prop :=
  In e [DECODE_TCP_DGRAM_LT_TCPHDR; DECODE_TCP_INVALID_OFFSET;
        DECODE_TCP_LARGE_OFFSET].

(** A little-endian host that does not verify checksums. *)
Definition env_plain : Env := sample_env false false false false false.

(** The SYN of S1 with the flags byte replaced by [flags]; the checksum
    field is zero. *)
Definition flags_segment (flags : Z) : mem :=
  mem_of_bytes [0x9c; 0x40; 0x00; 0x50;  0; 0; 0; 1;  0; 0; 0; 0;
                0x50; flags; 0x20; 0x00;  0; 0; 0; 0].

(** A pure SYN with the sequence number 674711609 (its bytes on the wire
    are 28 37 48 39) from port 0; the checksum field is zero. *)
Definition shaft_segment : mem :=
  mem_of_bytes [0x00; 0x00; 0x00; 0x50;  0x28; 0x37; 0x48; 0x39;
                0; 0; 0; 0;  0x50; 0x02; 0x20; 0x00;  0; 0; 0; 0].

(** A segment of 24 bytes with the flags ACK and URG, a header of 20
    bytes, hence a payload of 4 bytes, and an urgent pointer of 5; the
    checksum field is zero. *)
Definition urgent_segment : mem :=
  mem_of_bytes [0x9c; 0x40; 0x00; 0x50;  0; 0; 0; 1;  0; 0; 0; 0;
                0x50; 0x30; 0x20; 0x00;  0; 0; 0; 5;  1; 2; 3; 4].

(** The segment [syn_wscale_segment] followed by four bytes that are not
    part of it. *)
Definition syn_wscale_segment_tail : mem :=
  mem_of_bytes [0x9c; 0x40; 0x00; 0x50;  0; 0; 0; 1;  0; 0; 0; 0;
                0x60; 0x02; 0x20; 0x00;  0xc5; 0x47; 0; 0;  3; 3; 7; 0;
                0xde; 0xad; 0xbe; 0xef].

(** The number of payload bytes that [encode] attaches: [enc->payLen] for
    a FIN or PUSH with a payload of positive length, and 0 otherwise. *)
Definition attached_len (enc : EncState) : Z :=
  match payLoad enc with
  | Some _ =>
      if is_fin_or_push (enc_type enc) && (0 <? payLen enc)
      then payLen enc else 0
  | None => 0
  end.

(** An encode state for the packet of S1 with the given type and flags and
    a payload of four bytes at address 20. *)
Definition sample_enc_payload (t : EncodeType) (flags : Z) : EncState :=
  {| enc_type := t; enc_flags := flags; payLoad := Some 20; payLen := 4;
     enc_proto := 0; enc_p := sample_packet 1 0 0 |}.

(** The SYN of S1 followed by the four bytes 1 2 3 4. *)
Definition seg_syn_payload : mem :=
  mem_of_bytes (syn_segment 0xdf 0x4e ++ [1; 2; 3; 4]).

(** An output buffer of 100 bytes with room for 22 more. *)
Definition nearly_full_buffer : Buffer :=
  {| buf_mem := fun _ => 0xaa; base := 22; buf_end := 78; buf_size := 100 |}.

(** The buffer [out] with the payload of [enc] attached in front of its
    content, for a FIN or PUSH with a payload of positive length; [out]
    itself otherwise. *)
Definition payload_attached (mi : mem) (enc : EncState) (out : Buffer)
    : Buffer :=
  match payLoad enc with
  | Some pl =>
      if is_fin_or_push (enc_type enc) && (0 <? payLen enc) then
        {| buf_mem :=
             memcpy (buf_mem out) (base out - payLen enc) mi pl (payLen enc);
           base := base out - payLen enc;
           buf_end := buf_end out + payLen enc;
           buf_size := buf_size out |}
      else out
  | None => out
  end.

(** The memories [m1] and [m2] hold the same byte at every address that
    satisfies [P]. *)
Definition agree_where (P : ptr -> Prop) (m1 m2 : mem) : Prop :=
  forall b, P b -> load8 m1 b = load8 m2 b.

(** The checksum routine of [env] looks at the bytes of the memory and at
    nothing else of it: on two memories that hold the same bytes it gives
    the same checksum. *)
Definition cksum_reads_bytes (env : Env) : Prop :=
  forall (m1 m2 : mem) (h : ptr) (len : Z) (ps : pseudo),
    (forall b, load8 m1 b = load8 m2 b) ->
    tcp_cksum env m1 h len ps = tcp_cksum env m2 h len ps.

(** The SYN of S1 with a stale checksum field. *)
Definition seg_syn_stale : mem := mem_of_bytes (syn_segment 0x12 0x34).

(** The memory of [sample_buffer] with other bytes where a response header
    of 20 bytes goes. *)
Definition dirty_window : mem :=
  fun b => if (80 <=? b) && (b <? 100) then 0x55 else 0xaa.

(** A memory with the SYN of S1 at address 0, the header of the original
    packet, and again at address 100, the header of its copy. *)
Definition two_headers : mem :=
  fun b => if b <? 100 then seg_syn b else seg_syn (b - 100).

(* ===================================================================== *)
(** * Part II: properties *)
(* ===================================================================== *)

Lemma load8_range (m : mem) (a : ptr) : 0 <= load8 m a < 256.
Proof. unfold load8. apply Z.mod_pos_bound. lia. Qed.

(** A property of bytes that holds of the 256 of them, checked by
    evaluation. *)
Lemma byte_cases (P : Z -> bool) :
  forallb P (map Z.of_nat (seq 0 256)) = true ->
  forall x, 0 <= x < 256 -> P x = true.
Proof.
  intros H x Hx.
  rewrite forallb_forall in H. apply H.
  apply in_map_iff. exists (Z.to_nat x). split; [lia|].
  apply in_seq. lia.
Qed.

Lemma hdr_len_byte (b : Z) :
  0 <= b < 256 ->
  Z.shiftr (Z.land b 0xf0) 2 = Z.shiftr (Z.land b 0xf0) 4 * 4
  /\ 0 <= Z.shiftr (Z.land b 0xf0) 4 <= 15.
Proof.
  intros Hb.
  pose proof (byte_cases
    (fun b => (Z.shiftr (Z.land b 0xf0) 2 =? Z.shiftr (Z.land b 0xf0) 4 * 4)
              && (0 <=? Z.shiftr (Z.land b 0xf0) 4)
              && (Z.shiftr (Z.land b 0xf0) 4 <=? 15))
    eq_refl b Hb) as H.
  simpl in H. lia.
Qed.

Lemma hdr_len_offset (m : mem) (h : ptr) :
  hdr_len m h = TCP_OFFSET m h * 4 /\ 0 <= TCP_OFFSET m h <= 15.
Proof. apply hdr_len_byte, load8_range. Qed.

Lemma hdr_len_range (m : mem) (h : ptr) : 0 <= hdr_len m h <= 60.
Proof. pose proof (hdr_len_offset m h). lia. Qed.

(** ** The option validator *)

(** C3 (as amended).  With a non-null length pointer, a fixed expected
    length of at least 2, a length byte equal to it and the option fitting
    before [end], the validator returns 0 with [byte_skip] the length byte,
    the payload length the length byte less 2 and the payload pointer two
    bytes past the option's start, absent exactly when the length byte is
    2.  With a null length pointer it returns [OPT_TRUNC].  With a non-null
    length pointer and an expected length of 0 or 1 it returns
    [OPT_BADLEN].  For a variable-length option with a non-null length
    pointer it returns [OPT_BADLEN] when the length byte is below 2, and
    [OPT_TRUNC] when the length byte is at least 2 and the option runs past
    [end]. *)
Theorem OptLenValidate_spec (m : mem) (option_ptr end_ : ptr)
    (expected_len : Z) (tcpopt : Options) :
  (forall lp,
     2 <= expected_len -> load8 m lp = expected_len ->
     option_ptr + expected_len <= end_ ->
     exists o,
       OptLenValidate m option_ptr end_ (Some lp) expected_len tcpopt
       = (0, o, load8 m lp)
       /\ opt_len o = load8 m lp - 2
       /\ opt_code o = opt_code tcpopt
       /\ (load8 m lp = 2 -> opt_data o = None)
       /\ (load8 m lp <> 2 -> opt_data o = Some (option_ptr + 2)))
  /\ OptLenValidate m option_ptr end_ None expected_len tcpopt
     = (OPT_TRUNC, tcpopt, 0)
  /\ (forall lp,
        expected_len = 0 \/ expected_len = 1 ->
        OptLenValidate m option_ptr end_ (Some lp) expected_len tcpopt
        = (OPT_BADLEN, tcpopt, 0))
  /\ (forall lp,
        expected_len < 0 -> load8 m lp < 2 ->
        OptLenValidate m option_ptr end_ (Some lp) expected_len tcpopt
        = (OPT_BADLEN, tcpopt, 0))
  /\ (forall lp,
        expected_len < 0 -> 2 <= load8 m lp ->
        end_ < option_ptr + load8 m lp ->
        OptLenValidate m option_ptr end_ (Some lp) expected_len tcpopt
        = (OPT_TRUNC, tcpopt, 0)).
Proof.
  repeat split; try intros lp.
  - intros He Hl Hfit.
    pose proof (load8_range m lp) as Hr.
    unfold OptLenValidate.
    destruct (load8 m lp =? 0) eqn:E0; [lia|].
    destruct (expected_len =? 0) eqn:E1; [lia|].
    destruct (expected_len =? 1) eqn:E2; [lia|].
    destruct (1 <? expected_len) eqn:E3; [|lia].
    destruct (end_ <? option_ptr + expected_len) eqn:E4; [lia|].
    destruct (load8 m lp =? expected_len) eqn:E5; [|lia].
    cbn [orb negb].
    eexists. split; [reflexivity|]. cbn [opt_len opt_code opt_data].
    repeat split.
    + apply Z.mod_small. lia.
    + intros ->. reflexivity.
    + intros Hne. destruct (load8 m lp =? 2) eqn:E6; [lia|reflexivity].
  - intros [-> | ->]; unfold OptLenValidate;
      destruct (load8 m lp =? 0); reflexivity.
  - intros He Hl. pose proof (load8_range m lp) as Hr.
    unfold OptLenValidate.
    destruct (load8 m lp =? 0) eqn:E0; [reflexivity|].
    destruct (expected_len =? 0) eqn:E1; [lia|].
    destruct (expected_len =? 1) eqn:E2; [lia|].
    destruct (1 <? expected_len) eqn:E3; [lia|].
    destruct (load8 m lp <? 2) eqn:E4; [reflexivity|lia].
  - intros He Hl Hend.
    unfold OptLenValidate.
    destruct (load8 m lp =? 0) eqn:E0; [lia|].
    destruct (expected_len =? 0) eqn:E1; [lia|].
    destruct (expected_len =? 1) eqn:E2; [lia|].
    destruct (1 <? expected_len) eqn:E3; [lia|].
    destruct (load8 m lp <? 2) eqn:E4; [lia|].
    destruct (end_ <? option_ptr + load8 m lp) eqn:E5; [reflexivity|lia].
Qed.

(** The validator on a window scale option that lies before [end]; on a
    variable-length option whose length byte is 1; and on one that runs
    past [end]. *)
Lemma OptLenValidate_spec_witness :
  (exists o,
     OptLenValidate wscale_option 0 4 (Some 1) 3 no_option = (0, o, 3)
     /\ opt_len o = 1 /\ opt_data o = Some 2)
  /\ OptLenValidate (mem_of_bytes [30; 1]) 0 2 (Some 1) (-1) no_option
     = (OPT_BADLEN, no_option, 0)
  /\ OptLenValidate (mem_of_bytes [30; 9]) 0 2 (Some 1) (-1) no_option
     = (OPT_TRUNC, no_option, 0).
Proof.
  split; [|split].
  - destruct (OptLenValidate_spec wscale_option 0 4 3 no_option)
      as (H & _).
    destruct (H 1) as (o & Ho & Hl & _ & _ & Hd);
      [lia | reflexivity | lia |].
    exists o. split; [exact Ho|]. split; [exact Hl|].
    apply Hd. vm_compute. discriminate.
  - destruct (OptLenValidate_spec (mem_of_bytes [30; 1]) 0 2 (-1) no_option)
      as (_ & _ & _ & H & _).
    apply H; [lia | vm_compute; reflexivity].
  - destruct (OptLenValidate_spec (mem_of_bytes [30; 9]) 0 2 (-1) no_option)
      as (_ & _ & _ & _ & H).
    apply H; [lia | vm_compute; discriminate | vm_compute; reflexivity].
Defined.

(** With a null length pointer the validator answers [OPT_TRUNC] also when
    the expected length is 0, so it does not always answer [OPT_BADLEN]
    for an expected length of 0 or 1; and for a variable-length option
    whose length byte is 1 it answers [OPT_BADLEN] also when the option
    runs past [end], so it does not answer [OPT_TRUNC] whenever
    [option_ptr + *len_ptr] exceeds [end]. *)
Lemma OptLenValidate_order_of_checks :
  ~ (forall len_ptr,
       OptLenValidate wscale_option 0 4 len_ptr 0 no_option
       = (OPT_BADLEN, no_option, 0))
  /\ 0 < 0 + load8 (mem_of_bytes [30; 1]) 1
  /\ OptLenValidate (mem_of_bytes [30; 1]) 0 0 (Some 1) (-1) no_option
     <> (OPT_TRUNC, no_option, 0).
Proof.
  split; [|split].
  - intros H. specialize (H None). vm_compute in H. discriminate.
  - vm_compute. reflexivity.
  - vm_compute. discriminate.
Qed.

(** ** The bounds checks of [decode] *)

Lemma TCP_OFFSET_hdr_len (m : mem) (h : ptr) :
  TCP_OFFSET m h * 4 = hdr_len m h.
Proof. symmetry. apply hdr_len_offset. Qed.

(** C1 (as amended).  With [raw_len < 20], [decode] raises
    DGRAM_LT_TCPHDR, clears the header reference and fails.  With
    [raw_len >= 20] and a data offset field with [data_offset * 4 < 20], it
    raises INVALID_OFFSET, clears the reference and fails.  With
    [raw_len >= 20] and [data_offset * 4 > raw_len], it raises
    LARGE_OFFSET, clears the reference and fails. *)
Theorem decode_header_checks (env : Env) (m : mem) (raw_pkt : ptr)
    (raw_len : Z) (w : World) :
  (raw_len < 20 ->
   decode_fails_with env m raw_pkt raw_len w DECODE_TCP_DGRAM_LT_TCPHDR)
  /\ (20 <= raw_len -> TCP_OFFSET m raw_pkt * 4 < 20 ->
      decode_fails_with env m raw_pkt raw_len w DECODE_TCP_INVALID_OFFSET)
  /\ (20 <= raw_len -> raw_len < TCP_OFFSET m raw_pkt * 4 ->
      decode_fails_with env m raw_pkt raw_len w DECODE_TCP_LARGE_OFFSET).
Proof.
  rewrite TCP_OFFSET_hdr_len.
  unfold decode_fails_with, decode, TCP_HEADER_LEN.
  split; [|split].
  - intros H. destruct (raw_len <? 20) eqn:E; [|lia].
    do 3 eexists. split; [reflexivity|].
    split; [reflexivity|]. split.
    + cbn [trace set_tcph decoder_event]. rewrite <- app_assoc. reflexivity.
    + reflexivity.
  - intros H1 H2. destruct (raw_len <? 20) eqn:E; [lia|].
    destruct (hdr_len m raw_pkt <? 20) eqn:E1; [|lia].
    do 3 eexists. split; [reflexivity|].
    split; [reflexivity|]. split.
    + cbn [trace set_tcph decoder_event]. rewrite <- !app_assoc. reflexivity.
    + reflexivity.
  - intros H1 H2. destruct (raw_len <? 20) eqn:E; [lia|].
    destruct (hdr_len m raw_pkt <? 20) eqn:E1; [lia|].
    destruct (raw_len <? hdr_len m raw_pkt) eqn:E2; [|lia].
    do 3 eexists. split; [reflexivity|].
    split; [reflexivity|]. split.
    + cbn [trace set_tcph decoder_event]. rewrite <- !app_assoc. reflexivity.
    + reflexivity.
Qed.

(** The three checks on a 16-byte fragment, on the segment of S1 with its
    data offset too small, and on the same segment announced as 20 bytes
    with a data offset of 6. *)
Lemma decode_header_checks_witness :
  decode_fails_with env_passive short_segment 0 16 (sample_world 1 0)
    DECODE_TCP_DGRAM_LT_TCPHDR
  /\ decode_fails_with env_passive short_segment 0 20 (sample_world 1 0)
       DECODE_TCP_INVALID_OFFSET
  /\ decode_fails_with env_passive
       (mem_of_bytes [0x9c; 0x40; 0; 0x50; 0; 0; 0; 1; 0; 0; 0; 0; 0x60; 2])
       0 20 (sample_world 1 0) DECODE_TCP_LARGE_OFFSET.
Proof.
  split; [|split].
  - apply (decode_header_checks env_passive short_segment 0 16). lia.
  - apply (decode_header_checks env_passive short_segment 0 20);
      [lia | vm_compute; reflexivity].
  - apply (decode_header_checks env_passive
             (mem_of_bytes [0x9c; 0x40; 0; 0x50; 0; 0; 0; 1; 0; 0; 0; 0; 0x60; 2])
             0 20);
      [lia | vm_compute; reflexivity].
Defined.

(** A 16-byte fragment whose data offset field is 4, so that
    [data_offset * 4 = 16 < 20], is rejected for its length: the event is
    DGRAM_LT_TCPHDR and not INVALID_OFFSET.  Its data offset also exceeds
    no [raw_len] below 16, and a fragment with [data_offset * 4 > raw_len]
    is likewise rejected for its length and not with LARGE_OFFSET. *)
Lemma decode_short_fragment_offset :
  TCP_OFFSET short_segment 0 * 4 < 20
  /\ ~ decode_fails_with env_passive short_segment 0 16 (sample_world 1 0)
         DECODE_TCP_INVALID_OFFSET
  /\ TCP_OFFSET short_segment 0 * 4 > 13
  /\ ~ decode_fails_with env_passive short_segment 0 13 (sample_world 1 0)
         DECODE_TCP_LARGE_OFFSET.
Proof.
  split; [vm_compute; reflexivity|].
  split; [|split; [vm_compute; reflexivity|]].
  - intros (lyr & w' & new & Hd & _ & Ht & He).
    vm_compute in Hd. injection Hd as <- <-.
    cbn in Ht. subst new. discriminate He.
  - intros (lyr & w' & new & Hd & _ & Ht & He).
    vm_compute in Hd. injection Hd as <- <-.
    cbn in Ht. subst new. discriminate He.
Qed.

(** ** The order of raising an event and clearing the reference *)

Lemma before_nil (a b : Action) : ~ before a b [].
Proof. intros (t1 & t2 & t3 & H). destruct t1; discriminate H. Qed.

Lemma before_cons (a b x : Action) (t : list Action) :
  before a b (x :: t) <-> (x = a /\ In b t) \/ before a b t.
Proof.
  split.
  - intros (t1 & t2 & t3 & H). destruct t1 as [|y t1].
    + injection H as -> ->. left. split; [reflexivity|].
      apply in_or_app. right. left. reflexivity.
    + injection H as -> ->. right. exists t1, t2, t3. reflexivity.
  - intros [[-> Hin] | (t1 & t2 & t3 & ->)].
    + apply in_split in Hin as (t2 & t3 & ->). exists [], t2, t3. reflexivity.
    + exists (x :: t1), t2, t3. reflexivity.
Qed.

Lemma decode_checksum_stage (env : Env) (m : mem) (raw_pkt : ptr)
    (raw_len : Z) (w : World) :
  20 <= raw_len -> 20 <= hdr_len m raw_pkt <= raw_len ->
  decode env m raw_pkt raw_len w
  = let* r := decode_checksum env m raw_len (set_tcph w (Some raw_pkt)) in
    match r with
    | Return w => Ok (false, Some (hdr_len m raw_pkt), w)
    | Next w =>
        let* w := decode_rest env m raw_pkt raw_len (hdr_len m raw_pkt) w in
        Ok (true, Some (hdr_len m raw_pkt), w)
    end.
Proof.
  intros H1 H2. unfold decode, TCP_HEADER_LEN.
  destruct (raw_len <? 20) eqn:E; [lia|].
  destruct (hdr_len m raw_pkt <? 20) eqn:E1; [lia|].
  destruct (raw_len <? hdr_len m raw_pkt) eqn:E2; [lia|].
  reflexivity.
Qed.

(** C8 (as amended).  On the three decode-fatal paths that raise an event
    (header shorter than 20 bytes, invalid data offset, offset larger than
    [raw_len]) the event is raised first and the header reference is
    cleared after it; on the fourth (checksum mismatch under unsure_encap)
    the reference is cleared and no event is raised. *)
Theorem decode_fatal_paths_order (env : Env) (m : mem) (raw_pkt : ptr)
    (raw_len : Z) (w : World) :
  (raw_len < 20 ->
   decode_appends env m raw_pkt raw_len w false
     [Event DECODE_TCP_DGRAM_LT_TCPHDR; TcphStore None])
  /\ (20 <= raw_len -> hdr_len m raw_pkt < 20 ->
      decode_appends env m raw_pkt raw_len w false
        [TcphStore (Some raw_pkt); Event DECODE_TCP_INVALID_OFFSET;
         TcphStore None])
  /\ (20 <= raw_len -> raw_len < hdr_len m raw_pkt ->
      decode_appends env m raw_pkt raw_len w false
        [TcphStore (Some raw_pkt); Event DECODE_TCP_LARGE_OFFSET;
         TcphStore None])
  /\ (20 <= raw_len -> 20 <= hdr_len m raw_pkt <= raw_len ->
      ScTcpChecksums env = true ->
      decode_csum env m raw_pkt raw_len (ip_api (pkt w)) <> 0 ->
      unsure_encap env (pkt w) = true ->
      decode_appends env m raw_pkt raw_len w false
        [TcphStore (Some raw_pkt); TcphStore None]).
Proof.
  unfold decode_appends.
  split; [|split; [|split]].
  - intros H. unfold decode, TCP_HEADER_LEN.
    destruct (raw_len <? 20) eqn:E; [|lia].
    do 2 eexists. split; [reflexivity|].
    cbn [trace set_tcph decoder_event]. rewrite <- app_assoc. reflexivity.
  - intros H1 H2. unfold decode, TCP_HEADER_LEN.
    destruct (raw_len <? 20) eqn:E; [lia|].
    destruct (hdr_len m raw_pkt <? 20) eqn:E1; [|lia].
    do 2 eexists. split; [reflexivity|].
    cbn [trace set_tcph decoder_event]. rewrite <- !app_assoc. reflexivity.
  - intros H1 H2. unfold decode, TCP_HEADER_LEN.
    destruct (raw_len <? 20) eqn:E; [lia|].
    destruct (hdr_len m raw_pkt <? 20) eqn:E1;
      [pose proof (hdr_len_range m raw_pkt); lia|].
    destruct (raw_len <? hdr_len m raw_pkt) eqn:E2; [|lia].
    do 2 eexists. split; [reflexivity|].
    cbn [trace set_tcph decoder_event]. rewrite <- !app_assoc. reflexivity.
  - intros H1 H2 Hsc Hcs Hun.
    rewrite decode_checksum_stage by assumption.
    unfold decode_checksum. rewrite Hsc.
    unfold unsure_encap in *.
    cbn [deref_tcph set_tcph pkt tcph bind ip_api decode_flags].
    destruct (decode_csum env m raw_pkt raw_len (ip_api (pkt w)) =? 0) eqn:E;
      [lia|].
    cbn [negb]. rewrite Hun.
    do 2 eexists. split; [reflexivity|].
    cbn [trace set_tcph]. rewrite <- !app_assoc. reflexivity.
Qed.

(** The four paths on concrete segments: a 16-byte fragment; a data offset
    of 4; a data offset of 6 in 20 bytes; the SYN of S1 with a corrupted
    checksum in a packet flagged unsure_encap. *)
Lemma decode_fatal_paths_order_witness :
  decode_appends env_passive short_segment 0 16 (sample_world 1 0) false
    [Event DECODE_TCP_DGRAM_LT_TCPHDR; TcphStore None]
  /\ decode_appends env_passive short_segment 0 20 (sample_world 1 0) false
       [TcphStore (Some 0); Event DECODE_TCP_INVALID_OFFSET; TcphStore None]
  /\ decode_appends env_passive
       (mem_of_bytes [0x9c; 0x40; 0; 0x50; 0; 0; 0; 1; 0; 0; 0; 0; 0x60; 2])
       0 20 (sample_world 1 0) false
       [TcphStore (Some 0); Event DECODE_TCP_LARGE_OFFSET; TcphStore None]
  /\ decode_appends env_passive seg_syn_badsum 0 20 (sample_world 1 8) false
       [TcphStore (Some 0); TcphStore None].
Proof.
  split; [|split; [|split]].
  - apply (decode_fatal_paths_order env_passive short_segment 0 16). lia.
  - apply (decode_fatal_paths_order env_passive short_segment 0 20);
      [lia | vm_compute; reflexivity].
  - apply (decode_fatal_paths_order env_passive
             (mem_of_bytes [0x9c; 0x40; 0; 0x50; 0; 0; 0; 1; 0; 0; 0; 0; 0x60; 2])
             0 20);
      [lia | vm_compute; reflexivity].
  - apply (decode_fatal_paths_order env_passive seg_syn_badsum 0 20);
      [lia | vm_compute; split; discriminate | reflexivity
       | vm_compute; discriminate | reflexivity].
Defined.

(** On a 16-byte fragment the event is in the trace before the store that
    clears the header reference, and no clearing store precedes it. *)
Lemma decode_event_precedes_clearing :
  exists w',
    decode env_passive short_segment 0 16 (sample_world 1 0)
    = Ok (false, None, w')
    /\ before (Event DECODE_TCP_DGRAM_LT_TCPHDR) (TcphStore None) (trace w')
    /\ ~ before (TcphStore None) (Event DECODE_TCP_DGRAM_LT_TCPHDR) (trace w').
Proof.
  eexists. split; [vm_compute; reflexivity|].
  cbn [trace]. split.
  - exists [], [], []. reflexivity.
  - rewrite !before_cons. intros [[H _] | [[_ []] | H]].
    + discriminate H.
    + exact (before_nil _ _ H).
Qed.

(** ** Loops *)

Section WhileFacts.
Context {S R : Type}.
Variable cond : S -> bool.
Variable body : S -> res (step S R).

(** A state found in [iterations] satisfies the condition, and the loop
    run from the start is the loop run from that state with the fuel that
    is left. *)
Lemma iterations_lookup (fuel : nat) :
  forall (s : S) (k : nat) (sk : S),
    iterations cond body fuel s !! k = Some sk ->
    cond sk = true /\ (k < fuel)%nat
    /\ while cond body fuel s = while cond body (fuel - k) sk.
Proof.
  induction fuel as [|n IH]; intros s k sk; cbn [iterations].
  - destruct (cond s); discriminate.
  - destruct (cond s) eqn:C; [|discriminate].
    destruct k as [|k]; cbn [lookup list_lookup].
    + intros [= <-]. split; [exact C|]. split; [lia|].
      rewrite Nat.sub_0_r. reflexivity.
    + destruct (body s) as [[s'|r]|f] eqn:B; try discriminate.
      intros H. apply IH in H as (H1 & H2 & H3).
      split; [exact H1|]. split; [lia|].
      replace (Datatypes.S n - Datatypes.S k)%nat with (n - k)%nat by lia.
      rewrite <- H3. cbn [while]. rewrite C, B. reflexivity.
Qed.

(** An invariant of the loop body, indexed by the number of turns made,
    holds of every state in [iterations]. *)
Lemma iterations_invariant (I : nat -> S -> Prop) :
  (forall k s s', I k s -> cond s = true -> body s = Ok (Next s') ->
                  I (Datatypes.S k) s') ->
  forall (fuel : nat) (k0 : nat) (s : S) (k : nat) (sk : S),
    I k0 s -> iterations cond body fuel s !! k = Some sk ->
    I (k0 + k)%nat sk.
Proof.
  intros Hstep. induction fuel as [|n IH]; intros k0 s k sk HI;
    cbn [iterations].
  - destruct (cond s); discriminate.
  - destruct (cond s) eqn:C; [|discriminate].
    destruct k as [|k]; cbn [lookup list_lookup].
    + intros [= <-]. rewrite Nat.add_0_r. exact HI.
    + destruct (body s) as [[s'|r]|f] eqn:B; try discriminate.
      intros H. replace (k0 + Datatypes.S k)%nat with (Datatypes.S k0 + k)%nat by lia.
      eapply IH; [|exact H]. eapply Hstep; eauto.
Qed.
End WhileFacts.

(** ** The option walker *)

Section WalkerFacts.
Variable env : Env.
Variable m : mem.
Variable end_ptr : ptr.

Lemma get_put_option (w : World) (i : Z) (o : Options) :
  (Z.to_nat i < length (tcp_options (pkt w)))%nat ->
  get_option (put_option w i o) i = o.
Proof.
  intros H. unfold get_option, put_option. cbn.
  rewrite list_lookup_insert_eq by exact H. reflexivity.
Qed.

(** The validator called on the record at [opt_count]. *)
Lemma validate_post (len_ptr : option ptr) (e skip : Z) (s : Walk)
    (w : World) :
  (Z.to_nat (opt_count s) < length (tcp_options (pkt w)))%nat ->
  (forall lp, len_ptr = Some lp -> skip = load8 m lp) ->
  forall s' w', validate m end_ptr len_ptr e s w = (s', w') ->
  option_post skip s w s' w'
  /\ trace w' = trace w
  /\ (code s' = 0 ->
      exists lp,
        len_ptr = Some lp
        /\ opt_data (get_option w' (opt_count s))
           = (if load8 m lp =? 2 then None else Some (option_ptr s + 2))
        /\ (1 < e -> load8 m lp = e)).
Proof.
  intros Hlen Hskip s' w'. unfold validate, OptLenValidate.
  set (o := get_option w (opt_count s)).
  assert (Hframe : forall c o' k,
            c = 0 /\ k = skip \/ c = OPT_BADLEN \/ c = OPT_TRUNC ->
            option_post skip s w
              (set_code (set_byte_skip s k) c) (put_option w (opt_count s) o')
            /\ trace (put_option w (opt_count s) o') = trace w).
  { intros c o' k Hc. unfold option_post. cbn.
    repeat split; try reflexivity.
    - apply length_insert.
    - intros i Hi. apply list_lookup_insert_ne. congruence.
    - destruct Hc as [[-> ->] | Hc]; [left | right]; auto. }
  assert (Hbad : forall c o' k,
            c = OPT_BADLEN \/ c = OPT_TRUNC ->
            option_post skip s w
              (set_code (set_byte_skip s k) c) (put_option w (opt_count s) o')
            /\ trace (put_option w (opt_count s) o') = trace w
            /\ (code (set_code (set_byte_skip s k) c) = 0 -> 
                exists lp,
                  len_ptr = Some lp
                  /\ opt_data (get_option (put_option w (opt_count s) o')
                                 (opt_count s))
                     = (if load8 m lp =? 2 then None
                        else Some (option_ptr s + 2))
                  /\ (1 < e -> load8 m lp = e))).
  { intros c o' k Hc. destruct (Hframe c o' k) as [H1 H2]; [auto|].
    split; [exact H1|]. split; [exact H2|].
    cbn. unfold OPT_BADLEN, OPT_TRUNC in Hc. lia. }
  destruct len_ptr as [lp|].
  2:{ intros [= <- <-]. apply Hbad. auto. }
  specialize (Hskip lp eq_refl).
  destruct (load8 m lp =? 0) eqn:E0; cbn [orb].
  { intros [= <- <-]. apply Hbad. auto. }
  destruct (e =? 0) eqn:E1; cbn [orb].
  { intros [= <- <-]. apply Hbad. auto. }
  destruct (e =? 1) eqn:E2; cbn [orb].
  { intros [= <- <-]. apply Hbad. auto. }
  destruct (1 <? e) eqn:E3.
  - destruct (end_ptr <? option_ptr s + e) eqn:E4.
    { intros [= <- <-]. apply Hbad. auto. }
    destruct (load8 m lp =? e) eqn:E5; cbn [negb].
    + intros [= <- <-].
      destruct (Hframe 0 {| opt_code := opt_code o;
                            opt_len := (load8 m lp - 2) mod 256;
                            opt_data := if load8 m lp =? 2 then None
                                        else Some (option_ptr s + 2) |}
                  (load8 m lp)) as [H1 H2]; [auto|].
      split; [exact H1|]. split; [exact H2|].
      intros _. exists lp. rewrite get_put_option by exact Hlen. cbn.
      repeat split. lia.
    + intros [= <- <-]. apply Hbad. auto.
  - destruct (load8 m lp <? 2) eqn:E4.
    { intros [= <- <-]. apply Hbad. auto. }
    destruct (end_ptr <? option_ptr s + load8 m lp) eqn:E5.
    { intros [= <- <-]. apply Hbad. auto. }
    intros [= <- <-].
    destruct (Hframe 0 {| opt_code := opt_code o;
                          opt_len := (load8 m lp - 2) mod 256;
                          opt_data := if load8 m lp =? 2 then None
                                      else Some (option_ptr s + 2) |}
                (load8 m lp)) as [H1 H2]; [auto|].
    split; [exact H1|]. split; [exact H2|].
    intros _. exists lp. rewrite get_put_option by exact Hlen. cbn.
    repeat split. lia.
Qed.

Lemma option_post_flags (skip : Z) (s0 s : Walk) (w : World)
    (s' : Walk) (w' : World) :
  option_ptr s0 = option_ptr s -> opt_count s0 = opt_count s ->
  option_post skip s0 w s' w' -> option_post skip s w s' w'.
Proof. unfold option_post. intros -> ->. exact (fun H => H). Qed.

Lemma validate_ok (len_ptr : option ptr) (e : Z) (s0 s : Walk) (w : World) :
  (Z.to_nat (opt_count s) < length (tcp_options (pkt w)))%nat ->
  len_ptr_of s len_ptr ->
  option_ptr s0 = option_ptr s -> opt_count s0 = opt_count s ->
  exists s' w',
    Ok (validate m end_ptr len_ptr e s0 w) = Ok (s', w')
    /\ option_post (load8 m (option_ptr s + 1)) s w s' w'.
Proof.
  intros Hlen Hlp Hp Hc.
  destruct (validate m end_ptr len_ptr e s0 w) as [s' w'] eqn:V.
  exists s', w'. split; [reflexivity|].
  apply (option_post_flags _ s0); [exact Hp | exact Hc |].
  eapply validate_post; [rewrite Hc; exact Hlen | | exact V].
  intros lp ->. destruct Hlp as [Hlp | [= <-]]; [discriminate | reflexivity].
Qed.

Lemma nop_ok (s0 s : Walk) (w : World) :
  option_ptr s0 = option_ptr s -> opt_count s0 = opt_count s ->
  exists s' w',
    Ok (nop_case s0 w) = Ok (s', w') /\ option_post 1 s w s' w'.
Proof.
  intros Hp Hc. do 2 eexists. split; [reflexivity|].
  apply (option_post_flags _ s0); [exact Hp | exact Hc |].
  unfold option_post. cbn. repeat split; try reflexivity.
  - apply length_insert.
  - intros i Hi. apply list_lookup_insert_ne. congruence.
  - left. auto.
Qed.

Lemma wscale_ok (len_ptr : option ptr) (s : Walk) (w : World) :
  (Z.to_nat (opt_count s) < length (tcp_options (pkt w)))%nat ->
  len_ptr_of s len_ptr ->
  exists s' w',
    (let '(s, w) := validate m end_ptr len_ptr TCPOLEN_WSCALE s w in
     if code s =? 0 then
       match opt_data (get_option w (opt_count s)) with
       | Some d =>
           if 14 <? load8 m d
           then Ok (s, decoder_event w DECODE_TCPOPT_WSCALE_INVALID)
           else Ok (s, w)
       | None => Fault NullDeref
       end
     else Ok (s, w)) = Ok (s', w')
    /\ option_post (load8 m (option_ptr s + 1)) s w s' w'.
Proof.
  intros Hlen Hlp.
  destruct (validate m end_ptr len_ptr TCPOLEN_WSCALE s w) as [s1 w1] eqn:V.
  eapply (validate_post _ _ (load8 m (option_ptr s + 1))) in V as (Hpost & Htr & Hz);
    [ | exact Hlen
      | intros lp ->; destruct Hlp as [Hlp | [= <-]];
        [discriminate | reflexivity] ].
  destruct (code s1 =? 0) eqn:E.
  2:{ exists s1, w1. split; [reflexivity | exact Hpost]. }
  destruct Hz as (lp & _ & Hd & Hl); [lia|].
  assert (Hc1 : opt_count s1 = opt_count s) by apply Hpost.
  rewrite Hc1, Hd. rewrite Hl by (unfold TCPOLEN_WSCALE; lia).
  cbn.
  destruct (14 <? load8 m (option_ptr s + 2)).
  - do 2 eexists. split; [reflexivity|].
    unfold option_post in *. cbn.
    destruct Hpost as (H1 & H2 & H3 & H4 & H5 & H6 & H7 & H8).
    repeat split; try assumption.
    left. destruct H8 as [(Ha & Hb & _) | [[Ha | Ha] _]];
      [ | unfold OPT_BADLEN in Ha; lia | unfold OPT_TRUNC in Ha; lia].
    repeat split; try assumption. right. rewrite Htr. reflexivity.
  - exists s1, w1. split; [reflexivity | exact Hpost].
Qed.

Lemma auth_ok (len_ptr : option ptr) (s : Walk) (w : World) :
  (Z.to_nat (opt_count s) < length (tcp_options (pkt w)))%nat ->
  len_ptr_of s len_ptr ->
  exists s' w',
    (if match len_ptr with
        | Some lp => load8 m lp <? 4
        | None => false
        end
     then Ok (set_code s OPT_BADLEN, w)
     else Ok (validate m end_ptr len_ptr (-1) s w)) = Ok (s', w')
    /\ option_post (load8 m (option_ptr s + 1)) s w s' w'.
Proof.
  intros Hlen Hlp.
  destruct (match len_ptr with Some lp => load8 m lp <? 4 | None => false end).
  - do 2 eexists. split; [reflexivity|].
    unfold option_post. cbn. repeat split; auto.
  - apply validate_ok; auto.
Qed.

Lemma sack_ok (len_ptr : option ptr) (s : Walk) (w : World) :
  (Z.to_nat (opt_count s) < length (tcp_options (pkt w)))%nat ->
  len_ptr_of s len_ptr ->
  exists s' w',
    (let '(s, w) := validate m end_ptr len_ptr (-1) s w in
     if (code s =? 0)
        && is_null (opt_data (get_option w (opt_count s)))
     then Ok (set_code s OPT_BADLEN, w)
     else Ok (s, w)) = Ok (s', w')
    /\ option_post (load8 m (option_ptr s + 1)) s w s' w'.
Proof.
  intros Hlen Hlp.
  destruct (validate m end_ptr len_ptr (-1) s w) as [s1 w1] eqn:V.
  eapply (validate_post _ _ (load8 m (option_ptr s + 1))) in V as (Hpost & Htr & _);
    [ | exact Hlen
      | intros lp ->; destruct Hlp as [Hlp | [= <-]];
        [discriminate | reflexivity] ].
  destruct ((code s1 =? 0)
            && is_null (opt_data (get_option w1 (opt_count s1)))) eqn:E.
  - do 2 eexists. split; [reflexivity|].
    unfold option_post in *. cbn.
    destruct Hpost as (H1 & H2 & H3 & H4 & H5 & H6 & H7 & H8).
    repeat split; try assumption.
    right. split; [left; reflexivity | exact Htr].
  - exists s1, w1. split; [reflexivity | exact Hpost].
Qed.

(** The [switch] never faults and changes the world as [option_post]
    says. *)
Lemma switch_post (len_ptr : option ptr) (s : Walk) (w : World) :
  (Z.to_nat (opt_count s) < length (tcp_options (pkt w)))%nat ->
  len_ptr_of s len_ptr ->
  exists s' w',
    DecodeTCPOptions_switch env m end_ptr len_ptr s w = Ok (s', w')
    /\ option_post (option_skip m (option_ptr s)) s w s' w'.
Proof.
  intros Hlen Hlp. unfold DecodeTCPOptions_switch, option_skip.
  destruct (load8 m (option_ptr s)) as [|k|k];
    [ apply nop_ok; reflexivity | | apply validate_ok; auto ].
  do 5 (try destruct k as [k|k|]);
    cbn [Z.eqb Pos.eqb orb];
    first [ apply nop_ok; reflexivity
          | apply validate_ok; solve [auto]
          | apply wscale_ok; solve [auto]
          | apply auth_ok; solve [auto]
          | apply sack_ok; solve [auto] ].
Qed.
End WalkerFacts.

(** ** Frames *)

Lemma frame_refl (P : DecodeEvent -> Prop) (w : World) : frame P w w.
Proof.
  unfold frame. repeat split. exists []. split; [|constructor].
  cbn. rewrite app_nil_r. reflexivity.
Qed.

Lemma frame_trans (P : DecodeEvent -> Prop) (w1 w2 w3 : World) :
  frame P w1 w2 -> frame P w2 w3 -> frame P w1 w3.
Proof.
  unfold frame.
  intros (A1 & A2 & A3 & A4 & e1 & A5 & A6) (B1 & B2 & B3 & B4 & e2 & B5 & B6).
  repeat split; try congruence.
  exists (e1 ++ e2). split.
  - rewrite B5, A5, map_app, app_assoc. reflexivity.
  - apply Forall_app. auto.
Qed.

Lemma frame_weaken (P Q : DecodeEvent -> Prop) (w w' : World) :
  (forall e, P e -> Q e) -> frame P w w' -> frame Q w w'.
Proof.
  unfold frame. intros H (A1 & A2 & A3 & A4 & e1 & A5 & A6).
  repeat split; try assumption.
  exists e1. split; [exact A5|]. eapply Forall_impl; eauto.
Qed.

Lemma frame_event (P : DecodeEvent -> Prop) (w : World) (e : DecodeEvent) :
  P e -> frame P w (decoder_event w e).
Proof.
  intros H. unfold frame. cbn. repeat split.
  exists [e]. split; [reflexivity|]. constructor; [exact H | constructor].
Qed.

Lemma frame_event_if (P : DecodeEvent -> Prop) (w : World) (e : DecodeEvent)
    (b : bool) :
  P e -> frame P w (if b then decoder_event w e else w).
Proof. intros H. destruct b; [apply frame_event, H | apply frame_refl]. Qed.

(** A frame from a trace that grew by nothing or by one event. *)
Lemma frame_of_fields (P : DecodeEvent -> Prop) (w w' : World)
    (evs : list DecodeEvent) :
  tcph (pkt w') = tcph (pkt w) ->
  error_flags (pkt w') = error_flags (pkt w) ->
  ip_api (pkt w') = ip_api (pkt w) ->
  length (tcp_options (pkt w')) = length (tcp_options (pkt w)) ->
  trace w' = trace w ++ map Event evs -> Forall P evs ->
  frame P w w'.
Proof. unfold frame. intros. repeat split; eauto. Qed.

Lemma walker_event_not_naptha (e : DecodeEvent) :
  walker_event e -> e <> DECODE_DOS_NAPTHA.
Proof.
  unfold walker_event. cbn. intros H ->. intuition discriminate.
Qed.

Section WalkFacts.
Variable env : Env.
Variable m : mem.
Variable end_ptr : ptr.

(** The option part of the loop body never faults. *)
Lemma option_ok (s : Walk) (w : World) :
  (Z.to_nat (opt_count s) < length (tcp_options (pkt w)))%nat ->
  exists s' w',
    DecodeTCPOptions_option env m end_ptr (s, w) = Ok (s', w')
    /\ option_post (option_skip m (option_ptr s)) s w s' w'.
Proof.
  intros Hlen. unfold DecodeTCPOptions_option.
  set (w0 := put_option w (opt_count s) _).
  destruct (switch_post env m end_ptr
              (if option_ptr s + 1 <? end_ptr then Some (option_ptr s + 1)
               else None) s w0) as (s' & w' & Hs & Hp).
  - subst w0. cbn. rewrite length_insert. exact Hlen.
  - unfold len_ptr_of. destruct (option_ptr s + 1 <? end_ptr); auto.
  - exists s', w'. split; [exact Hs|].
    unfold option_post in *.
    destruct Hp as (H1 & H2 & H3 & H4 & H5 & H6 & H7 & H8).
    subst w0. cbn in *. rewrite length_insert in H6.
    repeat split; try assumption.
    intros i Hi. rewrite H7 by exact Hi.
    apply list_lookup_insert_ne. congruence.
Qed.

(** One turn of the loop: the option is accepted and the walker moves on
    by its skip, or it is refused and the walker returns with the event of
    the error code raised and the option count set. *)
Lemma body_post (s : Walk) (w : World) :
  (Z.to_nat (opt_count s) < length (tcp_options (pkt w)))%nat ->
  exists s1 w1,
    DecodeTCPOptions_option env m end_ptr (s, w) = Ok (s1, w1)
    /\ option_post (option_skip m (option_ptr s)) s w s1 w1
    /\ ((code s1 = 0
         /\ DecodeTCPOptions_body env m end_ptr (s, w)
            = Ok (Next (walk_advance s1, w1)))
        \/ (code s1 < 0
            /\ exists w2,
                 DecodeTCPOptions_body env m end_ptr (s, w) = Ok (Return w2)
                 /\ pkt w2 = set_tcp_option_count (pkt w1) (opt_count s)
                 /\ trace w2 = trace w ++ [Event (error_event (code s1))])).
Proof.
  intros Hlen.
  destruct (option_ok s w Hlen) as (s1 & w1 & Ho & Hp).
  exists s1, w1. split; [exact Ho|]. split; [exact Hp|].
  unfold DecodeTCPOptions_body. rewrite Ho. cbn [bind].
  destruct Hp as (H1 & H2 & H3 & H4 & H5 & H6 & H7 & H8).
  destruct H8 as [(Hc & _ & _) | [Hc Ht]].
  - left. split; [exact Hc|]. rewrite Hc. reflexivity.
  - right. unfold OPT_BADLEN, OPT_TRUNC, error_event in *.
    split; [lia|].
    destruct Hc as [-> | ->]; cbn; eexists; (split; [reflexivity|]);
      cbn; rewrite H2, Ht; auto.
Qed.

Lemma cond_count (s : Walk) (w : World) :
  DecodeTCPOptions_cond end_ptr (s, w) = true -> opt_count s < 40.
Proof.
  unfold DecodeTCPOptions_cond, TCP_OPTLENMAX. cbn. lia.
Qed.

(** The loop run with enough fuel never faults; what it leaves is framed
    by what it found. *)
Lemma while_walk (fuel : nat) :
  forall (s : Walk) (w : World),
    0 <= opt_count s <= 40 ->
    length (tcp_options (pkt w)) = 40%nat ->
    (Z.to_nat (40 - opt_count s) <= fuel)%nat ->
    exists r,
      while (DecodeTCPOptions_cond end_ptr)
            (DecodeTCPOptions_body env m end_ptr) fuel (s, w) = Ok r
      /\ match r with
         | Next (_, w') => frame walker_event w w'
         | Return w' => frame walker_event w w'
         end.
Proof.
  induction fuel as [|n IH]; intros s w Hc Hl Hf; cbn [while].
  - destruct (DecodeTCPOptions_cond end_ptr (s, w)) eqn:C.
    + apply cond_count in C. lia.
    + eexists. split; [reflexivity|]. apply frame_refl.
  - destruct (DecodeTCPOptions_cond end_ptr (s, w)) eqn:C.
    2:{ eexists. split; [reflexivity|]. apply frame_refl. }
    apply cond_count in C.
    destruct (body_post s w) as (s1 & w1 & _ & Hp & Hb); [lia|].
    destruct Hp as (H1 & H2 & H3 & H4 & H5 & H6 & H7 & H8).
    assert (Hfr : frame walker_event w w1).
    { destruct H8 as [(_ & _ & [Ht | Ht]) | [_ Ht]].
      - apply (frame_of_fields _ _ _ []); auto.
        cbn. rewrite app_nil_r. exact Ht.
      - apply (frame_of_fields _ _ _ [DECODE_TCPOPT_WSCALE_INVALID]); auto.
        constructor; [unfold walker_event; cbn; auto 10 | constructor].
      - apply (frame_of_fields _ _ _ []); auto.
        cbn. rewrite app_nil_r. exact Ht. }
    destruct Hb as [[Hz ->] | (Hneg & w2 & -> & Hpk & Htr)].
    + destruct (IH (walk_advance s1) w1) as (r & Hr & Hfr2).
      * cbn. rewrite H2. rewrite Z.mod_small by lia. lia.
      * congruence.
      * cbn. rewrite H2. rewrite Z.mod_small by lia. lia.
      * exists r. split; [exact Hr|].
        destruct r as [[s' w']|w']; eapply frame_trans; eauto.
    + eexists. split; [reflexivity|].
      apply (frame_of_fields _ _ _ [error_event (code s1)]);
        rewrite ?Hpk; cbn; try congruence.
      constructor; [|constructor].
      unfold walker_event, error_event.
      destruct (code s1 =? OPT_BADLEN); cbn; auto 10.
Qed.

Lemma finish_frame (s : Walk) (w : World) :
  frame walker_event w (DecodeTCPOptions_finish s w).
Proof.
  unfold DecodeTCPOptions_finish.
  set (w0 := with_pkt w _).
  assert (H0 : frame walker_event w w0).
  { apply (frame_of_fields _ _ _ []); try reflexivity.
    - cbn. rewrite app_nil_r. reflexivity.
    - constructor. }
  destruct (experimental_option_found s);
    [|destruct (obsolete_option_found s); [|destruct (ttcp_found s)]];
    try exact H0;
    (eapply frame_trans; [exact H0|]; apply frame_event;
     unfold walker_event; cbn; auto 10).
Qed.
End WalkFacts.

(** The walker on a region of at most 40 bytes returns, leaves the header
    reference alone and raises only events of its own. *)
Lemma DecodeTCPOptions_ok (env : Env) (m : mem) (start : ptr) (o_len : Z)
    (w : World) :
  o_len <= TCP_OPTLENMAX ->
  length (tcp_options (pkt w)) = 40%nat ->
  exists w',
    DecodeTCPOptions env m start o_len w = Ok w'
    /\ frame walker_event w w'.
Proof.
  intros Hlen Hl. unfold DecodeTCPOptions.
  destruct (TCP_OPTLENMAX <? o_len) eqn:E; [lia|].
  destruct (while_walk env m (start + o_len) walk_fuel (walk_init start) w)
    as (r & Hr & Hfr);
    [ cbn; lia | exact Hl
      | unfold walk_fuel, TCP_OPTLENMAX; cbn [walk_init opt_count]; lia | ].
  rewrite Hr. cbn [bind].
  destruct r as [[s' w']|w'].
  - eexists. split; [reflexivity|].
    eapply frame_trans; [exact Hfr | apply finish_frame].
  - eexists. split; [reflexivity | exact Hfr].
Qed.

(** ** Termination of the walker and its error path *)

Section WalkRuns.
Variable env : Env.
Variable m : mem.
Variable end_ptr : ptr.

Lemma walk_inv_step (k : nat) (sw sw' : Walk * World) :
  walk_inv k sw ->
  DecodeTCPOptions_cond end_ptr sw = true ->
  DecodeTCPOptions_body env m end_ptr sw = Ok (Next sw') ->
  walk_inv (Datatypes.S k) sw'
  /\ option_ptr (fst sw')
     = option_ptr (fst sw) + option_skip m (option_ptr (fst sw)).
Proof.
  destruct sw as [s w]. intros [Hc Hl] C B. cbn in Hc, Hl.
  apply cond_count in C.
  destruct (body_post env m end_ptr s w) as (s1 & w1 & _ & Hp & Hb); [lia|].
  destruct Hp as (H1 & H2 & _ & _ & _ & H6 & _ & H8).
  destruct Hb as [[Hz Hb] | (_ & w2 & Hb & _)];
    rewrite Hb in B; [|discriminate].
  injection B as <-. unfold walk_inv. cbn.
  rewrite H1, H2, H6.
  destruct H8 as [(_ & -> & _) | [[Hx | Hx] _]];
    [ | unfold OPT_BADLEN in Hx; lia | unfold OPT_TRUNC in Hx; lia ].
  rewrite Z.mod_small by lia. repeat split; [lia | exact Hl].
Qed.

Lemma walk_inv_iterations (fuel : nat) (start : ptr) (w : World)
    (k : nat) (sk : Walk * World) :
  length (tcp_options (pkt w)) = 40%nat ->
  iterations (DecodeTCPOptions_cond end_ptr)
             (DecodeTCPOptions_body env m end_ptr) fuel (walk_init start, w)
    !! k = Some sk ->
  walk_inv k sk.
Proof.
  intros Hl H.
  apply (iterations_invariant _ _ walk_inv) with (k0 := 0%nat) in H;
    [exact H | | split; [reflexivity | exact Hl]].
  intros k' s s' HI C B. eapply walk_inv_step; eauto.
Qed.

Lemma iterations_bound (fuel : nat) :
  forall (k : nat) (sw : Walk * World),
    walk_inv k sw ->
    (length (iterations (DecodeTCPOptions_cond end_ptr)
                        (DecodeTCPOptions_body env m end_ptr) fuel sw)
     <= 40 - k)%nat.
Proof.
  induction fuel as [|n IH]; intros k sw HI; cbn [iterations].
  - destruct (DecodeTCPOptions_cond end_ptr sw); cbn; lia.
  - destruct (DecodeTCPOptions_cond end_ptr sw) eqn:C; [|cbn; lia].
    assert (Hk : (k < 40)%nat).
    { destruct sw as [s w]. apply cond_count in C. destruct HI as [HI _].
      cbn in HI. lia. }
    cbn [length].
    destruct (DecodeTCPOptions_body env m end_ptr sw) as [[sw'|r]|f] eqn:B;
      try (cbn; lia).
    apply (walk_inv_step k sw sw' HI C) in B as [HI' _].
    specialize (IH _ _ HI'). lia.
Qed.
End WalkRuns.

(** C9.  For an option region of at most 40 bytes the walker returns; its
    loop body is entered at most 40 times, however much fuel the loop is
    given; and every turn of the loop that accepts an option moves the
    option pointer on by that option's skip: one byte for EOL and NOP, the
    length byte otherwise. *)
Theorem walker_terminates (env : Env) (m : mem) (start : ptr) (o_len : Z)
    (w : World) :
  o_len <= TCP_OPTLENMAX ->
  length (tcp_options (pkt w)) = 40%nat ->
  (exists w', DecodeTCPOptions env m start o_len w = Ok w')
  /\ (forall fuel,
        (length (iterations (DecodeTCPOptions_cond (start + o_len)%Z)
                            (DecodeTCPOptions_body env m (start + o_len)%Z)
                            fuel (walk_init start, w)) <= 40)%nat)
  /\ (forall fuel k s1 w1 s2 w2,
        iterations (DecodeTCPOptions_cond (start + o_len))
                   (DecodeTCPOptions_body env m (start + o_len))
                   fuel (walk_init start, w) !! k = Some (s1, w1) ->
        DecodeTCPOptions_body env m (start + o_len) (s1, w1)
        = Ok (Next (s2, w2)) ->
        option_ptr s2 = option_ptr s1 + option_skip m (option_ptr s1)).
Proof.
  intros Hlen Hl. split; [|split].
  - destruct (DecodeTCPOptions_ok env m start o_len w Hlen Hl) as (w' & H & _).
    exists w'. exact H.
  - intros fuel.
    pose proof (iterations_bound env m (start + o_len) fuel 0
                  (walk_init start, w)) as H.
    rewrite Nat.sub_0_r in H. apply H. split; [reflexivity | exact Hl].
  - intros fuel k s1 w1 s2 w2 Hk Hb.
    pose proof Hk as HI. apply walk_inv_iterations in HI; [|exact Hl].
    apply iterations_lookup in Hk as (C & _ & _).
    apply (walk_inv_step env m (start + o_len) k (s1, w1) (s2, w2) HI C Hb).
Qed.

(** The walk over a window scale option followed by a NOP in a region of
    four bytes. *)
Lemma walker_terminates_witness :
  (exists w', DecodeTCPOptions env_passive wscale_option 0 4
                (sample_world 1 0) = Ok w')
  /\ (forall fuel,
        (length (iterations (DecodeTCPOptions_cond (0 + 4)%Z)
                            (DecodeTCPOptions_body env_passive wscale_option
                               (0 + 4)%Z)
                            fuel (walk_init 0%Z, sample_world 1%Z 0%Z))
         <= 40)%nat)
  /\ (forall fuel k s1 w1 s2 w2,
        iterations (DecodeTCPOptions_cond (0 + 4))
                   (DecodeTCPOptions_body env_passive wscale_option (0 + 4))
                   fuel (walk_init 0, sample_world 1 0) !! k = Some (s1, w1) ->
        DecodeTCPOptions_body env_passive wscale_option (0 + 4) (s1, w1)
        = Ok (Next (s2, w2)) ->
        option_ptr s2
        = option_ptr s1 + option_skip wscale_option (option_ptr s1)).
Proof.
  apply (walker_terminates env_passive wscale_option 0 4 (sample_world 1 0)).
  - unfold TCP_OPTLENMAX. lia.
  - reflexivity.
Defined.

(** C4.  When the walk over a region of at most 40 bytes reaches, after
    [k] accepted options, an option that is refused with a negative code,
    the walker returns: it raises TCPOPT_BADLEN for [OPT_BADLEN] and
    TCPOPT_TRUNCATED for [OPT_TRUNC] and nothing after it, sets the
    option count to [k], and leaves the [k] records before the refused one
    as they were. *)
Theorem walker_error_truncates (env : Env) (m : mem) (start : ptr)
    (o_len : Z) (w : World) (k : nat) (sk : Walk) (wk : World)
    (s1 : Walk) (w1 : World) :
  o_len <= TCP_OPTLENMAX ->
  length (tcp_options (pkt w)) = 40%nat ->
  iterations (DecodeTCPOptions_cond (start + o_len))
             (DecodeTCPOptions_body env m (start + o_len))
             walk_fuel (walk_init start, w) !! k = Some (sk, wk) ->
  DecodeTCPOptions_option env m (start + o_len) (sk, wk) = Ok (s1, w1) ->
  code s1 < 0 ->
  exists w',
    DecodeTCPOptions env m start o_len w = Ok w'
    /\ (code s1 = OPT_BADLEN \/ code s1 = OPT_TRUNC)
    /\ trace w'
       = trace wk
         ++ [Event (if code s1 =? OPT_BADLEN then DECODE_TCPOPT_BADLEN
                    else DECODE_TCPOPT_TRUNCATED)]
    /\ tcp_option_count (pkt w') = Z.of_nat k
    /\ (forall i, (i < k)%nat ->
          tcp_options (pkt w') !! i = tcp_options (pkt wk) !! i).
Proof.
  intros Hlen Hl Hk Ho Hneg.
  pose proof Hk as HI. apply walk_inv_iterations in HI as [Hc Hl']; [|exact Hl].
  cbn in Hc, Hl'.
  apply iterations_lookup in Hk as (C & Hfuel & Hw).
  pose proof (cond_count _ _ _ C) as Hlt.
  destruct (body_post env m (start + o_len) sk wk) as (s1' & w1' & Ho' & Hp & Hb);
    [lia|].
  rewrite Ho in Ho'. injection Ho' as <- <-.
  destruct Hb as [[Hz _] | (_ & w2 & Hb & Hpk & Htr)]; [lia|].
  destruct Hp as (_ & _ & _ & _ & _ & _ & H7 & H8).
  exists w2. split; [|split; [|split; [|split]]].
  - unfold DecodeTCPOptions.
    destruct (TCP_OPTLENMAX <? o_len) eqn:E; [lia|].
    cbn zeta. rewrite Hw.
    destruct (walk_fuel - k)%nat as [|n] eqn:En; [lia|].
    cbn [while]. rewrite C, Hb. reflexivity.
  - destruct H8 as [(Hz & _) | [H _]]; [lia | exact H].
  - exact Htr.
  - rewrite Hpk. cbn. exact Hc.
  - intros i Hi. rewrite Hpk. cbn. apply H7. lia.
Qed.

(** Two window scale options of which the second has a length byte of 2:
    the walker raises TCPOPT_BADLEN and counts one option. *)
Lemma walker_error_truncates_witness :
  exists w',
    DecodeTCPOptions env_passive bad_second_option 0 6 (sample_world 1 0)
    = Ok w'
    /\ trace w' = [Event DECODE_TCPOPT_BADLEN]
    /\ tcp_option_count (pkt w') = 1.
Proof.
  edestruct (walker_error_truncates env_passive bad_second_option 0 6
               (sample_world 1 0) 1)
    as (w' & H1 & _ & H2 & H3 & _).
  - unfold TCP_OPTLENMAX. lia.
  - reflexivity.
  - cbv. reflexivity.
  - cbv. reflexivity.
  - cbv. reflexivity.
  - exists w'. split; [exact H1|]. split; [exact H2 | exact H3].
Defined.

(** ** The body of [decode] after the bounds checks *)

Section DecodeFacts.
Variable env : Env.
Variable m : mem.

Lemma tcp_opt_len_range (h : ptr) :
  20 <= hdr_len m h ->
  tcp_opt_len m h = TCP_OFFSET m h * 4 - 20 /\ 0 <= tcp_opt_len m h <= 40.
Proof.
  intros H. pose proof (hdr_len_offset m h) as [He Hr].
  unfold tcp_opt_len, TCP_HEADER_LEN. rewrite Z.mod_small by lia. lia.
Qed.

(** The flag tests never fault when the header reference is set; they
    raise events and change nothing else. *)
Lemma decode_flag_tests_frame (w : World) (h : ptr) :
  tcph (pkt w) = Some h ->
  exists w',
    decode_flag_tests env m w = Ok w' /\ frame (fun _ => True) w w'.
Proof.
  intros Hh. unfold decode_flag_tests, deref_tcph. rewrite Hh. cbn [bind].
  eexists. split; [reflexivity|].
  repeat first
    [ apply frame_refl
    | apply frame_event; exact I
    | match goal with
      | |- frame _ _ (if ?b then _ else _) => destruct b
      | |- frame _ _ (let w := _ in _) => cbv zeta
      | |- frame _ ?w (decoder_event ?w' _) =>
          apply (frame_trans _ w w'); [|apply frame_event; exact I]
      end ].
Qed.

(** On a pure SYN the flag tests raise DOS_NAPTHA exactly for the
    sequence field 6060842 and the IP id 413, and besides it at most
    SYN_TO_MULTICAST. *)
Lemma decode_flag_tests_pure_syn (w : World) (h : ptr) :
  tcph (pkt w) = Some h ->
  th_flags m h = TH_SYN ->
  exists w',
    decode_flag_tests env m w = Ok w'
    /\ frame (fun e => e <> DECODE_DOS_NAPTHA) (
         if (th_seq env m h =? 6060842) && (ip_id (ip_api (pkt w)) =? 413)
         then decoder_event w DECODE_DOS_NAPTHA else w) w'.
Proof.
  intros Hh Hf. unfold decode_flag_tests, deref_tcph, TCP_ISFLAGSET.
  rewrite Hh. cbn [bind]. cbv zeta. rewrite Hf.
  change (Z.land TH_SYN (Z.lor TH_FIN (Z.lor TH_PUSH TH_URG))
          =? Z.lor TH_FIN (Z.lor TH_PUSH TH_URG)) with false.
  change (Z.land TH_SYN TH_SYN =? TH_SYN) with true.
  change (TH_SYN =? TH_SYN) with true.
  change (Z.land TH_SYN TH_RST =? 0) with true.
  change (Z.land TH_SYN TH_FIN =? 0) with true.
  change (Z.land TH_SYN (Z.lor TH_FIN (Z.lor TH_PUSH TH_URG)) =? 0) with true.
  cbn [negb andb].
  eexists. split; [reflexivity|].
  destruct (th_seq env m h =? 6060842); cbn [andb];
    [destruct (ip_id (ip_api (pkt w)) =? 413)|];
    cbn [pkt decoder_event];
    destruct (sfvar_ip_in_SynToMulticastDstIp env (ip_api (pkt w)));
    first [apply frame_refl | apply frame_event; discriminate].
Qed.

Lemma TCPMiscTests_frame (w : World) (h : ptr) :
  tcph (pkt w) = Some h ->
  exists w',
    TCPMiscTests env m w = Ok w'
    /\ frame (fun e => e <> DECODE_DOS_NAPTHA) w w'.
Proof.
  intros Hh. unfold TCPMiscTests, deref_tcph. rewrite Hh. cbn [bind].
  eexists. split; [reflexivity|]. cbv zeta.
  eapply frame_trans; apply frame_event_if; discriminate.
Qed.

(** A field update that leaves the header reference, the error flags, the
    IP layer and the option array alone. *)
Lemma frame_with_pkt (P : DecodeEvent -> Prop) (w : World)
    (f : Packet -> Packet) :
  tcph (f (pkt w)) = tcph (pkt w) ->
  error_flags (f (pkt w)) = error_flags (pkt w) ->
  ip_api (f (pkt w)) = ip_api (pkt w) ->
  tcp_options (f (pkt w)) = tcp_options (pkt w) ->
  frame P w (with_pkt w f).
Proof.
  intros H1 H2 H3 H4. apply (frame_of_fields _ _ _ []); cbn; auto.
  - rewrite H4. reflexivity.
  - rewrite app_nil_r. reflexivity.
Qed.

(** From the ports on, [decode] never faults when the header reference is
    set and the data offset is at least 5; the reference stays set. *)
Lemma decode_payload_frame (raw_pkt : ptr) (raw_len lyr_len : Z)
    (w : World) (h : ptr) :
  tcph (pkt w) = Some h ->
  length (tcp_options (pkt w)) = 40%nat ->
  20 <= hdr_len m raw_pkt ->
  exists w',
    decode_payload env m raw_pkt raw_len lyr_len w = Ok w'
    /\ frame (fun e => e <> DECODE_DOS_NAPTHA) w w'.
Proof.
  intros Hh Hl Hoff. unfold decode_payload, deref_tcph at 1.
  rewrite Hh. cbn [bind].
  set (w1 := with_pkt w _).
  assert (F1 : frame (fun e => e <> DECODE_DOS_NAPTHA) w w1)
    by (apply frame_with_pkt; reflexivity).
  assert (exists w2,
            (if 0 <? tcp_opt_len m raw_pkt
             then DecodeTCPOptions env m (raw_pkt + TCP_HEADER_LEN)
                    (tcp_opt_len m raw_pkt) w1
             else Ok (with_pkt w1 (fun p => set_tcp_option_count p 0)))
            = Ok w2
            /\ frame (fun e => e <> DECODE_DOS_NAPTHA) w1 w2)
    as (w2 & -> & F2).
  { destruct (0 <? tcp_opt_len m raw_pkt).
    - destruct (DecodeTCPOptions_ok env m (raw_pkt + TCP_HEADER_LEN)
                  (tcp_opt_len m raw_pkt) w1) as (w2 & H & F).
      + unfold TCP_OPTLENMAX. apply tcp_opt_len_range. exact Hoff.
      + exact Hl.
      + exists w2. split; [exact H|].
        eapply frame_weaken; [|exact F]. apply walker_event_not_naptha.
    - eexists. split; [reflexivity|]. apply frame_with_pkt; reflexivity. }
  cbn [bind].
  set (w3 := with_pkt w2 _).
  assert (F3 : frame (fun e => e <> DECODE_DOS_NAPTHA) w2 w3)
    by (apply frame_with_pkt; reflexivity).
  assert (F13 : frame (fun e => e <> DECODE_DOS_NAPTHA) w w3)
    by (eapply frame_trans; [exact F1|]; eapply frame_trans; eauto).
  assert (H3 : tcph (pkt w3) = Some h).
  { destruct F13 as (-> & _). exact Hh. }
  unfold deref_tcph. rewrite H3. cbn [bind].
  match goal with
  | |- context [if ?b then decoder_event w3 DECODE_TCP_BAD_URP else w3] =>
      set (w4 := if b then decoder_event w3 DECODE_TCP_BAD_URP else w3)
  end.
  assert (F4 : frame (fun e => e <> DECODE_DOS_NAPTHA) w3 w4)
    by (apply frame_event_if; discriminate).
  set (w5 := with_pkt w4 _).
  assert (F5 : frame (fun e => e <> DECODE_DOS_NAPTHA) w4 w5)
    by (apply frame_with_pkt; reflexivity).
  assert (F15 : frame (fun e => e <> DECODE_DOS_NAPTHA) w w5)
    by (eapply frame_trans; [exact F13|]; eapply frame_trans; eauto).
  destruct (TCPMiscTests_frame w5 h) as (w6 & H6 & F6).
  { destruct F15 as (-> & _). exact Hh. }
  exists w6. split; [exact H6|]. eapply frame_trans; eauto.
Qed.

Lemma decode_rest_frame (raw_pkt : ptr) (raw_len lyr_len : Z)
    (w : World) (h : ptr) :
  tcph (pkt w) = Some h ->
  length (tcp_options (pkt w)) = 40%nat ->
  20 <= hdr_len m raw_pkt ->
  exists w',
    decode_rest env m raw_pkt raw_len lyr_len w = Ok w'
    /\ frame (fun _ => True) w w'.
Proof.
  intros Hh Hl Hoff. unfold decode_rest.
  destruct (decode_flag_tests_frame w h Hh) as (w1 & -> & F1). cbn [bind].
  destruct (decode_payload_frame raw_pkt raw_len lyr_len w1 h)
    as (w2 & -> & F2).
  - destruct F1 as (-> & _). exact Hh.
  - destruct F1 as (_ & _ & _ & -> & _). exact Hl.
  - exact Hoff.
  - eexists. split; [reflexivity|].
    eapply frame_trans; [exact F1|]. eapply frame_weaken; [|exact F2]. auto.
Qed.
End DecodeFacts.

(** ** The checksum block *)

Lemma not_in_map_Event (a : Action) (evs : list DecodeEvent) :
  (forall e, a <> Event e) -> ~ In a (map Event evs).
Proof.
  intros H Hin. apply in_map_iff in Hin as (e & He & _).
  exact (H e (eq_sym He)).
Qed.

Lemma events_of_app (t1 t2 : list Action) :
  events_of (t1 ++ t2) = events_of t1 ++ events_of t2.
Proof.
  induction t1 as [|a t1 IH]; [reflexivity|].
  destruct a; cbn; rewrite IH; reflexivity.
Qed.

(** C2.  When [decode] comes to the checksum block with checksum
    verification enabled and the checksum over pseudoheader and segment is
    not zero: if the packet's unsure_encap flag is set, [decode] clears the
    header reference and returns failure, raising no event, requesting no
    drop and leaving the error flags as they were; otherwise it sets
    PKT_ERR_CKSUM_TCP, requests an active drop exactly when inline mode and
    the TCP checksum drop policy are both on, and returns success. *)
Theorem decode_checksum_mismatch (env : Env) (m : mem) (raw_pkt : ptr)
    (raw_len : Z) (w : World) :
  length (tcp_options (pkt w)) = 40%nat ->
  20 <= raw_len -> 20 <= hdr_len m raw_pkt <= raw_len ->
  ScTcpChecksums env = true ->
  decode_csum env m raw_pkt raw_len (ip_api (pkt w)) <> 0 ->
  (unsure_encap env (pkt w) = true ->
   exists lyr w' new,
     decode env m raw_pkt raw_len w = Ok (false, lyr, w')
     /\ tcph (pkt w') = None
     /\ error_flags (pkt w') = error_flags (pkt w)
     /\ trace w' = trace w ++ new
     /\ events_of new = []
     /\ ~ In ActiveDrop new)
  /\ (unsure_encap env (pkt w) = false ->
      exists lyr w' new,
        decode env m raw_pkt raw_len w = Ok (true, lyr, w')
        /\ error_flags (pkt w')
           = Z.lor (error_flags (pkt w)) (PKT_ERR_CKSUM_TCP env)
        /\ trace w' = trace w ++ new
        /\ (In ActiveDrop new
            <-> ScInlineMode env = true /\ ScTcpChecksumDrops env = true)).
Proof.
  intros Hl H1 H2 Hsc Hcs.
  rewrite decode_checksum_stage by assumption.
  unfold decode_checksum. rewrite Hsc.
  unfold unsure_encap.
  cbn [deref_tcph set_tcph pkt tcph bind ip_api decode_flags].
  destruct (decode_csum env m raw_pkt raw_len (ip_api (pkt w)) =? 0) eqn:E;
    [lia|].
  cbn [negb]. split; intros Hun; rewrite Hun.
  - do 3 eexists. split; [reflexivity|].
    split; [reflexivity|]. split; [reflexivity|]. split.
    + cbn [trace set_tcph]. rewrite <- app_assoc. reflexivity.
    + split; [reflexivity|]. cbn. intros [H | [H | []]]; discriminate H.
  - cbv zeta.
    assert (Hdrop : ScInlineMode env && ScTcpChecksumDrops env = true
                    <-> ScInlineMode env = true /\ ScTcpChecksumDrops env = true)
      by apply andb_true_iff.
    destruct (ScInlineMode env && ScTcpChecksumDrops env); cbn [bind];
      match goal with
      | |- context [decode_rest env m raw_pkt raw_len ?l ?w1] =>
          destruct (decode_rest_frame env m raw_pkt raw_len l w1 raw_pkt)
            as (w' & Hr & F); [reflexivity | exact Hl | lia | ]
      end;
      rewrite Hr; cbn [bind];
      destruct F as (_ & Fe & _ & _ & evs & Ft & _);
      pose proof (not_in_map_Event ActiveDrop evs) as Hn;
      do 3 eexists; (split; [reflexivity|]); (split; [exact Fe|]);
      (split; [rewrite Ft; cbn; rewrite <- !app_assoc; reflexivity|]).
    + split; [intros _; apply Hdrop; reflexivity|].
      intros _. cbn. auto.
    + split; [|intros H; apply Hdrop in H; discriminate H].
      cbn. intros [H | H]; [discriminate H|].
      exfalso. apply Hn; [intros e; discriminate | exact H].
Qed.

(** The SYN of S1 with a corrupted checksum: flagged unsure_encap on a
    passive tap, and unflagged on an inline sensor that drops on bad TCP
    checksums. *)
Lemma decode_checksum_mismatch_witness :
  (exists lyr w' new,
     decode env_passive seg_syn_badsum 0 20 (sample_world 1 8)
     = Ok (false, lyr, w')
     /\ tcph (pkt w') = None
     /\ error_flags (pkt w') = 0
     /\ trace w' = [] ++ new
     /\ events_of new = []
     /\ ~ In ActiveDrop new)
  /\ (exists lyr w' new,
        decode env_inline seg_syn_badsum 0 20 (sample_world 1 0)
        = Ok (true, lyr, w')
        /\ error_flags (pkt w') = Z.lor 0 2
        /\ trace w' = [] ++ new
        /\ (In ActiveDrop new <-> true = true /\ true = true)).
Proof.
  split.
  - apply (decode_checksum_mismatch env_passive seg_syn_badsum 0 20
             (sample_world 1 8));
      [ reflexivity | lia | vm_compute; split; discriminate | reflexivity
      | vm_compute; discriminate | reflexivity ].
  - apply (decode_checksum_mismatch env_inline seg_syn_badsum 0 20
             (sample_world 1 0));
      [ reflexivity | lia | vm_compute; split; discriminate | reflexivity
      | vm_compute; discriminate | reflexivity ].
Defined.

(** ** Successful decodes *)

(** When the checksum block lets decoding go on, it has at most set the
    checksum error flag and requested a drop. *)
Lemma decode_checksum_next (env : Env) (m : mem) (raw_len : Z)
    (w0 w1 : World) (h : ptr) :
  tcph (pkt w0) = Some h ->
  decode_checksum env m raw_len w0 = Ok (Next w1) ->
  tcph (pkt w1) = Some h
  /\ ip_api (pkt w1) = ip_api (pkt w0)
  /\ tcp_options (pkt w1) = tcp_options (pkt w0)
  /\ (trace w1 = trace w0 \/ trace w1 = trace w0 ++ [ActiveDrop]).
Proof.
  intros Hh. unfold decode_checksum, deref_tcph. rewrite Hh. cbn [bind].
  destruct (ScTcpChecksums env); [|intros [= <-]; auto].
  destruct (negb _); [|intros [= <-]; auto].
  destruct (unsure_encap env (pkt w0)); [discriminate|].
  cbv zeta.
  destruct (ScInlineMode env && ScTcpChecksumDrops env);
    intros [= <-]; cbn; auto.
Qed.

Lemma decode_checksum_no_fault (env : Env) (m : mem) (raw_len : Z)
    (w0 : World) (h : ptr) (f : fault) :
  tcph (pkt w0) = Some h ->
  decode_checksum env m raw_len w0 <> Fault f.
Proof.
  intros Hh. unfold decode_checksum, deref_tcph. rewrite Hh. cbn [bind].
  destruct (ScTcpChecksums env); [|discriminate].
  destruct (negb _); [|discriminate].
  destruct (unsure_encap env (pkt w0)); discriminate.
Qed.

(** A successful [decode] has passed the bounds checks and the checksum
    block. *)
Lemma decode_success_inv (env : Env) (m : mem) (raw_pkt : ptr) (raw_len : Z)
    (w : World) (lyr : option Z) (w' : World) :
  decode env m raw_pkt raw_len w = Ok (true, lyr, w') ->
  20 <= raw_len /\ 20 <= hdr_len m raw_pkt <= raw_len
  /\ exists w1 pre,
       decode_rest env m raw_pkt raw_len (hdr_len m raw_pkt) w1 = Ok w'
       /\ tcph (pkt w1) = Some raw_pkt
       /\ ip_api (pkt w1) = ip_api (pkt w)
       /\ tcp_options (pkt w1) = tcp_options (pkt w)
       /\ trace w1 = trace w ++ TcphStore (Some raw_pkt) :: pre
       /\ (pre = [] \/ pre = [ActiveDrop]).
Proof.
  unfold decode, TCP_HEADER_LEN.
  destruct (raw_len <? 20) eqn:E0; [discriminate|].
  destruct (hdr_len m raw_pkt <? 20) eqn:E1; [discriminate|].
  destruct (raw_len <? hdr_len m raw_pkt) eqn:E2; [discriminate|].
  destruct (decode_checksum env m raw_len (set_tcph w (Some raw_pkt)))
    as [[w1|w1]|f] eqn:C; cbn [bind]; try discriminate.
  apply (decode_checksum_next _ _ _ _ _ raw_pkt) in C
    as (C1 & C2 & C3 & C4); [|reflexivity].
  destruct (decode_rest env m raw_pkt raw_len (hdr_len m raw_pkt) w1)
    as [w2|f] eqn:R; cbn [bind]; [|discriminate].
  intros [= <- <-].
  split; [lia|]. split; [lia|].
  exists w1. cbn in C2, C3, C4.
  destruct C4 as [C4 | C4].
  - exists []. repeat split; auto.
  - exists [ActiveDrop]. repeat split; auto.
    rewrite C4, <- app_assoc. reflexivity.
Qed.

(** A failed [decode] has raised no event but those of the bounds
    checks. *)
Lemma decode_failure_events (env : Env) (m : mem) (raw_pkt : ptr)
    (raw_len : Z) (w : World) (lyr : option Z) (w' : World) :
  decode env m raw_pkt raw_len w = Ok (false, lyr, w') ->
  exists new,
    trace w' = trace w ++ new
    /\ forall e, In (Event e) new ->
                 e = DECODE_TCP_DGRAM_LT_TCPHDR
                 \/ e = DECODE_TCP_INVALID_OFFSET
                 \/ e = DECODE_TCP_LARGE_OFFSET.
Proof.
  unfold decode, TCP_HEADER_LEN.
  destruct (raw_len <? 20) eqn:E0.
  { intros [= <- <-]. eexists. split.
    - cbn [trace set_tcph decoder_event]. rewrite <- app_assoc. reflexivity.
    - cbn. intros e [[= <-] | [H | []]]; [auto | discriminate H]. }
  destruct (hdr_len m raw_pkt <? 20) eqn:E1.
  { intros [= <- <-]. eexists. split.
    - cbn [trace set_tcph decoder_event]. rewrite <- !app_assoc. reflexivity.
    - cbn. intros e [H | [[= <-] | [H | []]]]; try discriminate H. auto. }
  destruct (raw_len <? hdr_len m raw_pkt) eqn:E2.
  { intros [= <- <-]. eexists. split.
    - cbn [trace set_tcph decoder_event]. rewrite <- !app_assoc. reflexivity.
    - cbn. intros e [H | [[= <-] | [H | []]]]; try discriminate H. auto. }
  destruct (decode_checksum env m raw_len (set_tcph w (Some raw_pkt)))
    as [[w1|w1]|f] eqn:C; cbn [bind]; try discriminate.
  - destruct (decode_rest env m raw_pkt raw_len (hdr_len m raw_pkt) w1);
      discriminate.
  - intros [= <- <-].
    unfold decode_checksum, deref_tcph in C.
    cbn [set_tcph pkt tcph bind] in C.
    destruct (ScTcpChecksums env); [|discriminate].
    destruct (negb _); [|discriminate].
    destruct (unsure_encap env _); [|discriminate].
    injection C as <-.
    exists [TcphStore (Some raw_pkt); TcphStore None]. split.
    + cbn [trace set_tcph]. rewrite <- !app_assoc. reflexivity.
    + cbn. intros e [H | [H | []]]; discriminate H.
Qed.

(** C10.  [decode] never dereferences a null header reference and never
    runs out of fuel.  Where it calls the option walker (the data offset
    is at least 5 and the option length is positive), the length it passes
    is [data_offset * 4 - 20] and lies in [1, 40]; the walker, called with
    a length of at most 40, leaves the header reference as it is.  A
    [decode] that returns success stored the reference once, never cleared
    it, and returns with it set. *)
Theorem decode_keeps_header_reference (env : Env) (m : mem) (raw_pkt : ptr)
    (raw_len : Z) (w : World) :
  length (tcp_options (pkt w)) = 40%nat ->
  (exists r, decode env m raw_pkt raw_len w = Ok r)
  /\ (20 <= hdr_len m raw_pkt -> 0 < tcp_opt_len m raw_pkt ->
      tcp_opt_len m raw_pkt = TCP_OFFSET m raw_pkt * 4 - 20
      /\ 1 <= tcp_opt_len m raw_pkt <= 40)
  /\ (forall start o_len w0,
        o_len <= 40 -> length (tcp_options (pkt w0)) = 40%nat ->
        exists w1,
          DecodeTCPOptions env m start o_len w0 = Ok w1
          /\ tcph (pkt w1) = tcph (pkt w0))
  /\ (forall lyr w',
        decode env m raw_pkt raw_len w = Ok (true, lyr, w') ->
        tcph (pkt w') = Some raw_pkt
        /\ exists new,
             trace w' = trace w ++ TcphStore (Some raw_pkt) :: new
             /\ ~ In (TcphStore None) new).
Proof.
  intros Hl. split; [|split; [|split]].
  - unfold decode, TCP_HEADER_LEN.
    destruct (raw_len <? 20) eqn:E0; [eexists; reflexivity|].
    destruct (hdr_len m raw_pkt <? 20) eqn:E1; [eexists; reflexivity|].
    destruct (raw_len <? hdr_len m raw_pkt) eqn:E2; [eexists; reflexivity|].
    destruct (decode_checksum env m raw_len (set_tcph w (Some raw_pkt)))
      as [[w1|w1]|f] eqn:C; cbn [bind].
    + apply (decode_checksum_next _ _ _ _ _ raw_pkt) in C
        as (C1 & _ & C3 & _); [|reflexivity].
      destruct (decode_rest_frame env m raw_pkt raw_len (hdr_len m raw_pkt)
                  w1 raw_pkt) as (w2 & -> & _);
        [exact C1 | rewrite C3; exact Hl | lia |].
      eexists. reflexivity.
    + eexists. reflexivity.
    + exfalso. revert C. apply (decode_checksum_no_fault _ _ _ _ raw_pkt).
      reflexivity.
  - intros H1 H2. pose proof (tcp_opt_len_range m raw_pkt H1). lia.
  - intros start o_len w0 Ho Hl0.
    destruct (DecodeTCPOptions_ok env m start o_len w0) as (w1 & H & F);
      [unfold TCP_OPTLENMAX; lia | exact Hl0 |].
    exists w1. split; [exact H | apply F].
  - intros lyr w' Hd.
    apply decode_success_inv in Hd
      as (H1 & H2 & w1 & pre & Hr & Ht & Hi & Ho & Htr & Hpre).
    destruct (decode_rest_frame env m raw_pkt raw_len (hdr_len m raw_pkt)
                w1 raw_pkt) as (w2 & Hw2 & F);
      [exact Ht | rewrite Ho; exact Hl | lia |].
    rewrite Hw2 in Hr. injection Hr as <-.
    destruct F as (F1 & _ & _ & _ & evs & Fe & _).
    split; [rewrite F1; exact Ht|].
    exists (pre ++ map Event evs). split.
    + rewrite Fe, Htr, <- app_assoc. reflexivity.
    + intros Hin. apply in_app_or in Hin as [Hin | Hin].
      * destruct Hpre as [-> | ->]; cbn in Hin; intuition discriminate.
      * revert Hin. apply not_in_map_Event. intros e. discriminate.
Qed.

(** A SYN with a data offset of 6 and a window scale option. *)
Lemma decode_keeps_header_reference_witness :
  (exists r,
     decode env_passive syn_wscale_segment 0 24 (sample_world 1 0) = Ok r)
  /\ (tcp_opt_len syn_wscale_segment 0
      = TCP_OFFSET syn_wscale_segment 0 * 4 - 20
      /\ 1 <= tcp_opt_len syn_wscale_segment 0 <= 40)
  /\ (forall lyr w',
        decode env_passive syn_wscale_segment 0 24 (sample_world 1 0)
        = Ok (true, lyr, w') ->
        tcph (pkt w') = Some 0
        /\ exists new,
             trace w' = [] ++ TcphStore (Some 0) :: new
             /\ ~ In (TcphStore None) new).
Proof.
  destruct (decode_keeps_header_reference env_passive syn_wscale_segment 0 24
              (sample_world 1 0) eq_refl) as (H1 & H2 & _ & H4).
  split; [exact H1|]. split; [|exact H4].
  apply H2; vm_compute; [discriminate | reflexivity].
Defined.

(** ** Bytes in memory and byte order *)

Lemma load8_store8 (m : mem) (a b : ptr) (v : Z) :
  load8 (store8 m a v) b = if b =? a then v mod 256 else load8 m b.
Proof.
  unfold load8, store8. destruct (b =? a); [|reflexivity].
  apply Z.mod_mod. lia.
Qed.

Lemma load8_store8_other (m : mem) (a b : ptr) (v : Z) :
  b <> a -> load8 (store8 m a v) b = load8 m b.
Proof.
  intros H. rewrite load8_store8.
  destruct (Z.eqb_spec b a); [contradiction | reflexivity].
Qed.

Lemma load8_store8_same (m : mem) (a : ptr) (v : Z) :
  load8 (store8 m a v) a = v mod 256.
Proof. rewrite load8_store8, Z.eqb_refl. reflexivity. Qed.

Lemma bswap32_range (x : Z) : 0 <= bswap32 x < 4294967296.
Proof.
  unfold bswap32.
  pose proof (Z.mod_pos_bound x 256).
  pose proof (Z.mod_pos_bound (x / 256) 256).
  pose proof (Z.mod_pos_bound (x / 65536) 256).
  pose proof (Z.mod_pos_bound (x / 16777216) 256).
  lia.
Qed.

(** The four bytes of a 32-bit word. *)
Lemma bytes_of_word (b0 b1 b2 b3 : Z) :
  0 <= b0 < 256 -> 0 <= b1 < 256 -> 0 <= b2 < 256 -> 0 <= b3 < 256 ->
  let x := b0 + b1 * 256 + b2 * 65536 + b3 * 16777216 in
  x mod 256 = b0 /\ (x / 256) mod 256 = b1
  /\ (x / 65536) mod 256 = b2 /\ (x / 16777216) mod 256 = b3.
Proof.
  intros H0 H1 H2 H3 x.
  assert (E1 : x / 256 = b1 + b2 * 256 + b3 * 65536).
  { symmetry. apply (Z.div_unique x 256 _ b0); subst x; lia. }
  assert (E2 : x / 65536 = b2 + b3 * 256).
  { symmetry. apply (Z.div_unique x 65536 _ (b0 + b1 * 256)); subst x; lia. }
  assert (E3 : x / 16777216 = b3).
  { symmetry.
    apply (Z.div_unique x 16777216 _ (b0 + b1 * 256 + b2 * 65536));
      subst x; lia. }
  rewrite E1, E2, E3. repeat split.
  - symmetry. apply (Z.mod_unique x 256 (b1 + b2 * 256 + b3 * 65536));
      subst x; lia.
  - symmetry. apply (Z.mod_unique _ 256 (b2 + b3 * 256)); lia.
  - symmetry. apply (Z.mod_unique _ 256 b3); lia.
  - apply Z.mod_small. lia.
Qed.

Lemma word32_mod (v : Z) :
  v mod 4294967296
  = v mod 256 + (v / 256) mod 256 * 256 + (v / 65536) mod 256 * 65536
    + (v / 16777216) mod 256 * 16777216.
Proof.
  change 4294967296 with (256 * 16777216).
  rewrite Z.rem_mul_r by lia.
  change 16777216 with (256 * 65536) at 1.
  rewrite Z.rem_mul_r by lia.
  change 65536 with (256 * 256) at 1.
  rewrite Z.rem_mul_r by lia.
  rewrite !Z.div_div by lia.
  change (256 * 256) with 65536. change (65536 * 256) with 16777216.
  lia.
Qed.

Lemma word16_mod (v : Z) :
  v mod 65536 = v mod 256 + (v / 256) mod 256 * 256.
Proof.
  change 65536 with (256 * 256). rewrite Z.rem_mul_r by lia. lia.
Qed.

Lemma bswap32_involutive (x : Z) :
  0 <= x < 4294967296 -> bswap32 (bswap32 x) = x.
Proof.
  intros Hx.
  rewrite <- (Z.mod_small x 4294967296 Hx) at 2. rewrite word32_mod.
  pose proof (Z.mod_pos_bound x 256 ltac:(lia)) as B0.
  pose proof (Z.mod_pos_bound (x / 256) 256 ltac:(lia)) as B1.
  pose proof (Z.mod_pos_bound (x / 65536) 256 ltac:(lia)) as B2.
  pose proof (Z.mod_pos_bound (x / 16777216) 256 ltac:(lia)) as B3.
  unfold bswap32 at 2.
  set (b0 := x mod 256) in *. set (b1 := (x / 256) mod 256) in *.
  set (b2 := (x / 65536) mod 256) in *.
  set (b3 := (x / 16777216) mod 256) in *.
  replace (b0 * 16777216 + b1 * 65536 + b2 * 256 + b3)
    with (b3 + b2 * 256 + b1 * 65536 + b0 * 16777216) by lia.
  destruct (bytes_of_word b3 b2 b1 b0 B3 B2 B1 B0) as (E0 & E1 & E2 & E3).
  unfold bswap32. cbv zeta in E0, E1, E2, E3.
  rewrite E0, E1, E2, E3. lia.
Qed.

Section LoadStore.
Variable env : Env.

Lemma load32_range (m : mem) (a : ptr) : 0 <= load32 env m a < 4294967296.
Proof.
  unfold load32.
  pose proof (load8_range m a). pose proof (load8_range m (a + 1)).
  pose proof (load8_range m (a + 2)). pose proof (load8_range m (a + 3)).
  destruct (host_big_endian env); lia.
Qed.

Lemma load16_range (m : mem) (a : ptr) : 0 <= load16 env m a < 65536.
Proof.
  unfold load16.
  pose proof (load8_range m a). pose proof (load8_range m (a + 1)).
  destruct (host_big_endian env); lia.
Qed.

Lemma ntohl_htonl (x : Z) :
  0 <= x < 4294967296 -> ntohl env (htonl env x) = x.
Proof.
  intros Hx. unfold ntohl, htonl.
  destruct (host_big_endian env); [reflexivity|].
  apply bswap32_involutive, Hx.
Qed.

Lemma htonl_range (x : Z) :
  0 <= x < 4294967296 -> 0 <= htonl env x < 4294967296.
Proof.
  intros Hx. unfold htonl.
  destruct (host_big_endian env); [exact Hx | apply bswap32_range].
Qed.


(** A store leaves the bytes outside its field alone. *)
Lemma load8_store16_other (m : mem) (a b : ptr) (v : Z) :
  b < a \/ a + 2 <= b -> load8 (store16 env m a v) b = load8 m b.
Proof.
  intros H. unfold store16.
  destruct (host_big_endian env); rewrite !load8_store8_other by lia;
    reflexivity.
Qed.

Lemma load8_store32_other (m : mem) (a b : ptr) (v : Z) :
  b < a \/ a + 4 <= b -> load8 (store32 env m a v) b = load8 m b.
Proof.
  intros H. unfold store32.
  destruct (host_big_endian env); rewrite !load8_store8_other by lia;
    reflexivity.
Qed.

(** A field reads back what was stored in it. *)
Lemma load16_store16_same (m : mem) (a : ptr) (v : Z) :
  load16 env (store16 env m a v) a = v mod 65536.
Proof.
  rewrite word16_mod. unfold load16, store16.
  destruct (host_big_endian env);
    repeat (rewrite ?load8_store8_same; rewrite ?load8_store8_other by lia);
    lia.
Qed.

Lemma load32_store32_same (m : mem) (a : ptr) (v : Z) :
  load32 env (store32 env m a v) a = v mod 4294967296.
Proof.
  rewrite word32_mod. unfold load32, store32.
  destruct (host_big_endian env);
    repeat (rewrite ?load8_store8_same; rewrite ?load8_store8_other by lia);
    lia.
Qed.

(** Two memories that agree on the bytes of a field agree on the field. *)
Lemma load16_ext (m m' : mem) (a : ptr) :
  (forall b, a <= b < a + 2 -> load8 m' b = load8 m b) ->
  load16 env m' a = load16 env m a.
Proof.
  intros H. unfold load16. rewrite !H by lia. reflexivity.
Qed.

Lemma load32_ext (m m' : mem) (a : ptr) :
  (forall b, a <= b < a + 4 -> load8 m' b = load8 m b) ->
  load32 env m' a = load32 env m a.
Proof.
  intros H. unfold load32. rewrite !H by lia. reflexivity.
Qed.
End LoadStore.


Section FieldFrames.
Variable env : Env.

Lemma load16_store8_other (m : mem) (a b : ptr) (v : Z) :
  a < b \/ b + 2 <= a -> load16 env (store8 m a v) b = load16 env m b.
Proof.
  intros H. apply load16_ext. intros c Hc.
  apply load8_store8_other. lia.
Qed.

Lemma load16_store16_other (m : mem) (a b : ptr) (v : Z) :
  a + 2 <= b \/ b + 2 <= a ->
  load16 env (store16 env m a v) b = load16 env m b.
Proof.
  intros H. apply load16_ext. intros c Hc.
  apply load8_store16_other. lia.
Qed.

Lemma load16_store32_other (m : mem) (a b : ptr) (v : Z) :
  a + 4 <= b \/ b + 2 <= a ->
  load16 env (store32 env m a v) b = load16 env m b.
Proof.
  intros H. apply load16_ext. intros c Hc.
  apply load8_store32_other. lia.
Qed.

Lemma load32_store8_other (m : mem) (a b : ptr) (v : Z) :
  a < b \/ b + 4 <= a -> load32 env (store8 m a v) b = load32 env m b.
Proof.
  intros H. apply load32_ext. intros c Hc.
  apply load8_store8_other. lia.
Qed.

Lemma load32_store16_other (m : mem) (a b : ptr) (v : Z) :
  a + 2 <= b \/ b + 4 <= a ->
  load32 env (store16 env m a v) b = load32 env m b.
Proof.
  intros H. apply load32_ext. intros c Hc.
  apply load8_store16_other. lia.
Qed.

Lemma load32_store32_other (m : mem) (a b : ptr) (v : Z) :
  a + 4 <= b \/ b + 4 <= a ->
  load32 env (store32 env m a v) b = load32 env m b.
Proof.
  intros H. apply load32_ext. intros c Hc.
  apply load8_store32_other. lia.
Qed.
End FieldFrames.

(** Reading a header field through the stores to the other fields. *)
Ltac peel_stores :=
  repeat first
    [ rewrite load8_store8_other by lia
    | rewrite load8_store16_other by lia
    | rewrite load8_store32_other by lia
    | rewrite load16_store8_other by lia
    | rewrite load16_store16_other by lia
    | rewrite load16_store32_other by lia
    | rewrite load32_store8_other by lia
    | rewrite load32_store16_other by lia
    | rewrite load32_store32_other by lia ].

Ltac unfold_fields :=
  unfold th_sport, th_dport, th_seq, th_ack, th_offx2, th_flags, th_win,
    th_sum, th_urp, set_th_sport, set_th_dport, set_th_seq, set_th_ack,
    set_tcp_offset, set_th_offx2, set_th_flags, set_th_win, set_th_sum,
    set_th_urp in *.

Section EncodeFacts.
Variable env : Env.

(** The control stage writes the data offset, the flags, the window and
    the urgent pointer and leaves the first twelve bytes alone. *)
Lemma encode_control_low (enc : EncState) (mo : mem) (ho : ptr) (b : ptr) :
  b < ho + 12 -> load8 (encode_control env enc mo ho) b = load8 mo b.
Proof.
  intros Hb. unfold encode_control. unfold_fields.
  destruct (is_fin_or_push (enc_type enc)); [destruct (is_push (enc_type enc))|];
    peel_stores; reflexivity.
Qed.


(** The sequence flag stage writes the sequence number and nothing
    else. *)
Lemma encode_seq_flag_other (enc : EncState) (mo : mem) (ho : ptr) (b : ptr) :
  b < ho + 4 \/ ho + 8 <= b ->
  load8 (encode_seq_flag env enc mo ho) b = load8 mo b.
Proof.
  intros Hb. unfold encode_seq_flag. unfold_fields.
  destruct (negb _); peel_stores; reflexivity.
Qed.


(** The direction stage on a forward encode. *)
Lemma encode_direction_forward (mi : mem) (hi : ptr) (enc : EncState)
    (mo : mem) (ho : ptr) :
  forward env (enc_flags enc) = true ->
  let mo' := encode_direction env mi hi enc mo ho in
  th_sport env mo' ho = th_sport env mi hi
  /\ th_dport env mo' ho = th_dport env mi hi
  /\ ntohl env (th_seq env mo' ho)
     = (if DAQ_interface_inline env then ntohl env (th_seq env mi hi)
        else next_seq env mi hi enc)
  /\ th_ack env mo' ho = th_ack env mi hi.
Proof.
  intros Hf. unfold encode_direction, next_seq. rewrite Hf. unfold_fields.
  pose proof (load16_range env mi hi). pose proof (load16_range env mi (hi + 2)).
  pose proof (load32_range env mi (hi + 4)).
  pose proof (load32_range env mi (hi + 8)).
  repeat split.
  - destruct (negb _); peel_stores; rewrite load16_store16_same;
      apply Z.mod_small; lia.
  - destruct (negb _); peel_stores; rewrite load16_store16_same;
      apply Z.mod_small; lia.
  - destruct (DAQ_interface_inline env); cbn [negb]; peel_stores;
      rewrite load32_store32_same.
    + rewrite Z.mod_small by lia. reflexivity.
    + rewrite (Z.mod_small (htonl env _))
        by (apply htonl_range, Z.mod_pos_bound; lia).
      apply ntohl_htonl. apply Z.mod_pos_bound. lia.
  - rewrite load32_store32_same. apply Z.mod_small. lia.
Qed.

(** The direction stage on a reverse encode. *)
Lemma encode_direction_reverse (mi : mem) (hi : ptr) (enc : EncState)
    (mo : mem) (ho : ptr) :
  forward env (enc_flags enc) = false ->
  let mo' := encode_direction env mi hi enc mo ho in
  th_sport env mo' ho = th_dport env mi hi
  /\ th_dport env mo' ho = th_sport env mi hi
  /\ ntohl env (th_seq env mo' ho) = ntohl env (th_ack env mi hi)
  /\ ntohl env (th_ack env mo' ho) = next_seq env mi hi enc.
Proof.
  intros Hf. unfold encode_direction, next_seq. rewrite Hf. unfold_fields.
  pose proof (load16_range env mi hi). pose proof (load16_range env mi (hi + 2)).
  pose proof (load32_range env mi (hi + 4)).
  pose proof (load32_range env mi (hi + 8)).
  repeat split.
  - peel_stores. rewrite load16_store16_same. apply Z.mod_small. lia.
  - peel_stores. rewrite load16_store16_same. apply Z.mod_small. lia.
  - peel_stores. rewrite load32_store32_same, Z.mod_small by lia. reflexivity.
  - rewrite load32_store32_same.
    rewrite (Z.mod_small (htonl env _))
      by (apply htonl_range, Z.mod_pos_bound; lia).
    apply ntohl_htonl. apply Z.mod_pos_bound. lia.
Qed.
End EncodeFacts.

(** ** The response header *)

Section EncodeResult.
Variable env : Env.

Lemma encode_checksum_other (enc : EncState) (out : Buffer) (ho : ptr)
    (b : ptr) :
  b < ho + 16 \/ ho + 18 <= b ->
  load8 (encode_checksum env enc out ho) b = load8 (buf_mem out) b.
Proof.
  intros Hb. unfold encode_checksum. unfold_fields.
  destruct (is_ip4 _); peel_stores; reflexivity.
Qed.


(** The bytes of the header before the checksum field are those the
    direction and sequence flag stages left. *)
Lemma encode_low_bytes (mi : mem) (enc e1 : EncState) (out2 : Buffer)
    (raw_in : ptr) (b : ptr) :
  b < base out2 + 12 ->
  load8 (encode_checksum env e1
           (set_buf_mem out2
              (encode_header env mi raw_in enc (buf_mem out2) (base out2)))
           (base out2)) b
  = load8 (encode_seq_flag env enc
             (encode_direction env mi raw_in enc (buf_mem out2) (base out2))
             (base out2)) b.
Proof.
  intros Hb. rewrite encode_checksum_other by lia.
  cbn [buf_mem set_buf_mem]. unfold encode_header. cbv zeta.
  apply encode_control_low. exact Hb.
Qed.
End EncodeResult.




(** ** [update] *)

(** C7 (as amended).  [update] returns [true] and advances [*len] by the
    header length plus [dsize] in every call.  It skips the recomputation
    of the checksum, leaving the header as it is, exactly when the packet
    was cooked and is not a rebuilt fragment; otherwise it zeroes the
    checksum field, computes the checksum over the pseudoheader and the
    advanced [*len] bytes and writes it into the field. *)
Theorem update_len_and_checksum (env : Env) (m : mem) (p : Packet)
    (lyr_start : ptr) (len : Z) :
  exists m',
    update env m p lyr_start len
    = (true, m', (len + (hdr_len m lyr_start + dsize p)) mod 4294967296)
    /\ (cooked_not_rebuilt env p = true -> m' = m)
    /\ (cooked_not_rebuilt env p = false ->
        let len' := (len + (hdr_len m lyr_start + dsize p)) mod 4294967296 in
        let m0 := set_th_sum env m lyr_start 0 in
        m' = set_th_sum env m0 lyr_start
               (update_csum env m0 lyr_start len' (ip_api p))
        /\ th_sum env m0 lyr_start = 0
        /\ th_sum env m' lyr_start
           = update_csum env m0 lyr_start len' (ip_api p) mod 65536).
Proof.
  unfold update, cooked_not_rebuilt.
  destruct (PacketWasCooked env p);
    destruct (Z.land (packet_flags p) (PKT_REBUILT_FRAG env) =? 0);
    cbn [negb orb andb]; eexists; (split; [reflexivity|]);
    (split; [intros H; try discriminate H; reflexivity|]);
    intros H; try discriminate H; cbv zeta;
    (split; [reflexivity|]); unfold th_sum, set_th_sum;
    rewrite !load16_store16_same; split; reflexivity.
Qed.

(** The SYN of S1 in a packet that was not cooked, and in a cooked one. *)
Lemma update_len_and_checksum_witness :
  (exists m',
     update env_passive seg_syn (sample_packet 1 0 0) 0 0 = (true, m', 20)
     /\ th_sum env_passive m' 0
        = update_csum env_passive (set_th_sum env_passive seg_syn 0 0) 0 20
            (sample_ip 1) mod 65536)
  /\ update env_passive seg_syn (sample_packet 1 0 0x80) 0 0
     = (true, seg_syn, 20).
Proof.
  split.
  - destruct (update_len_and_checksum env_passive seg_syn
                (sample_packet 1 0 0) 0 0) as (m' & H1 & _ & H3).
    exists m'. split; [exact H1|]. apply H3. reflexivity.
  - destruct (update_len_and_checksum env_passive seg_syn
                (sample_packet 1 0 0x80) 0 0) as (m' & H1 & H2 & _).
    rewrite H1. rewrite (H2 eq_refl). reflexivity.
Defined.

(** For a cooked packet that is not a rebuilt fragment [update] skips the
    recomputation and still advances [*len], here from 0 to 20. *)
Lemma update_advances_len_when_skipping :
  cooked_not_rebuilt env_passive (sample_packet 1 0 0x80) = true
  /\ exists m' len',
       update env_passive seg_syn (sample_packet 1 0 0x80) 0 0
       = (true, m', len')
       /\ m' = seg_syn /\ len' = 20 /\ len' <> 0.
Proof.
  split; [reflexivity|].
  do 2 eexists. split; [reflexivity|].
  repeat split. discriminate.
Qed.

(** ** The sequence number of the NAPTHA test *)

Lemma bswap32_eq_iff (x a : Z) :
  0 <= x < 4294967296 -> 0 <= a < 4294967296 ->
  x = a <-> bswap32 x = bswap32 a.
Proof.
  intros Hx Ha. split; [intros ->; reflexivity|].
  intros H. rewrite <- (bswap32_involutive x Hx), H.
  apply bswap32_involutive, Ha.
Qed.

(** For a segment whose flags are exactly SYN, [decode] raises DOS_NAPTHA
    if and only if it decodes the segment successfully, the field [th_seq],
    as the host reads it from the header without converting its byte
    order, equals 6060842, and the IP id equals 413. *)
Lemma decode_naptha_iff (env : Env) (m : mem) (raw_pkt : ptr) (raw_len : Z)
    (w : World) (ret : bool) (lyr : option Z) (w' : World) :
  length (tcp_options (pkt w)) = 40%nat ->
  decode env m raw_pkt raw_len w = Ok (ret, lyr, w') ->
  th_flags m raw_pkt = TH_SYN ->
  exists new,
    trace w' = trace w ++ new
    /\ (In (Event DECODE_DOS_NAPTHA) new
        <-> ret = true
            /\ th_seq env m raw_pkt = 6060842
            /\ ip_id (ip_api (pkt w)) = 413).
Proof.
  intros Hl Hd Hf. destruct ret.
  2:{ apply decode_failure_events in Hd as (new & Ht & He).
      exists new. split; [exact Ht|]. split.
      - intros Hin. apply He in Hin as [H | [H | H]]; discriminate H.
      - intros [H _]. discriminate H. }
  apply decode_success_inv in Hd
    as (H1 & H2 & w1 & pre & Hr & Ht & Hi & Ho & Htr & Hpre).
  unfold decode_rest in Hr.
  destruct (decode_flag_tests_pure_syn env m w1 raw_pkt Ht Hf)
    as (w2 & Hw2 & F2).
  rewrite Hw2 in Hr. cbn [bind] in Hr.
  destruct (decode_payload_frame env m raw_pkt raw_len (hdr_len m raw_pkt)
              w2 raw_pkt) as (w3 & Hw3 & F3).
  - destruct F2 as (-> & _).
    destruct (_ && _); [cbn|]; exact Ht.
  - destruct F2 as (_ & _ & _ & -> & _).
    destruct (_ && _); [cbn|]; rewrite Ho; exact Hl.
  - lia.
  - rewrite Hw3 in Hr. injection Hr as <-.
    pose proof (frame_trans _ _ _ _ F2 F3) as (_ & _ & _ & _ & evs & Fe & Fn).
    rewrite Hi in Fe.
    assert (Hno : ~ In (Event DECODE_DOS_NAPTHA) (pre ++ map Event evs)).
    { intros Hin. apply in_app_or in Hin as [Hin | Hin].
      - destruct Hpre as [-> | ->]; cbn in Hin; intuition discriminate.
      - apply in_map_iff in Hin as (e & [= ->] & Hin).
        rewrite List.Forall_forall in Fn. exact (Fn _ Hin eq_refl). }
    destruct ((th_seq env m raw_pkt =? 6060842)
              && (ip_id (ip_api (pkt w)) =? 413)) eqn:E.
    + exists (TcphStore (Some raw_pkt) :: pre
              ++ Event DECODE_DOS_NAPTHA :: map Event evs).
      split.
      * rewrite Fe. cbn. rewrite Htr, <- !app_assoc. reflexivity.
      * split; [intros _; split; [reflexivity | lia]|]. intros _. right.
        apply in_or_app. right. left. reflexivity.
    + exists (TcphStore (Some raw_pkt) :: pre ++ map Event evs).
      split.
      * rewrite Fe, Htr, <- !app_assoc. reflexivity.
      * split; [|lia]. intros [Hin | Hin]; [discriminate|].
        exfalso. exact (Hno Hin).
Qed.


(** On a big-endian host the NAPTHA test is on the sequence number
    6060842; on a little-endian host it is on the sequence number
    712727552, whose bytes are those of 6060842 in reverse. *)
Lemma decode_naptha_seq_number (env : Env) (m : mem) (raw_pkt : ptr)
    (raw_len : Z) (w : World) (ret : bool) (lyr : option Z) (w' : World) :
  length (tcp_options (pkt w)) = 40%nat ->
  decode env m raw_pkt raw_len w = Ok (ret, lyr, w') ->
  th_flags m raw_pkt = TH_SYN ->
  exists new,
    trace w' = trace w ++ new
    /\ (In (Event DECODE_DOS_NAPTHA) new
        <-> ret = true
            /\ seq_number env m raw_pkt
               = (if host_big_endian env then 6060842 else 712727552)
            /\ ip_id (ip_api (pkt w)) = 413).
Proof.
  intros Hl Hd Hf.
  destruct (decode_naptha_iff env m raw_pkt raw_len w ret lyr w' Hl Hd Hf)
    as (new & Ht & Hiff).
  exists new. split; [exact Ht|]. rewrite Hiff.
  unfold seq_number, ntohl.
  destruct (host_big_endian env); [reflexivity|].
  pose proof (load32_range env m (raw_pkt + 4)) as Hr.
  change 712727552 with (bswap32 6060842).
  unfold th_seq.
  rewrite <- (bswap32_eq_iff (load32 env m (raw_pkt + 4)) 6060842) by lia.
  reflexivity.
Qed.

(** C6.  The code at the failing input: on a little-endian host, the pure
    SYN with the sequence number 6060842 under the IP id 413 is decoded
    successfully and DOS_NAPTHA is not raised; it is raised for the pure
    SYN with the sequence number 712727552, and on a big-endian host for
    the sequence number 6060842. *)
Theorem naptha_missed_on_little_endian :
  (host_big_endian env_passive = false
   /\ th_flags naptha_wire_segment 0 = TH_SYN
   /\ seq_number env_passive naptha_wire_segment 0 = 6060842
   /\ ip_id (ip_api (pkt (sample_world 413 0))) = 413
   /\ exists w',
        decode env_passive naptha_wire_segment 0 20 (sample_world 413 0)
        = Ok (true, Some 20, w')
        /\ ~ In (Event DECODE_DOS_NAPTHA) (trace w'))
  /\ (th_flags naptha_segment 0 = TH_SYN
      /\ seq_number env_passive naptha_segment 0 = 712727552
      /\ exists w',
           decode env_passive naptha_segment 0 20 (sample_world 413 0)
           = Ok (true, Some 20, w')
           /\ In (Event DECODE_DOS_NAPTHA) (trace w'))
  /\ (host_big_endian env_big_endian = true
      /\ seq_number env_big_endian naptha_wire_segment 0 = 6060842
      /\ exists w',
           decode env_big_endian naptha_wire_segment 0 20 (sample_world 413 0)
           = Ok (true, Some 20, w')
           /\ In (Event DECODE_DOS_NAPTHA) (trace w')).
Proof.
  split; [|split].
  - split; [reflexivity|]. split; [reflexivity|].
    split; [vm_compute; reflexivity|]. split; [reflexivity|].
    eexists. split; [vm_compute; reflexivity|].
    cbn. intros [H | []]. discriminate H.
  - split; [reflexivity|]. split; [vm_compute; reflexivity|].
    eexists. split; [vm_compute; reflexivity|].
    cbn. auto.
  - split; [reflexivity|]. split; [vm_compute; reflexivity|].
    eexists. split; [vm_compute; reflexivity|].
    cbn. auto.
Qed.


(* ===================================================================== *)
(** * Part III: further properties of the codec *)
(* ===================================================================== *)

(** ** Loops *)

Section WhileRule.
Context {S R : Type}.
Variable cond : S -> bool.
Variable body : S -> res (step S R).

(** Partial correctness of [while]: an invariant of the turns that go
    round holds when the condition fails, and what the body establishes
    when it returns holds of the value returned. *)
Lemma while_rule (I : S -> Prop) (Q : R -> Prop) :
  (forall s s', I s -> cond s = true -> body s = Ok (Next s') -> I s') ->
  (forall s r, I s -> cond s = true -> body s = Ok (Return r) -> Q r) ->
  forall (fuel : nat) (s : S), I s ->
    match while cond body fuel s with
    | Ok (Next s') => I s' /\ cond s' = false
    | Ok (Return r) => Q r
    | Fault _ => True
    end.
Proof.
  intros Hnext Hret. induction fuel as [|n IH]; intros s HI; cbn [while].
  - destruct (cond s) eqn:C; [exact Logic.I | split; [exact HI | exact C]].
  - destruct (cond s) eqn:C; [|split; [exact HI | exact C]].
    destruct (body s) as [[s'|r]|f] eqn:B.
    + apply IH. eapply Hnext; eauto.
    + eapply Hret; eauto.
    + exact Logic.I.
Qed.

(** Two loops whose bodies agree wherever an invariant of the first holds
    run in step. *)
Lemma while_ext (body' : S -> res (step S R)) (I : S -> Prop) :
  (forall s s', I s -> cond s = true -> body s = Ok (Next s') -> I s') ->
  (forall s, I s -> cond s = true -> body' s = body s) ->
  forall (fuel : nat) (s : S), I s ->
    while cond body' fuel s = while cond body fuel s.
Proof.
  intros Hnext Hext. induction fuel as [|n IH]; intros s HI; cbn [while].
  - reflexivity.
  - destruct (cond s) eqn:C; [|reflexivity].
    rewrite (Hext s HI C).
    destruct (body s) as [[s'|r]|f] eqn:B; try reflexivity.
    apply IH. eapply Hnext; eauto.
Qed.
End WhileRule.


(** ** The validator's contract *)

Lemma OptLenValidate_cases (m : mem) (option_ptr end_ : ptr)
    (len_ptr : option ptr) (expected_len : Z) (tcpopt : Options) :
  (exists lp,
     len_ptr = Some lp
     /\ 2 <= load8 m lp <= 255
     /\ option_ptr + load8 m lp <= end_
     /\ (1 < expected_len -> load8 m lp = expected_len)
     /\ expected_len <> 0 /\ expected_len <> 1
     /\ OptLenValidate m option_ptr end_ len_ptr expected_len tcpopt
        = (0,
           {| opt_code := opt_code tcpopt;
              opt_len := load8 m lp - 2;
              opt_data := if load8 m lp =? 2 then None
                          else Some (option_ptr + 2) |},
           load8 m lp))
  \/ (exists c,
        (c = OPT_TRUNC \/ c = OPT_BADLEN)
        /\ OptLenValidate m option_ptr end_ len_ptr expected_len tcpopt
           = (c, tcpopt, 0)).
Proof.
  unfold OptLenValidate.
  destruct len_ptr as [lp|]; [|right; eexists; split; [left|]; reflexivity].
  pose proof (load8_range m lp) as Hr.
  destruct (load8 m lp =? 0) eqn:E0; cbn [orb];
    [right; eexists; split; [right|]; reflexivity|].
  destruct (expected_len =? 0) eqn:E1; cbn [orb];
    [right; eexists; split; [right|]; reflexivity|].
  destruct (expected_len =? 1) eqn:E2; cbn [orb];
    [right; eexists; split; [right|]; reflexivity|].
  destruct (1 <? expected_len) eqn:E3.
  - destruct (end_ <? option_ptr + expected_len) eqn:E4;
      [right; eexists; split; [left|]; reflexivity|].
    destruct (load8 m lp =? expected_len) eqn:E5; cbn [negb];
      [|right; eexists; split; [right|]; reflexivity].
    left. exists lp. rewrite (Z.mod_small (load8 m lp - 2)) by lia.
    repeat split; lia.
  - destruct (load8 m lp <? 2) eqn:E4;
      [right; eexists; split; [right|]; reflexivity|].
    destruct (end_ <? option_ptr + load8 m lp) eqn:E5;
      [right; eexists; split; [left|]; reflexivity|].
    left. exists lp. rewrite (Z.mod_small (load8 m lp - 2)) by lia.
    repeat split; lia.
Qed.

(** X1.  [OptLenValidate] either accepts the option or refuses it with
    OPT_TRUNC or OPT_BADLEN.  When it accepts, the length pointer is not
    null, the skip is the length byte, at least 2, the option ends at or
    before [end], the record keeps its kind and gets the payload length
    [skip - 2] and the payload pointer [option_ptr + 2], null exactly for
    a length byte of 2, and a fixed expected length is the length byte.
    When it refuses, the record is left as it was and the skip is 0. *)
Theorem OptLenValidate_contract (m : mem) (option_ptr end_ : ptr)
    (len_ptr : option ptr) (expected_len : Z) (tcpopt : Options) :
  let '(c, o, skip) :=
    OptLenValidate m option_ptr end_ len_ptr expected_len tcpopt in
  (c = 0
   /\ (exists lp, len_ptr = Some lp /\ skip = load8 m lp)
   /\ 2 <= skip <= 255
   /\ option_ptr + skip <= end_
   /\ (1 < expected_len -> skip = expected_len)
   /\ opt_code o = opt_code tcpopt
   /\ opt_len o = skip - 2
   /\ opt_data o = (if skip =? 2 then None else Some (option_ptr + 2)))
  \/ ((c = OPT_TRUNC \/ c = OPT_BADLEN) /\ o = tcpopt /\ skip = 0).
Proof.
  destruct (OptLenValidate_cases m option_ptr end_ len_ptr expected_len tcpopt)
    as [(lp & Hlp & Hr & He & Hx & _ & _ & ->) | (c & Hc & ->)].
  - left. split; [reflexivity|]. split; [exists lp; auto|].
    repeat split; auto; lia.
  - right. auto.
Qed.


(** ** One turn of the walker *)

Section TurnFacts.
Variable env : Env.
Variable m : mem.
Variable end_ptr : ptr.

Lemma validate_turn (len_ptr : option ptr) (e : Z) (s0 s : Walk) (w : World)
    (s' : Walk) (w' : World) :
  (Z.to_nat (opt_count s) < length (tcp_options (pkt w)))%nat ->
  option_ptr s0 = option_ptr s -> opt_count s0 = opt_count s ->
  validate m end_ptr len_ptr e s0 w = (s', w') ->
  turn_post end_ptr s w s' w'
  /\ trace w' = trace w
  /\ (code s' = 0 ->
      exists lp,
        len_ptr = Some lp
        /\ (1 < e -> load8 m lp = e)
        /\ option_ptr s + load8 m lp <= end_ptr
        /\ opt_data (get_option w' (opt_count s))
           = (if load8 m lp =? 2 then None else Some (option_ptr s + 2))).
Proof.
  intros Hlen Hp Hc. unfold validate. rewrite Hp, Hc.
  destruct (OptLenValidate_cases m (option_ptr s) end_ptr len_ptr e
              (get_option w (opt_count s)))
    as [(lp & Hlp & Hr & He & Hx & _ & _ & ->) | (c & Hcode & ->)];
    intros [= <- <-].
  - split; [|split; [reflexivity|]].
    + unfold turn_post, same_but_options. cbn.
      split; [exact Hp|]. split; [exact Hc|].
      split; [repeat split|]. split; [reflexivity|].
      split; [apply length_insert|].
      split; [intros i Hi; apply list_lookup_insert_ne; congruence|].
      left. split; [reflexivity|]. split; [lia|]. split; [exact He|].
      split; [|left; reflexivity].
      eexists. split; [apply list_lookup_insert_eq; exact Hlen|].
      cbn. split; [reflexivity|].
      destruct (load8 m lp =? 2) eqn:E2; lia.
    + intros _. exists lp. rewrite get_put_option by exact Hlen. cbn. auto.
  - split; [|split; [reflexivity|]].
    + unfold turn_post, same_but_options. cbn.
      split; [exact Hp|]. split; [exact Hc|].
      split; [repeat split|]. split; [reflexivity|].
      split; [apply length_insert|].
      split; [intros i Hi; apply list_lookup_insert_ne; congruence|].
      right. split; [|reflexivity]. destruct Hcode; auto.
    + cbn. unfold OPT_TRUNC, OPT_BADLEN in Hcode. lia.
Qed.

Lemma turn_validate (len_ptr : option ptr) (e : Z) (s0 s : Walk) (w : World)
    (s' : Walk) (w' : World) :
  (Z.to_nat (opt_count s) < length (tcp_options (pkt w)))%nat ->
  option_ptr s0 = option_ptr s -> opt_count s0 = opt_count s ->
  Ok (validate m end_ptr len_ptr e s0 w) = Ok (s', w') ->
  turn_post end_ptr s w s' w'.
Proof.
  intros Hlen Hp Hc [= H]. eapply validate_turn; eauto.
Qed.

Lemma turn_nop (s0 s : Walk) (w : World) (s' : Walk) (w' : World) :
  (Z.to_nat (opt_count s) < length (tcp_options (pkt w)))%nat ->
  option_ptr s < end_ptr ->
  option_ptr s0 = option_ptr s -> opt_count s0 = opt_count s ->
  Ok (nop_case s0 w) = Ok (s', w') ->
  turn_post end_ptr s w s' w'.
Proof.
  intros Hlen Hin Hp Hc [= <- <-].
  unfold turn_post, same_but_options. cbn. rewrite Hc.
  split; [exact Hp|]. split; [reflexivity|].
  split; [repeat split|]. split; [reflexivity|].
  split; [apply length_insert|].
  split; [intros i Hi; apply list_lookup_insert_ne; congruence|].
  left. split; [reflexivity|]. split; [lia|]. split; [lia|].
  split; [|left; reflexivity].
  eexists. split; [apply list_lookup_insert_eq; exact Hlen|].
  cbn. auto.
Qed.

Lemma turn_wscale (len_ptr : option ptr) (s : Walk) (w : World)
    (s' : Walk) (w' : World) :
  (Z.to_nat (opt_count s) < length (tcp_options (pkt w)))%nat ->
  (let '(s, w) := validate m end_ptr len_ptr TCPOLEN_WSCALE s w in
   if code s =? 0 then
     match opt_data (get_option w (opt_count s)) with
     | Some d =>
         if 14 <? load8 m d
         then Ok (s, decoder_event w DECODE_TCPOPT_WSCALE_INVALID)
         else Ok (s, w)
     | None => Fault NullDeref
     end
   else Ok (s, w)) = Ok (s', w') ->
  turn_post end_ptr s w s' w'.
Proof.
  intros Hlen.
  destruct (validate m end_ptr len_ptr TCPOLEN_WSCALE s w) as [s1 w1] eqn:V.
  apply (validate_turn _ _ s s) in V as (Hpost & Htr & Hz);
    [|exact Hlen|reflexivity|reflexivity].
  destruct (code s1 =? 0) eqn:E; [|intros [= <- <-]; exact Hpost].
  destruct (opt_data (get_option w1 (opt_count s1))) as [d|]; [|discriminate].
  destruct (14 <? load8 m d); intros [= <- <-]; [|exact Hpost].
  unfold turn_post in *.
  destruct Hpost as (H1 & H2 & H3 & H4 & H5 & H6 & H7).
  cbn [pkt decoder_event trace].
  repeat (split; [assumption|]).
  left. destruct H7 as [(Ha & Hb & Hc & Hd & _) | [[Ha | Ha] _]];
    [ | unfold OPT_BADLEN in Ha; lia | unfold OPT_TRUNC in Ha; lia].
  repeat (split; [assumption|]).
  right. rewrite Htr. reflexivity.
Qed.

Lemma turn_auth (len_ptr : option ptr) (s : Walk) (w : World)
    (s' : Walk) (w' : World) :
  (Z.to_nat (opt_count s) < length (tcp_options (pkt w)))%nat ->
  (if match len_ptr with
      | Some lp => load8 m lp <? 4
      | None => false
      end
   then Ok (set_code s OPT_BADLEN, w)
   else Ok (validate m end_ptr len_ptr (-1) s w)) = Ok (s', w') ->
  turn_post end_ptr s w s' w'.
Proof.
  intros Hlen.
  destruct (match len_ptr with Some lp => load8 m lp <? 4 | None => false end).
  - intros [= <- <-]. unfold turn_post, same_but_options. cbn.
    repeat split; auto.
  - apply turn_validate; auto.
Qed.

Lemma turn_sack (len_ptr : option ptr) (s : Walk) (w : World)
    (s' : Walk) (w' : World) :
  (Z.to_nat (opt_count s) < length (tcp_options (pkt w)))%nat ->
  (let '(s, w) := validate m end_ptr len_ptr (-1) s w in
   if (code s =? 0)
      && is_null (opt_data (get_option w (opt_count s)))
   then Ok (set_code s OPT_BADLEN, w)
   else Ok (s, w)) = Ok (s', w') ->
  turn_post end_ptr s w s' w'.
Proof.
  intros Hlen.
  destruct (validate m end_ptr len_ptr (-1) s w) as [s1 w1] eqn:V.
  apply (validate_turn _ _ s s) in V as (Hpost & Htr & _);
    [|exact Hlen|reflexivity|reflexivity].
  destruct ((code s1 =? 0)
            && is_null (opt_data (get_option w1 (opt_count s1))));
    intros [= <- <-]; [|exact Hpost].
  unfold turn_post in *.
  destruct Hpost as (H1 & H2 & H3 & H4 & H5 & H6 & H7).
  cbn [option_ptr opt_count set_code code].
  repeat (split; [assumption|]).
  right. split; [left; reflexivity | exact Htr].
Qed.

(** The [switch], entered with the option pointer inside the region. *)
Lemma turn_switch (len_ptr : option ptr) (s : Walk) (w : World)
    (s' : Walk) (w' : World) :
  (Z.to_nat (opt_count s) < length (tcp_options (pkt w)))%nat ->
  option_ptr s < end_ptr ->
  DecodeTCPOptions_switch env m end_ptr len_ptr s w = Ok (s', w') ->
  turn_post end_ptr s w s' w'.
Proof.
  intros Hlen Hin. unfold DecodeTCPOptions_switch.
  destruct (load8 m (option_ptr s)) as [|k|k];
    [ apply turn_nop; auto | | apply turn_validate; auto ].
  do 5 (try destruct k as [k|k|]);
    first [ apply turn_nop; solve [auto]
          | apply turn_validate; solve [auto]
          | apply turn_wscale; solve [auto]
          | apply turn_auth; solve [auto]
          | apply turn_sack; solve [auto] ].
Qed.
End TurnFacts.


(** ** The walk as a whole *)

Lemma same_but_options_refl (p : Packet) : same_but_options p p.
Proof. unfold same_but_options. repeat split. Qed.

Lemma same_but_options_trans (p1 p2 p3 : Packet) :
  same_but_options p1 p2 -> same_but_options p2 p3 -> same_but_options p1 p3.
Proof. unfold same_but_options. intuition congruence. Qed.

Lemma repeat_snoc {A : Type} (x : A) (n : nat) :
  repeat x n ++ [x] = repeat x (Datatypes.S n).
Proof. induction n as [|n IH]; cbn; [|rewrite IH]; reflexivity. Qed.

Section WalkPost.
Variable env : Env.
Variable m : mem.
Variable start : ptr.
Variable end_ptr : ptr.
Variable w0 : World.

(** The option part of a turn, entered with the condition of the loop
    true. *)
Lemma turn_option (s : Walk) (w : World) (s1 : Walk) (w1 : World) :
  (Z.to_nat (opt_count s) < length (tcp_options (pkt w)))%nat ->
  option_ptr s < end_ptr ->
  DecodeTCPOptions_option env m end_ptr (s, w) = Ok (s1, w1) ->
  turn_post end_ptr s
    (put_option w (opt_count s)
       (set_opt_code (get_option w (opt_count s)) (load8 m (option_ptr s))))
    s1 w1.
Proof.
  intros Hlen Hin. unfold DecodeTCPOptions_option.
  apply turn_switch; [|exact Hin].
  cbn. rewrite length_insert. exact Hlen.
Qed.

Lemma walk_ok_next (sw sw' : Walk * World) :
  walk_ok m start end_ptr w0 sw ->
  DecodeTCPOptions_cond end_ptr sw = true ->
  DecodeTCPOptions_body env m end_ptr sw = Ok (Next sw') ->
  walk_ok m start end_ptr w0 sw'.
Proof.
  destruct sw as [s w]. unfold walk_ok. cbn [fst snd].
  intros (Hc & Hp & Hend & Hl & Hrec & Hsame & n & Htr & Hn) C.
  unfold DecodeTCPOptions_cond, TCP_OPTLENMAX in C. cbn [fst] in C.
  unfold DecodeTCPOptions_body.
  destruct (DecodeTCPOptions_option env m end_ptr (s, w)) as [[s1 w1]|f] eqn:O;
    cbn [bind]; [|discriminate].
  apply turn_option in O; [|lia|lia].
  destruct (code s1 <? 0) eqn:E; [discriminate|].
  intros [= <-]. cbn [fst snd walk_advance option_ptr opt_count].
  destruct O as (H1 & H2 & H3 & H4 & H5 & H6 & H7).
  cbn [pkt put_option with_pkt set_tcp_options tcp_options] in H5, H6.
  rewrite length_insert in H5.
  destruct H7 as [(Hz & Hskip & Hfit & (o & Ho & Hcode & Hdata) & Ht)
                 | [[Hx | Hx] _]];
    [ | unfold OPT_BADLEN in Hx; lia | unfold OPT_TRUNC in Hx; lia ].
  rewrite H1, H2. rewrite Z.mod_small by lia.
  split; [lia|]. split; [lia|]. split; [right; lia|].
  split; [congruence|]. split; [|split].
  - intros i Hi.
    destruct (decide (i = Z.to_nat (opt_count s))) as [-> | Hne].
    + exists o. split; [exact Ho|]. exists (option_ptr s).
      split; [lia|]. split.
      * rewrite Hcode. rewrite get_put_option by lia. reflexivity.
      * destruct (opt_data o) as [d|]; [|exact Hdata]. exact Hdata.
    + rewrite H6 by exact Hne. rewrite list_lookup_insert_ne by congruence.
      apply Hrec. lia.
  - eapply same_but_options_trans; [exact Hsame|].
    eapply same_but_options_trans; [|exact H3].
    unfold same_but_options. cbn. repeat split.
  - cbn [trace put_option with_pkt] in Ht.
    destruct Ht as [Ht | Ht].
    + exists n. split; [rewrite Ht; exact Htr | lia].
    + exists (Datatypes.S n). split; [|lia].
      rewrite Ht, Htr, <- app_assoc. f_equal.
      rewrite !app_nil_r. rewrite <- repeat_snoc, map_app. reflexivity.
Qed.

Lemma walk_ok_return (o_len : Z) (sw : Walk * World) (w' : World) :
  end_ptr = start + o_len ->
  walk_ok m start end_ptr w0 sw ->
  DecodeTCPOptions_cond end_ptr sw = true ->
  DecodeTCPOptions_body env m end_ptr sw = Ok (Return w') ->
  walk_done m start o_len w0 w'.
Proof.
  destruct sw as [s w]. unfold walk_ok. cbn [fst snd].
  intros He (Hc & Hp & Hend & Hl & Hrec & Hsame & n & Htr & Hn) C.
  unfold DecodeTCPOptions_cond, TCP_OPTLENMAX in C. cbn [fst] in C.
  unfold DecodeTCPOptions_body.
  destruct (DecodeTCPOptions_option env m end_ptr (s, w)) as [[s1 w1]|f] eqn:O;
    cbn [bind]; [|discriminate].
  apply turn_option in O; [|lia|lia].
  destruct (code s1 <? 0) eqn:E; [|discriminate].
  destruct O as (H1 & H2 & H3 & H4 & H5 & H6 & H7).
  cbn [pkt put_option with_pkt set_tcp_options tcp_options] in H5, H6.
  rewrite length_insert in H5.
  destruct H7 as [(Hz & _) | [Hx Ht]]; [lia|].
  cbn [trace put_option with_pkt] in Ht.
  assert (Hw : forall wx,
            pkt wx = pkt w1 ->
            trace wx = trace w1 ++ [Event (error_event (code s1))] ->
            walk_done m start o_len w0
              (with_pkt wx (fun p => set_tcp_option_count p (opt_count s1)))).
  { intros wx Hpk Htx. unfold walk_done.
    cbn [pkt with_pkt set_tcp_option_count tcp_option_count tcp_options].
    rewrite Hpk, H2.
    split; [lia|]. split; [congruence|]. split; [|split].
    - intros i Hi. rewrite H6 by lia.
      rewrite list_lookup_insert_ne by lia.
      subst end_ptr. apply Hrec. exact Hi.
    - eapply same_but_options_trans; [exact Hsame|].
      eapply same_but_options_trans;
        [|eapply same_but_options_trans; [exact H3|]].
      + unfold same_but_options. cbn. repeat split.
      + unfold same_but_options. cbn. repeat split.
    - exists n, [error_event (code s1)]. split.
      + split; [|exact Hn]. cbn [trace with_pkt].
        rewrite Htx, Ht, Htr, <- app_assoc. f_equal.
        rewrite app_nil_r, map_app. reflexivity.
      + right. eexists. split; [reflexivity|].
        unfold closing_event, error_event.
        destruct (code s1 =? OPT_BADLEN); cbn; auto. }
  unfold OPT_BADLEN, OPT_TRUNC, error_event in *.
  destruct Hx as [Hx | Hx]; rewrite Hx in *; cbn [Z.eqb Pos.eqb];
    intros [= <-]; apply Hw; reflexivity.
Qed.

Lemma walk_ok_finish (o_len : Z) (s : Walk) (w : World) :
  end_ptr = start + o_len ->
  walk_ok m start end_ptr w0 (s, w) ->
  walk_done m start o_len w0 (DecodeTCPOptions_finish s w).
Proof.
  unfold walk_ok. cbn [fst snd].
  intros He (Hc & Hp & Hend & Hl & Hrec & Hsame & n & Htr & Hn).
  assert (Hw : forall wx last,
            pkt wx = set_tcp_option_count (pkt w) (opt_count s) ->
            trace wx = trace w ++ map Event last ->
            last = [] \/ (exists e, last = [e] /\ closing_event e) ->
            walk_done m start o_len w0 wx).
  { intros wx last Hpk Htx Hlast. unfold walk_done. rewrite Hpk.
    cbn [tcp_option_count set_tcp_option_count tcp_options].
    split; [lia|]. split; [exact Hl|]. split; [|split].
    - subst end_ptr. exact Hrec.
    - eapply same_but_options_trans; [exact Hsame|].
      unfold same_but_options. cbn. repeat split.
    - exists n, last. split; [|exact Hlast].
      split; [|exact Hn].
      rewrite Htx, Htr, <- app_assoc, app_nil_r, map_app. reflexivity. }
  unfold DecodeTCPOptions_finish.
  destruct (experimental_option_found s);
    [|destruct (obsolete_option_found s); [|destruct (ttcp_found s)]].
  - apply (Hw _ [DECODE_TCPOPT_EXPERIMENTAL]); [reflexivity..|].
    right. eexists. split; [reflexivity|]. unfold closing_event. cbn. auto 10.
  - apply (Hw _ [DECODE_TCPOPT_OBSOLETE]); [reflexivity..|].
    right. eexists. split; [reflexivity|]. unfold closing_event. cbn. auto 10.
  - apply (Hw _ [DECODE_TCPOPT_TTCP]); [reflexivity..|].
    right. eexists. split; [reflexivity|]. unfold closing_event. cbn. auto 10.
  - apply (Hw _ []); [reflexivity| |left; reflexivity].
    cbn. rewrite app_nil_r. reflexivity.
Qed.
End WalkPost.

(** What the walker leaves behind for a region of at most 40 bytes. *)
Lemma DecodeTCPOptions_post (env : Env) (m : mem) (start : ptr) (o_len : Z)
    (w w' : World) :
  o_len <= TCP_OPTLENMAX ->
  length (tcp_options (pkt w)) = 40%nat ->
  DecodeTCPOptions env m start o_len w = Ok w' ->
  walk_done m start o_len w w'.
Proof.
  intros Hlen Hl. unfold DecodeTCPOptions.
  destruct (TCP_OPTLENMAX <? o_len) eqn:E; [lia|]. cbv zeta.
  pose proof (while_rule (DecodeTCPOptions_cond (start + o_len))
                (DecodeTCPOptions_body env m (start + o_len))
                (walk_ok m start (start + o_len) w)
                (walk_done m start o_len w)
                (walk_ok_next env m start (start + o_len) w)
                (fun sw r => walk_ok_return env m start (start + o_len) w
                               o_len sw r eq_refl)
                walk_fuel (walk_init start, w)) as H.
  destruct (while _ _ walk_fuel (walk_init start, w)) as [[[s1 w1]|w1]|f];
    cbn [bind]; [| |discriminate].
  - intros [= <-]. apply (walk_ok_finish m start (start + o_len) w o_len);
      [reflexivity|].
    apply H. unfold walk_ok. cbn [fst snd walk_init opt_count option_ptr].
    split; [lia|]. split; [lia|]. split; [left; reflexivity|].
    split; [exact Hl|]. split; [intros i Hi; cbn in Hi; lia|].
    split; [apply same_but_options_refl|].
    exists 0%nat. split; [|lia]. cbn. rewrite app_nil_r. reflexivity.
  - intros [= <-]. apply H. unfold walk_ok.
    cbn [fst snd walk_init opt_count option_ptr].
    split; [lia|]. split; [lia|]. split; [left; reflexivity|].
    split; [exact Hl|]. split; [intros i Hi; cbn in Hi; lia|].
    split; [apply same_but_options_refl|].
    exists 0%nat. split; [|lia]. cbn. rewrite app_nil_r. reflexivity.
Qed.


(** X2.  After a walk over a region of at most 40 bytes the option count
    is at most the number of bytes in the region, and every counted
    record describes an option inside the region: its kind is a byte of
    the region, and its payload pointer is null with a payload length of
    0 or points two bytes behind the kind, with all of the payload before
    the end of the region.  Of the packet the walk has changed nothing but
    the option array and the option count. *)
Theorem walker_records_within_region (env : Env) (m : mem) (start : ptr)
    (o_len : Z) (w w' : World) :
  o_len <= TCP_OPTLENMAX ->
  length (tcp_options (pkt w)) = 40%nat ->
  DecodeTCPOptions env m start o_len w = Ok w' ->
  0 <= tcp_option_count (pkt w') <= Z.max 0 o_len
  /\ (forall i,
        0 <= i < tcp_option_count (pkt w') ->
        exists p,
          start <= p < start + o_len
          /\ opt_code (get_option w' i) = load8 m p
          /\ match opt_data (get_option w' i) with
             | None => opt_len (get_option w' i) = 0
             | Some d =>
                 d = p + 2 /\ 1 <= opt_len (get_option w' i)
                 /\ d + opt_len (get_option w' i) <= start + o_len
             end)
  /\ same_but_options (pkt w) (pkt w').
Proof.
  intros Hlen Hl Hd.
  destruct (DecodeTCPOptions_post env m start o_len w w' Hlen Hl Hd)
    as (Hc & _ & Hrec & Hsame & _).
  split; [exact Hc|]. split; [|exact Hsame].
  intros i Hi. destruct (Hrec (Z.to_nat i)) as (o & Ho & Hw); [lia|].
  unfold get_option. rewrite Ho. exact Hw.
Qed.

(** The walk over a window scale option followed by a NOP. *)
Lemma walker_records_within_region_witness :
  exists w',
    DecodeTCPOptions env_passive wscale_option 0 4 (sample_world 1 0) = Ok w'
    /\ 0 <= tcp_option_count (pkt w') <= Z.max 0 4
    /\ (forall i,
          0 <= i < tcp_option_count (pkt w') ->
          exists p,
            0 <= p < 0 + 4
            /\ opt_code (get_option w' i) = load8 wscale_option p
            /\ match opt_data (get_option w' i) with
               | None => opt_len (get_option w' i) = 0
               | Some d =>
                   d = p + 2 /\ 1 <= opt_len (get_option w' i)
                   /\ d + opt_len (get_option w' i) <= 0 + 4
               end)
    /\ same_but_options (pkt (sample_world 1 0)) (pkt w').
Proof.
  destruct (DecodeTCPOptions env_passive wscale_option 0 4 (sample_world 1 0))
    as [w'|f] eqn:E; [|vm_compute in E; discriminate E].
  exists w'. split; [reflexivity|].
  apply (walker_records_within_region env_passive wscale_option 0 4
           (sample_world 1 0) w');
    [unfold TCP_OPTLENMAX; lia | reflexivity | exact E].
Defined.

(** X3.  The events of a walk over a region of at most 40 bytes are
    window scale events, no more of them than options were counted,
    followed by at most one other event, which is TCPOPT_BADLEN,
    TCPOPT_TRUNCATED, TCPOPT_EXPERIMENTAL, TCPOPT_OBSOLETE or TCPOPT_TTCP:
    the walker never raises an error together with a finding, nor two
    findings. *)
Theorem walker_events_shape (env : Env) (m : mem) (start : ptr)
    (o_len : Z) (w w' : World) :
  o_len <= TCP_OPTLENMAX ->
  length (tcp_options (pkt w)) = 40%nat ->
  DecodeTCPOptions env m start o_len w = Ok w' ->
  exists (n : nat) (last : list DecodeEvent),
    trace w' = trace w
               ++ map Event (repeat DECODE_TCPOPT_WSCALE_INVALID n ++ last)
    /\ Z.of_nat n <= tcp_option_count (pkt w')
    /\ (last = []
        \/ exists e,
             last = [e]
             /\ In e [DECODE_TCPOPT_BADLEN; DECODE_TCPOPT_TRUNCATED;
                      DECODE_TCPOPT_EXPERIMENTAL; DECODE_TCPOPT_OBSOLETE;
                      DECODE_TCPOPT_TTCP]).
Proof.
  intros Hlen Hl Hd.
  destruct (DecodeTCPOptions_post env m start o_len w w' Hlen Hl Hd)
    as (_ & _ & _ & _ & n & last & [Ht Hn] & Hlast).
  exists n, last. split; [exact Ht|]. split; [exact Hn | exact Hlast].
Qed.

(** The walk over two window scale options of which the second has a
    length byte of 2. *)
Lemma walker_events_shape_witness :
  exists w' (n : nat) (last : list DecodeEvent),
    DecodeTCPOptions env_passive bad_second_option 0 6 (sample_world 1 0)
    = Ok w'
    /\ trace w' = [] ++ map Event (repeat DECODE_TCPOPT_WSCALE_INVALID n ++ last)
    /\ Z.of_nat n <= tcp_option_count (pkt w')
    /\ (last = []
        \/ exists e,
             last = [e]
             /\ In e [DECODE_TCPOPT_BADLEN; DECODE_TCPOPT_TRUNCATED;
                      DECODE_TCPOPT_EXPERIMENTAL; DECODE_TCPOPT_OBSOLETE;
                      DECODE_TCPOPT_TTCP]).
Proof.
  destruct (DecodeTCPOptions env_passive bad_second_option 0 6
              (sample_world 1 0)) as [w'|f] eqn:E;
    [|vm_compute in E; discriminate E].
  destruct (walker_events_shape env_passive bad_second_option 0 6
              (sample_world 1 0) w') as (n & last & H);
    [unfold TCP_OPTLENMAX; lia | reflexivity | exact E |].
  exists w', n, last. split; [reflexivity | exact H].
Defined.


(** ** The bytes that the walker reads *)

Lemma OptLenValidate_ext (m m' : mem) (option_ptr end_ : ptr)
    (len_ptr : option ptr) (expected_len : Z) (tcpopt : Options) :
  (forall lp, len_ptr = Some lp -> load8 m' lp = load8 m lp) ->
  OptLenValidate m' option_ptr end_ len_ptr expected_len tcpopt
  = OptLenValidate m option_ptr end_ len_ptr expected_len tcpopt.
Proof.
  intros H. unfold OptLenValidate. destruct len_ptr as [lp|]; [|reflexivity].
  rewrite (H lp eq_refl). reflexivity.
Qed.

Section WalkerReads.
Variable env : Env.
Variable m m' : mem.
Variable end_ptr : ptr.

Lemma validate_ext (len_ptr : option ptr) (e : Z) (s : Walk) (w : World) :
  (forall lp, len_ptr = Some lp -> load8 m' lp = load8 m lp) ->
  validate m' end_ptr len_ptr e s w = validate m end_ptr len_ptr e s w.
Proof.
  intros H. unfold validate. rewrite (OptLenValidate_ext m m') by exact H.
  reflexivity.
Qed.

Lemma switch_ext (len_ptr : option ptr) (s : Walk) (w : World) :
  (Z.to_nat (opt_count s) < length (tcp_options (pkt w)))%nat ->
  agree_on m m' (option_ptr s) end_ptr ->
  option_ptr s < end_ptr ->
  (forall lp, len_ptr = Some lp -> lp = option_ptr s + 1 /\ lp < end_ptr) ->
  DecodeTCPOptions_switch env m' end_ptr len_ptr s w
  = DecodeTCPOptions_switch env m end_ptr len_ptr s w.
Proof.
  intros Hlen Hag Hin Hlp.
  assert (Hl : forall lp, len_ptr = Some lp -> load8 m' lp = load8 m lp).
  { intros lp H. apply Hlp in H as [-> H]. symmetry. apply Hag. lia. }
  assert (Hv : forall e s0,
            validate m' end_ptr len_ptr e s0 w
            = validate m end_ptr len_ptr e s0 w).
  { intros e s0. apply validate_ext, Hl. }
  unfold DecodeTCPOptions_switch.
  rewrite <- (Hag (option_ptr s)) by lia.
  rewrite !Hv.
  assert (Hw :
    (let '(s1, w1) := validate m end_ptr len_ptr TCPOLEN_WSCALE s w in
     if code s1 =? 0 then
       match opt_data (get_option w1 (opt_count s1)) with
       | Some d =>
           if 14 <? load8 m' d
           then Ok (s1, decoder_event w1 DECODE_TCPOPT_WSCALE_INVALID)
           else Ok (s1, w1)
       | None => Fault NullDeref
       end
     else Ok (s1, w1))
    = (let '(s1, w1) := validate m end_ptr len_ptr TCPOLEN_WSCALE s w in
       if code s1 =? 0 then
         match opt_data (get_option w1 (opt_count s1)) with
         | Some d =>
             if 14 <? load8 m d
             then Ok (s1, decoder_event w1 DECODE_TCPOPT_WSCALE_INVALID)
             else Ok (s1, w1)
         | None => Fault NullDeref
         end
       else Ok (s1, w1))).
  { destruct (validate m end_ptr len_ptr TCPOLEN_WSCALE s w) as [s1 w1] eqn:V.
    apply (validate_turn _ _ _ _ s s) in V as (Hpost & _ & Hz);
      [|exact Hlen|reflexivity|reflexivity].
    destruct (code s1 =? 0) eqn:E; [|reflexivity].
    destruct Hz as (lp & _ & Hl3 & Hfit & Hd); [lia|].
    assert (Hc1 : opt_count s1 = opt_count s) by apply Hpost.
    rewrite Hc1, Hd. rewrite Hl3 in * by (unfold TCPOLEN_WSCALE; lia).
    unfold TCPOLEN_WSCALE in *. cbn [Z.eqb Pos.eqb].
    rewrite <- (Hag (option_ptr s + 2)) by lia. reflexivity. }
  assert (Ha :
    match len_ptr with Some lp => load8 m' lp <? 4 | None => false end
    = match len_ptr with Some lp => load8 m lp <? 4 | None => false end).
  { destruct len_ptr as [lp|]; [|reflexivity]. rewrite (Hl lp eq_refl).
    reflexivity. }
  rewrite Ha.
  destruct (load8 m (option_ptr s)) as [|k|k]; [reflexivity| |reflexivity].
  do 5 (try destruct k as [k|k|]); first [reflexivity | exact Hw].
Qed.

Lemma body_ext (start : ptr) (w0 : World) (sw : Walk * World) :
  agree_on m m' start end_ptr ->
  walk_ok m start end_ptr w0 sw ->
  DecodeTCPOptions_cond end_ptr sw = true ->
  DecodeTCPOptions_body env m' end_ptr sw
  = DecodeTCPOptions_body env m end_ptr sw.
Proof.
  destruct sw as [s w]. unfold walk_ok. cbn [fst snd].
  intros Hag (Hc & Hp & _ & Hl & _) C.
  unfold DecodeTCPOptions_cond, TCP_OPTLENMAX in C. cbn [fst] in C.
  unfold DecodeTCPOptions_body, DecodeTCPOptions_option.
  assert (Hag' : agree_on m m' (option_ptr s) end_ptr).
  { intros x Hx. apply Hag. lia. }
  rewrite <- (Hag' (option_ptr s)) by lia.
  rewrite switch_ext; [reflexivity| |exact Hag'|lia|].
  - cbn. rewrite length_insert. lia.
  - intros lp.
    destruct (option_ptr s + 1 <? end_ptr) eqn:E; [|discriminate].
    intros [= <-]. lia.
Qed.
End WalkerReads.

Lemma DecodeTCPOptions_ext (env : Env) (m m' : mem) (start : ptr)
    (o_len : Z) (w : World) :
  length (tcp_options (pkt w)) = 40%nat ->
  agree_on m m' start (start + o_len) ->
  DecodeTCPOptions env m' start o_len w = DecodeTCPOptions env m start o_len w.
Proof.
  intros Hl Hag. unfold DecodeTCPOptions.
  destruct (TCP_OPTLENMAX <? o_len) eqn:E; [reflexivity|]. cbv zeta.
  rewrite (while_ext (DecodeTCPOptions_cond (start + o_len))
             (DecodeTCPOptions_body env m (start + o_len))
             (DecodeTCPOptions_body env m' (start + o_len))
             (walk_ok m start (start + o_len) w)).
  - destruct (while _ _ walk_fuel (walk_init start, w)) as [[[s1 w1]|w1]|f];
      reflexivity.
  - apply walk_ok_next.
  - intros sw HI C. apply (body_ext env m m' (start + o_len) start w);
      assumption.
  - unfold walk_ok. cbn [fst snd walk_init opt_count option_ptr].
    split; [lia|]. split; [lia|]. split; [left; reflexivity|].
    split; [exact Hl|]. split; [intros i Hi; cbn in Hi; lia|].
    split; [apply same_but_options_refl|].
    exists 0%nat. split; [|lia]. cbn. rewrite app_nil_r. reflexivity.
Qed.


(** X4.  The walker reads no byte outside the region it is given: on two
    memories that hold the same bytes in the region it does the same. *)
Theorem walker_reads_within_region (env : Env) (m m' : mem) (start : ptr)
    (o_len : Z) (w : World) :
  length (tcp_options (pkt w)) = 40%nat ->
  agree_on m m' start (start + o_len) ->
  DecodeTCPOptions env m' start o_len w = DecodeTCPOptions env m start o_len w.
Proof. apply DecodeTCPOptions_ext. Qed.

(** The walk over the first four bytes of a region of six. *)
Lemma walker_reads_within_region_witness :
  DecodeTCPOptions env_passive wscale_option_tail 0 4 (sample_world 1 0)
  = DecodeTCPOptions env_passive wscale_option 0 4 (sample_world 1 0).
Proof.
  apply (walker_reads_within_region env_passive wscale_option
           wscale_option_tail 0 4 (sample_world 1 0)).
  - reflexivity.
  - intros x Hx.
    assert (x = 0 \/ x = 1 \/ x = 2 \/ x = 3) as [-> | [-> | [-> | ->]]]
      by lia; reflexivity.
Defined.

(** ** The events of a successful [decode] *)

Lemma raises_refl (w : World) : raises w w [].
Proof. unfold raises. cbn. rewrite app_nil_r. auto. Qed.

Lemma raises_trans (w1 w2 w3 : World) (l1 l2 : list DecodeEvent) :
  raises w1 w2 l1 -> raises w2 w3 l2 -> raises w1 w3 (l1 ++ l2).
Proof.
  unfold raises. intros [A1 A2] [B1 B2]. split; [congruence|].
  rewrite B2, A2, map_app, app_assoc. reflexivity.
Qed.

Lemma raises_event_if (w : World) (e : DecodeEvent) (b : bool) :
  raises w (if b then decoder_event w e else w) (if b then [e] else []).
Proof.
  destruct b; [|apply raises_refl]. unfold raises. cbn. auto.
Qed.

Section DecodeEvents.
Variable env : Env.
Variable m : mem.

Lemma decode_flag_tests_raises (w : World) (h : ptr) :
  tcph (pkt w) = Some h ->
  exists w',
    decode_flag_tests env m w = Ok w'
    /\ raises w w' (flag_events env m h (ip_api (pkt w))).
Proof.
  intros Hh. unfold decode_flag_tests, deref_tcph. rewrite Hh. cbn [bind].
  eexists. split; [reflexivity|]. unfold flag_events.
  destruct (TCP_ISFLAGSET m h (Z.lor TH_FIN (Z.lor TH_PUSH TH_URG)));
    [destruct (TCP_ISFLAGSET m h (Z.lor TH_SYN (Z.lor TH_ACK TH_RST)))|];
    cbn [pkt decoder_event];
    (destruct (TCP_ISFLAGSET m h TH_SYN);
     [ destruct (th_flags m h =? TH_SYN);
         [destruct (th_seq env m h =? 6060842);
            [destruct (ip_id (ip_api (pkt w)) =? 413)|]|];
         cbn [pkt decoder_event andb];
         destruct (sfvar_ip_in_SynToMulticastDstIp env (ip_api (pkt w)));
         destruct (negb (Z.land (th_flags m h) TH_RST =? 0));
         destruct (negb (Z.land (th_flags m h) TH_FIN =? 0))
     | destruct (Z.land (th_flags m h) (Z.lor TH_ACK TH_RST) =? 0) ]);
    destruct (negb (Z.land (th_flags m h)
                      (Z.lor TH_FIN (Z.lor TH_PUSH TH_URG)) =? 0)
              && (Z.land (th_flags m h) TH_ACK =? 0));
    unfold raises; cbn; rewrite <- ?app_assoc; cbn; rewrite ?app_nil_r;
    split; reflexivity.
Qed.
End DecodeEvents.


Section DecodeStages.
Variable env : Env.
Variable m : mem.

(** [decode] from the ports on: the walk over the options, then the data
    pointer and size, the protocol bit and the events of the last
    tests. *)
Lemma decode_payload_post (raw_pkt : ptr) (raw_len lyr_len : Z) (w : World) :
  tcph (pkt w) = Some raw_pkt ->
  length (tcp_options (pkt w)) = 40%nat ->
  20 <= hdr_len m raw_pkt ->
  exists w2 w',
    decode_payload env m raw_pkt raw_len lyr_len w = Ok w'
    /\ walk_done m (raw_pkt + 20) (hdr_len m raw_pkt - 20)
         (with_pkt w (fun p =>
            set_ports p (ntohs env (th_sport env m raw_pkt))
                        (ntohs env (th_dport env m raw_pkt)))) w2
    /\ (hdr_len m raw_pkt = 20 ->
        tcp_options (pkt w2) = tcp_options (pkt w) /\ trace w2 = trace w)
    /\ pkt w'
       = set_proto_bits
           (set_data (pkt w2) (raw_pkt + lyr_len)
              (payload_size lyr_len raw_len))
           (Z.lor (proto_bits (pkt w2)) (PROTO_BIT__TCP env))
    /\ trace w'
       = trace w2
         ++ map Event (tail_events env m raw_pkt (payload_size lyr_len raw_len)).
Proof.
  intros Hh Hl Hoff. unfold decode_payload, deref_tcph at 1.
  rewrite Hh. cbn [bind].
  set (w1 := with_pkt w _).
  pose proof (tcp_opt_len_range m raw_pkt Hoff) as [Hlen Hrange].
  pose proof (hdr_len_offset m raw_pkt) as [Hhl _].
  assert (Hlen' : tcp_opt_len m raw_pkt = hdr_len m raw_pkt - 20) by lia.
  assert (exists w2,
            (if 0 <? tcp_opt_len m raw_pkt
             then DecodeTCPOptions env m (raw_pkt + TCP_HEADER_LEN)
                    (tcp_opt_len m raw_pkt) w1
             else Ok (with_pkt w1 (fun p => set_tcp_option_count p 0)))
            = Ok w2
            /\ walk_done m (raw_pkt + 20) (hdr_len m raw_pkt - 20) w1 w2
            /\ (hdr_len m raw_pkt = 20 ->
                tcp_options (pkt w2) = tcp_options (pkt w)
                /\ trace w2 = trace w))
    as (w2 & -> & Hdone & Hnone).
  { destruct (0 <? tcp_opt_len m raw_pkt) eqn:E.
    - destruct (DecodeTCPOptions_ok env m (raw_pkt + TCP_HEADER_LEN)
                  (tcp_opt_len m raw_pkt) w1) as (w2 & H & _);
        [unfold TCP_OPTLENMAX; lia | exact Hl |].
      exists w2. split; [exact H|]. split; [|lia].
      rewrite <- Hlen'. apply (DecodeTCPOptions_post env); auto.
      unfold TCP_OPTLENMAX; lia.
    - eexists. split; [reflexivity|]. split; [|intros _; split; reflexivity].
      unfold walk_done. cbn.
      split; [lia|]. split; [exact Hl|].
      split; [intros i Hi; cbn in Hi; lia|].
      split; [unfold same_but_options; cbn; repeat split|].
      exists 0%nat, []. split; [|left; reflexivity].
      split; [|lia]. cbn. rewrite app_nil_r. reflexivity. }
  cbn [bind].
  destruct Hdone as (Hc & Hl2 & Hrec & Hsame & Htr).
  assert (Hsame' := Hsame).
  destruct Hsame' as (S1 & S2 & S3 & _).
  cbn [pkt w1 with_pkt set_ports tcph sp dp] in S1, S2, S3.
  unfold deref_tcph. cbn [pkt with_pkt set_data tcph]. rewrite S1, Hh.
  cbn [bind]. unfold TCPMiscTests, deref_tcph.
  cbn [pkt with_pkt set_proto_bits set_data tcph dsize sp dp].
  match goal with
  | |- context [pkt (if ?b then _ else _)] =>
      replace b with
        (negb (Z.land (th_flags m raw_pkt) TH_URG =? 0)
         && ((payload_size lyr_len raw_len =? 0)
             || (payload_size lyr_len raw_len
                 <? ntohs env (th_urp env m raw_pkt)))) by reflexivity;
      destruct (negb (Z.land (th_flags m raw_pkt) TH_URG =? 0)
                && ((payload_size lyr_len raw_len =? 0)
                    || (payload_size lyr_len raw_len
                        <? ntohs env (th_urp env m raw_pkt)))) eqn:EU
  end;
    cbn [pkt decoder_event with_pkt set_proto_bits set_data tcph dsize sp dp];
    rewrite S1, Hh; cbn [bind];
    unfold tail_events; rewrite EU;
    destruct ((Z.land (th_flags m raw_pkt) TH_NORESERVED =? TH_SYN)
              && (th_seq env m raw_pkt =? htonl env 674711609));
    cbn [pkt decoder_event with_pkt set_proto_bits set_data tcph dsize sp dp];
    rewrite S2, S3;
    destruct ((ntohs env (th_sport env m raw_pkt) =? 0)
              || (ntohs env (th_dport env m raw_pkt) =? 0));
    exists w2; eexists; (split; [reflexivity|]);
    (split; [unfold walk_done; auto|]); (split; [exact Hnone|]);
    cbn; rewrite <- ?app_assoc; cbn; rewrite ?app_nil_r;
    split; reflexivity.
Qed.
End DecodeStages.


Section DecodeShape.
Variable env : Env.
Variable m : mem.

Lemma decode_rest_post (raw_pkt : ptr) (raw_len lyr_len : Z) (w : World) :
  tcph (pkt w) = Some raw_pkt ->
  length (tcp_options (pkt w)) = 40%nat ->
  20 <= hdr_len m raw_pkt ->
  exists wf w2 w',
    decode_rest env m raw_pkt raw_len lyr_len w = Ok w'
    /\ raises w wf (flag_events env m raw_pkt (ip_api (pkt w)))
    /\ walk_done m (raw_pkt + 20) (hdr_len m raw_pkt - 20)
         (with_pkt wf (fun p =>
            set_ports p (ntohs env (th_sport env m raw_pkt))
                        (ntohs env (th_dport env m raw_pkt)))) w2
    /\ (hdr_len m raw_pkt = 20 ->
        tcp_options (pkt w2) = tcp_options (pkt w) /\ trace w2 = trace wf)
    /\ pkt w'
       = set_proto_bits
           (set_data (pkt w2) (raw_pkt + lyr_len)
              (payload_size lyr_len raw_len))
           (Z.lor (proto_bits (pkt w2)) (PROTO_BIT__TCP env))
    /\ trace w'
       = trace w2
         ++ map Event (tail_events env m raw_pkt (payload_size lyr_len raw_len)).
Proof.
  intros Hh Hl Hoff. unfold decode_rest.
  destruct (decode_flag_tests_raises env m w raw_pkt Hh) as (wf & -> & Hr).
  cbn [bind]. pose proof Hr as [Hp Ht].
  destruct (decode_payload_post env m raw_pkt raw_len lyr_len wf)
    as (w2 & w' & Hd & Hw & Hn & Hpk & Htr);
    [rewrite Hp; exact Hh | rewrite Hp; exact Hl | exact Hoff |].
  exists wf, w2, w'. rewrite Hp in Hn. auto 10.
Qed.

(** A [decode] that returns success has passed the three bounds checks
    and the checksum block, and has gone on from there. *)
Lemma decode_success_rest (raw_pkt : ptr) (raw_len : Z) (w : World)
    (lyr : option Z) (w' : World) :
  decode env m raw_pkt raw_len w = Ok (true, lyr, w') ->
  20 <= raw_len /\ 20 <= hdr_len m raw_pkt <= raw_len
  /\ lyr = Some (hdr_len m raw_pkt)
  /\ (checksum_bad env m raw_pkt raw_len (pkt w) = true ->
      unsure_encap env (pkt w) = false)
  /\ decode_rest env m raw_pkt raw_len (hdr_len m raw_pkt)
       (after_checksum env m raw_pkt raw_len w) = Ok w'.
Proof.
  unfold decode, TCP_HEADER_LEN, after_checksum, checksum_bad.
  destruct (raw_len <? 20) eqn:E0; [discriminate|].
  destruct (hdr_len m raw_pkt <? 20) eqn:E1; [discriminate|].
  destruct (raw_len <? hdr_len m raw_pkt) eqn:E2; [discriminate|].
  unfold decode_checksum, deref_tcph.
  cbn [set_tcph pkt tcph bind ip_api decode_flags].
  destruct (ScTcpChecksums env); cbn [andb].
  - destruct (negb (decode_csum env m raw_pkt raw_len (ip_api (pkt w)) =? 0)).
    + unfold unsure_encap at 1. cbn [decode_flags].
      fold (unsure_encap env (pkt w)).
      destruct (unsure_encap env (pkt w)); cbn [bind]; [discriminate|].
      cbv zeta.
      destruct (decode_rest env m raw_pkt raw_len (hdr_len m raw_pkt) _)
        as [w2|f] eqn:R; cbn [bind]; [|discriminate].
      intros [= <- <-]. repeat split; lia.
    + cbn [bind].
      destruct (decode_rest env m raw_pkt raw_len (hdr_len m raw_pkt) _)
        as [w2|f] eqn:R; cbn [bind]; [|discriminate].
      intros [= <- <-]. repeat split; try lia; discriminate.
  - cbn [bind].
    destruct (decode_rest env m raw_pkt raw_len (hdr_len m raw_pkt) _)
      as [w2|f] eqn:R; cbn [bind]; [|discriminate].
    intros [= <- <-]. repeat split; try lia; discriminate.
Qed.
End DecodeShape.


(** What a [decode] that returns success leaves behind: the fields of
    the packet and the trace. *)
Lemma decode_success_post (env : Env) (m : mem) (raw_pkt : ptr)
    (raw_len : Z) (w : World) (lyr : option Z) (w' : World) :
  length (tcp_options (pkt w)) = 40%nat ->
  decode env m raw_pkt raw_len w = Ok (true, lyr, w') ->
  let hl := hdr_len m raw_pkt in
  let dsz := payload_size hl raw_len in
  let bad := checksum_bad env m raw_pkt raw_len (pkt w) in
  (20 <= raw_len /\ 20 <= hl <= raw_len /\ lyr = Some hl
   /\ (bad = true -> unsure_encap env (pkt w) = false))
  /\ (tcph (pkt w') = Some raw_pkt
      /\ sp (pkt w') = ntohs env (th_sport env m raw_pkt)
      /\ dp (pkt w') = ntohs env (th_dport env m raw_pkt)
      /\ data (pkt w') = raw_pkt + hl
      /\ dsize (pkt w') = dsz
      /\ proto_bits (pkt w')
         = Z.lor (proto_bits (pkt w)) (PROTO_BIT__TCP env)
      /\ error_flags (pkt w')
         = (if bad then Z.lor (error_flags (pkt w)) (PKT_ERR_CKSUM_TCP env)
            else error_flags (pkt w))
      /\ decode_flags (pkt w') = decode_flags (pkt w)
      /\ packet_flags (pkt w') = packet_flags (pkt w)
      /\ ip_api (pkt w') = ip_api (pkt w))
  /\ (0 <= tcp_option_count (pkt w') <= hl - 20
      /\ length (tcp_options (pkt w')) = 40%nat
      /\ records_within m (raw_pkt + 20) (raw_pkt + hl) (pkt w')
           (tcp_option_count (pkt w'))
      /\ (hl = 20 -> tcp_options (pkt w') = tcp_options (pkt w)))
  /\ exists (n : nat) (last : list DecodeEvent),
       trace w'
       = trace w
         ++ TcphStore (Some raw_pkt)
            :: (if bad && (ScInlineMode env && ScTcpChecksumDrops env)
                then [ActiveDrop] else [])
            ++ map Event
                 (flag_events env m raw_pkt (ip_api (pkt w))
                  ++ (repeat DECODE_TCPOPT_WSCALE_INVALID n ++ last)
                  ++ tail_events env m raw_pkt dsz)
       /\ Z.of_nat n <= tcp_option_count (pkt w')
       /\ (last = [] \/ exists e, last = [e] /\ closing_event e)
       /\ (hl = 20 -> n = 0%nat /\ last = []).
Proof.
  intros Hl Hd hl dsz bad. subst hl dsz.
  apply decode_success_rest in Hd as (H1 & H2 & H3 & H4 & Hr).
  split; [auto|].
  set (w1 := after_checksum env m raw_pkt raw_len w) in Hr.
  assert (Hw1 : tcph (pkt w1) = Some raw_pkt
                /\ tcp_options (pkt w1) = tcp_options (pkt w)
                /\ sp (pkt w1) = sp (pkt w) /\ dp (pkt w1) = dp (pkt w)
                /\ data (pkt w1) = data (pkt w)
                /\ dsize (pkt w1) = dsize (pkt w)
                /\ proto_bits (pkt w1) = proto_bits (pkt w)
                /\ error_flags (pkt w1)
                   = (if bad
                      then Z.lor (error_flags (pkt w)) (PKT_ERR_CKSUM_TCP env)
                      else error_flags (pkt w))
                /\ decode_flags (pkt w1) = decode_flags (pkt w)
                /\ packet_flags (pkt w1) = packet_flags (pkt w)
                /\ ip_api (pkt w1) = ip_api (pkt w)
                /\ trace w1
                   = trace w
                     ++ TcphStore (Some raw_pkt)
                        :: (if bad && (ScInlineMode env
                                       && ScTcpChecksumDrops env)
                            then [ActiveDrop] else [])).
  { subst w1. unfold after_checksum. fold bad.
    destruct bad; cbn [andb];
      [destruct (ScInlineMode env && ScTcpChecksumDrops env)|];
      cbn; rewrite <- ?app_assoc; repeat split; reflexivity. }
  destruct Hw1 as (A1 & A2 & A3 & A4 & A5 & A6 & A7 & A8 & A9 & A10 & A11 & A12).
  destruct (decode_rest_post env m raw_pkt raw_len (hdr_len m raw_pkt) w1)
    as (wf & w2 & w'' & Hr' & [Fp Ft] & Hdone & Hnone & Hpk & Htr);
    [exact A1 | rewrite A2; exact Hl | lia |].
  rewrite Hr' in Hr. injection Hr as ->.
  destruct Hdone as (Hc & Hl2 & Hrec & Hsame & n & last & [Hwt Hn] & Hlast).
  destruct Hsame as (S1 & S2 & S3 & S4 & S5 & S6 & S7 & S8 & S9 & S10).
  cbn [pkt with_pkt set_ports tcph sp dp data dsize proto_bits error_flags
       decode_flags packet_flags ip_api] in S1, S2, S3, S4, S5, S6, S7, S8,
       S9, S10.
  rewrite Fp in *.
  cbn [trace with_pkt] in Hwt.
  split; [|split].
  - rewrite Hpk. cbn. rewrite S6, A7.
    repeat split; try congruence.
  - rewrite Hpk. cbn.
    split; [lia|]. split; [exact Hl2|]. split.
    + replace (raw_pkt + hdr_len m raw_pkt)
        with (raw_pkt + 20 + (hdr_len m raw_pkt - 20)) by lia.
      exact Hrec.
    + intros H. rewrite <- A2. apply Hnone. exact H.
  - exists n, last.
    split; [|split; [rewrite Hpk; exact Hn|split; [exact Hlast|]]].
    + rewrite Htr, Hwt, Ft, A12, A11. rewrite !map_app.
      rewrite <- !app_assoc. cbn [app]. rewrite <- ?app_assoc. reflexivity.
    + intros H. destruct (Hnone H) as [_ Hnt]. rewrite Hwt in Hnt.
      rewrite <- (app_nil_r (trace wf)) in Hnt at 2.
      apply app_inv_head in Hnt. apply map_eq_nil in Hnt.
      apply app_eq_nil in Hnt as [Hn0 Hl0]. split; [|exact Hl0].
      destruct n; [reflexivity | discriminate Hn0].
Qed.


(** ** Which events a [decode] raises *)

Lemma walk_events_walker (n : nat) (last : list DecodeEvent)
    (e : DecodeEvent) :
  last = [] \/ (exists e', last = [e'] /\ closing_event e') ->
  In e (repeat DECODE_TCPOPT_WSCALE_INVALID n ++ last) ->
  walker_event e.
Proof.
  intros Hlast Hin. apply in_app_or in Hin as [Hin | Hin].
  - apply repeat_spec in Hin as ->. unfold walker_event. cbn. auto 10.
  - destruct Hlast as [-> | (e' & -> & He)]; [destruct Hin|].
    destruct Hin as [<- | []].
    unfold closing_event in He. unfold walker_event. cbn in *.
    intuition auto 10.
Qed.

(** The events of a [decode] that are not those of the bounds checks or
    of the walker are, for a [decode] that returns success, the events of
    the flag tests and of the last tests, and for one that returns failure
    there are none. *)
Lemma decode_event_iff (env : Env) (m : mem) (raw_pkt : ptr) (raw_len : Z)
    (w : World) (ret : bool) (lyr : option Z) (w' : World) :
  length (tcp_options (pkt w)) = 40%nat ->
  decode env m raw_pkt raw_len w = Ok (ret, lyr, w') ->
  exists new,
    trace w' = trace w ++ new
    /\ forall e,
         ~ bounds_event e -> ~ walker_event e ->
         (In (Event e) new
          <-> ret = true
              /\ (In e (flag_events env m raw_pkt (ip_api (pkt w)))
                  \/ In e (tail_events env m raw_pkt
                             (payload_size (hdr_len m raw_pkt) raw_len)))).
Proof.
  intros Hl Hd. destruct ret.
  2:{ apply decode_failure_events in Hd as (new & Ht & He).
      exists new. split; [exact Ht|]. intros e Hb _. split.
      - intros Hin. exfalso. apply Hb. unfold bounds_event. cbn.
        apply He in Hin. intuition auto.
      - intros [H _]. discriminate H. }
  apply decode_success_post in Hd as (_ & _ & _ & n & last & Ht & _ & Hlast & _);
    [|exact Hl].
  eexists. split; [exact Ht|]. intros e _ Hw.
  split.
  - intros Hin. split; [reflexivity|].
    destruct Hin as [Hin | Hin]; [discriminate Hin|].
    apply in_app_or in Hin as [Hin | Hin].
    { destruct (_ && _); [destruct Hin as [Hin | []]|destruct Hin];
        discriminate Hin. }
    apply in_map_iff in Hin as (e' & [= ->] & Hin).
    apply in_app_or in Hin as [Hin | Hin]; [left; exact Hin|].
    apply in_app_or in Hin as [Hin | Hin]; [|right; exact Hin].
    exfalso. apply Hw. eapply walk_events_walker; eauto.
  - intros [_ Hin]. right. apply in_or_app. right.
    apply in_map. apply in_or_app.
    destruct Hin as [Hin | Hin]; [left; exact Hin|].
    right. apply in_or_app. right. exact Hin.
Qed.

Ltac bool_cases :=
  repeat match goal with
         | |- context [if ?b then _ else _] => destruct b eqn:?
         end.

Lemma In_flag_events_xmas (env : Env) (m : mem) (h : ptr) (api : IpApi) :
  (In DECODE_TCP_XMAS (flag_events env m h api)
   <-> TCP_ISFLAGSET m h (Z.lor TH_FIN (Z.lor TH_PUSH TH_URG)) = true
       /\ TCP_ISFLAGSET m h (Z.lor TH_SYN (Z.lor TH_ACK TH_RST)) = true)
  /\ (In DECODE_TCP_NMAP_XMAS (flag_events env m h api)
      <-> TCP_ISFLAGSET m h (Z.lor TH_FIN (Z.lor TH_PUSH TH_URG)) = true
          /\ TCP_ISFLAGSET m h (Z.lor TH_SYN (Z.lor TH_ACK TH_RST)) = false).
Proof.
  unfold flag_events. bool_cases; cbn; intuition discriminate.
Qed.


Lemma flag_masks (b : Z) :
  0 <= b < 256 ->
  ((Z.land b (Z.lor TH_FIN (Z.lor TH_PUSH TH_URG))
    =? Z.lor TH_FIN (Z.lor TH_PUSH TH_URG))
   && (Z.land b (Z.lor TH_SYN (Z.lor TH_ACK TH_RST))
       =? Z.lor TH_SYN (Z.lor TH_ACK TH_RST))
   = (Z.land b TH_NORESERVED =? TH_NORESERVED))
  /\ ((Z.land b TH_SYN =? TH_SYN) && negb (Z.land b TH_RST =? 0)
      = (Z.land b (Z.lor TH_SYN TH_RST) =? Z.lor TH_SYN TH_RST))
  /\ ((Z.land b TH_SYN =? TH_SYN) && negb (Z.land b TH_FIN =? 0)
      = (Z.land b (Z.lor TH_SYN TH_FIN) =? Z.lor TH_SYN TH_FIN))
  /\ (negb (Z.land b TH_SYN =? TH_SYN)
      && (Z.land b (Z.lor TH_ACK TH_RST) =? 0)
      = (Z.land b (Z.lor TH_SYN (Z.lor TH_ACK TH_RST)) =? 0)).
Proof.
  intros Hb.
  pose proof (byte_cases
    (fun b =>
       Bool.eqb
         ((Z.land b (Z.lor TH_FIN (Z.lor TH_PUSH TH_URG))
           =? Z.lor TH_FIN (Z.lor TH_PUSH TH_URG))
          && (Z.land b (Z.lor TH_SYN (Z.lor TH_ACK TH_RST))
              =? Z.lor TH_SYN (Z.lor TH_ACK TH_RST)))
         (Z.land b TH_NORESERVED =? TH_NORESERVED)
       && Bool.eqb
            ((Z.land b TH_SYN =? TH_SYN) && negb (Z.land b TH_RST =? 0))
            (Z.land b (Z.lor TH_SYN TH_RST) =? Z.lor TH_SYN TH_RST)
       && Bool.eqb
            ((Z.land b TH_SYN =? TH_SYN) && negb (Z.land b TH_FIN =? 0))
            (Z.land b (Z.lor TH_SYN TH_FIN) =? Z.lor TH_SYN TH_FIN)
       && Bool.eqb
            (negb (Z.land b TH_SYN =? TH_SYN)
             && (Z.land b (Z.lor TH_ACK TH_RST) =? 0))
            (Z.land b (Z.lor TH_SYN (Z.lor TH_ACK TH_RST)) =? 0))
    eq_refl b Hb) as H.
  cbv beta in H.
  apply andb_true_iff in H as [H H4]. apply andb_true_iff in H as [H H3].
  apply andb_true_iff in H as [H1 H2].
  apply eqb_prop in H1, H2, H3, H4. auto.
Qed.

Lemma In_flag_events_syn (env : Env) (m : mem) (h : ptr) (api : IpApi) :
  (In DECODE_TCP_SYN_RST (flag_events env m h api)
   <-> TCP_ISFLAGSET m h TH_SYN && negb (Z.land (th_flags m h) TH_RST =? 0)
       = true)
  /\ (In DECODE_TCP_SYN_FIN (flag_events env m h api)
      <-> TCP_ISFLAGSET m h TH_SYN && negb (Z.land (th_flags m h) TH_FIN =? 0)
          = true)
  /\ (In DECODE_SYN_TO_MULTICAST (flag_events env m h api)
      <-> TCP_ISFLAGSET m h TH_SYN = true
          /\ sfvar_ip_in_SynToMulticastDstIp env api = true)
  /\ (In DECODE_TCP_NO_SYN_ACK_RST (flag_events env m h api)
      <-> negb (TCP_ISFLAGSET m h TH_SYN)
          && (Z.land (th_flags m h) (Z.lor TH_ACK TH_RST) =? 0) = true)
  /\ (In DECODE_TCP_MUST_ACK (flag_events env m h api)
      <-> negb (Z.land (th_flags m h) (Z.lor TH_FIN (Z.lor TH_PUSH TH_URG))
                =? 0)
          && (Z.land (th_flags m h) TH_ACK =? 0) = true).
Proof.
  unfold flag_events.
  destruct (negb (Z.land (th_flags m h) (Z.lor TH_FIN (Z.lor TH_PUSH TH_URG))
                  =? 0)
            && (Z.land (th_flags m h) TH_ACK =? 0));
    destruct (TCP_ISFLAGSET m h TH_SYN);
    destruct (negb (Z.land (th_flags m h) TH_RST =? 0));
    destruct (negb (Z.land (th_flags m h) TH_FIN =? 0));
    bool_cases; cbn; intuition discriminate.
Qed.

Lemma In_tail_events (env : Env) (m : mem) (h : ptr) (dsz : Z) :
  (In DECODE_TCP_BAD_URP (tail_events env m h dsz)
   <-> negb (Z.land (th_flags m h) TH_URG =? 0)
       && ((dsz =? 0) || (dsz <? ntohs env (th_urp env m h))) = true)
  /\ (In DECODE_TCP_SHAFT_SYNFLOOD (tail_events env m h dsz)
      <-> (Z.land (th_flags m h) TH_NORESERVED =? TH_SYN)
          && (th_seq env m h =? htonl env 674711609) = true)
  /\ (In DECODE_TCP_PORT_ZERO (tail_events env m h dsz)
      <-> (ntohs env (th_sport env m h) =? 0)
          || (ntohs env (th_dport env m h) =? 0) = true).
Proof.
  unfold tail_events. bool_cases; cbn; intuition discriminate.
Qed.

Lemma flag_events_kinds (env : Env) (m : mem) (h : ptr) (api : IpApi)
    (e : DecodeEvent) :
  In e (flag_events env m h api) ->
  In e [DECODE_TCP_XMAS; DECODE_TCP_NMAP_XMAS; DECODE_DOS_NAPTHA;
        DECODE_SYN_TO_MULTICAST; DECODE_TCP_SYN_RST; DECODE_TCP_SYN_FIN;
        DECODE_TCP_NO_SYN_ACK_RST; DECODE_TCP_MUST_ACK].
Proof.
  unfold flag_events. intros H.
  repeat (apply in_app_or in H as [H | H]);
    repeat match type of H with
           | In _ (if ?b then _ else _) => destruct b
           | In _ (_ ++ _) => apply in_app_or in H as [H | H]
           end;
    cbn in H; try contradiction; destruct H as [<- | []]; cbn; auto 10.
Qed.

Lemma tail_events_kinds (env : Env) (m : mem) (h : ptr) (dsz : Z)
    (e : DecodeEvent) :
  In e (tail_events env m h dsz) ->
  In e [DECODE_TCP_BAD_URP; DECODE_TCP_SHAFT_SYNFLOOD; DECODE_TCP_PORT_ZERO].
Proof.
  unfold tail_events. intros H.
  repeat (apply in_app_or in H as [H | H]);
    repeat match type of H with
           | In _ (if ?b then _ else _) => destruct b
           end;
    cbn in H; try contradiction; destruct H as [<- | []]; cbn; auto 10.
Qed.

(** In host order a 16-bit and a 32-bit field of the header is the
    big-endian number of its bytes, on either kind of host. *)
Lemma ntohs_load16 (env : Env) (m : mem) (a : ptr) :
  ntohs env (load16 env m a) = load8 m a * 256 + load8 m (a + 1).
Proof.
  unfold ntohs, load16.
  pose proof (load8_range m a) as H0. pose proof (load8_range m (a + 1)) as H1.
  destruct (host_big_endian env); [reflexivity|].
  unfold bswap16.
  set (b0 := load8 m a) in *. set (b1 := load8 m (a + 1)) in *.
  assert (E0 : (b0 + b1 * 256) mod 256 = b0)
    by (symmetry; apply (Z.mod_unique _ 256 b1); lia).
  assert (E1 : (b0 + b1 * 256) / 256 = b1)
    by (symmetry; apply (Z.div_unique _ 256 _ b0); lia).
  rewrite E0, E1. rewrite Z.mod_small by lia. reflexivity.
Qed.

Lemma ntohl_load32 (env : Env) (m : mem) (a : ptr) :
  ntohl env (load32 env m a)
  = load8 m a * 16777216 + load8 m (a + 1) * 65536
    + load8 m (a + 2) * 256 + load8 m (a + 3).
Proof.
  unfold ntohl, load32.
  destruct (host_big_endian env); [reflexivity|].
  destruct (bytes_of_word (load8 m a) (load8 m (a + 1)) (load8 m (a + 2))
              (load8 m (a + 3))) as (E0 & E1 & E2 & E3);
    try apply load8_range.
  unfold bswap32. cbv zeta in E0, E1, E2, E3. rewrite E0, E1, E2, E3.
  reflexivity.
Qed.


(** The events of the flag tests and of the last tests among those of a
    [decode]. *)
Lemma decode_test_events (env : Env) (m : mem) (raw_pkt : ptr) (raw_len : Z)
    (w : World) (ret : bool) (lyr : option Z) (w' : World) :
  length (tcp_options (pkt w)) = 40%nat ->
  decode env m raw_pkt raw_len w = Ok (ret, lyr, w') ->
  exists new,
    trace w' = trace w ++ new
    /\ (forall e,
          In e [DECODE_TCP_XMAS; DECODE_TCP_NMAP_XMAS;
                DECODE_SYN_TO_MULTICAST; DECODE_TCP_SYN_RST;
                DECODE_TCP_SYN_FIN; DECODE_TCP_NO_SYN_ACK_RST;
                DECODE_TCP_MUST_ACK] ->
          (In (Event e) new
           <-> ret = true
               /\ In e (flag_events env m raw_pkt (ip_api (pkt w)))))
    /\ (forall e,
          In e [DECODE_TCP_BAD_URP; DECODE_TCP_SHAFT_SYNFLOOD;
                DECODE_TCP_PORT_ZERO] ->
          (In (Event e) new
           <-> ret = true
               /\ In e (tail_events env m raw_pkt
                          ((raw_len - hdr_len m raw_pkt) mod 65536)))).
Proof.
  intros Hl Hd.
  assert (Hsz : ret = true ->
                payload_size (hdr_len m raw_pkt) raw_len
                = (raw_len - hdr_len m raw_pkt) mod 65536).
  { intros ->. apply decode_success_rest in Hd as (_ & H & _).
    unfold payload_size.
    destruct (hdr_len m raw_pkt <? raw_len) eqn:E; [reflexivity|].
    replace (raw_len - hdr_len m raw_pkt) with 0 by lia. reflexivity. }
  destruct (decode_event_iff env m raw_pkt raw_len w ret lyr w' Hl Hd)
    as (new & Ht & He).
  exists new. split; [exact Ht|]. split; intros e Hin.
  - rewrite He.
    + split; [|intros [H1 H2]; auto].
      intros [H1 [H2 | H2]]; [auto|]. exfalso.
      apply tail_events_kinds in H2. cbn in Hin, H2.
      intuition (subst; discriminate).
    + unfold bounds_event. cbn in *. intuition (subst; discriminate).
    + unfold walker_event. cbn in *. intuition (subst; discriminate).
  - rewrite He.
    + split.
      * intros [H1 [H2 | H2]]; [|rewrite <- Hsz by exact H1; auto]. exfalso.
        apply flag_events_kinds in H2. cbn in Hin, H2.
        intuition (subst; discriminate).
      * intros [H1 H2]. rewrite Hsz by exact H1. auto.
    + unfold bounds_event. cbn in *. intuition (subst; discriminate).
    + unfold walker_event. cbn in *. intuition (subst; discriminate).
Qed.

(** X5.  [decode] raises TCP_XMAS exactly when it returns success on a
    header in which all six flags are set, and TCP_NMAP_XMAS exactly when
    it returns success on a header in which FIN, PUSH and URG are set and
    SYN, ACK and RST are not all set. *)
Theorem decode_xmas_events (env : Env) (m : mem) (raw_pkt : ptr)
    (raw_len : Z) (w : World) (ret : bool) (lyr : option Z) (w' : World) :
  length (tcp_options (pkt w)) = 40%nat ->
  decode env m raw_pkt raw_len w = Ok (ret, lyr, w') ->
  exists new,
    trace w' = trace w ++ new
    /\ (In (Event DECODE_TCP_XMAS) new
        <-> ret = true /\ TCP_ISFLAGSET m raw_pkt TH_NORESERVED = true)
    /\ (In (Event DECODE_TCP_NMAP_XMAS) new
        <-> ret = true
            /\ TCP_ISFLAGSET m raw_pkt (Z.lor TH_FIN (Z.lor TH_PUSH TH_URG))
               = true
            /\ TCP_ISFLAGSET m raw_pkt (Z.lor TH_SYN (Z.lor TH_ACK TH_RST))
               = false).
Proof.
  intros Hl Hd.
  destruct (decode_test_events env m raw_pkt raw_len w ret lyr w' Hl Hd)
    as (new & Ht & He & _).
  destruct (In_flag_events_xmas env m raw_pkt (ip_api (pkt w))) as [Hx Hn].
  destruct (flag_masks (th_flags m raw_pkt) (load8_range _ _)) as (M1 & _).
  exists new. split; [exact Ht|]. split.
  - rewrite He by (cbn; auto 10). rewrite Hx.
    unfold TCP_ISFLAGSET. rewrite <- M1, andb_true_iff. reflexivity.
  - rewrite He by (cbn; auto 10). rewrite Hn. reflexivity.
Qed.

(** A segment with all six flags set. *)
Lemma decode_xmas_events_witness :
  exists ret lyr w' new,
    decode env_plain (flags_segment 0x3f) 0 20 (sample_world 1 0)
    = Ok (ret, lyr, w')
    /\ trace w' = [] ++ new
    /\ (In (Event DECODE_TCP_XMAS) new
        <-> ret = true
            /\ TCP_ISFLAGSET (flags_segment 0x3f) 0 TH_NORESERVED = true)
    /\ (In (Event DECODE_TCP_NMAP_XMAS) new
        <-> ret = true
            /\ TCP_ISFLAGSET (flags_segment 0x3f) 0
                 (Z.lor TH_FIN (Z.lor TH_PUSH TH_URG)) = true
            /\ TCP_ISFLAGSET (flags_segment 0x3f) 0
                 (Z.lor TH_SYN (Z.lor TH_ACK TH_RST)) = false).
Proof.
  destruct (decode env_plain (flags_segment 0x3f) 0 20 (sample_world 1 0))
    as [[[ret lyr] w']|f] eqn:E; [|vm_compute in E; discriminate E].
  destruct (decode_xmas_events env_plain (flags_segment 0x3f) 0 20
              (sample_world 1 0) ret lyr w' eq_refl E) as (new & H).
  exists ret, lyr, w', new. split; [reflexivity | exact H].
Defined.

(** X6.  [decode] raises TCP_SYN_RST exactly when it returns success on a
    header with SYN and RST set, TCP_SYN_FIN exactly when it returns
    success on a header with SYN and FIN set, and SYN_TO_MULTICAST exactly
    when it returns success on a header with SYN set in a packet whose
    destination is in the multicast variable. *)
Theorem decode_syn_events (env : Env) (m : mem) (raw_pkt : ptr)
    (raw_len : Z) (w : World) (ret : bool) (lyr : option Z) (w' : World) :
  length (tcp_options (pkt w)) = 40%nat ->
  decode env m raw_pkt raw_len w = Ok (ret, lyr, w') ->
  exists new,
    trace w' = trace w ++ new
    /\ (In (Event DECODE_TCP_SYN_RST) new
        <-> ret = true
            /\ TCP_ISFLAGSET m raw_pkt (Z.lor TH_SYN TH_RST) = true)
    /\ (In (Event DECODE_TCP_SYN_FIN) new
        <-> ret = true
            /\ TCP_ISFLAGSET m raw_pkt (Z.lor TH_SYN TH_FIN) = true)
    /\ (In (Event DECODE_SYN_TO_MULTICAST) new
        <-> ret = true
            /\ TCP_ISFLAGSET m raw_pkt TH_SYN = true
            /\ sfvar_ip_in_SynToMulticastDstIp env (ip_api (pkt w)) = true).
Proof.
  intros Hl Hd.
  destruct (decode_test_events env m raw_pkt raw_len w ret lyr w' Hl Hd)
    as (new & Ht & He & _).
  destruct (In_flag_events_syn env m raw_pkt (ip_api (pkt w)))
    as (H1 & H2 & H3 & _).
  destruct (flag_masks (th_flags m raw_pkt) (load8_range _ _))
    as (_ & M2 & M3 & _).
  exists new. split; [exact Ht|]. split; [|split].
  - rewrite He by (cbn; auto 10). rewrite H1.
    unfold TCP_ISFLAGSET. rewrite <- M2. reflexivity.
  - rewrite He by (cbn; auto 10). rewrite H2.
    unfold TCP_ISFLAGSET. rewrite <- M3. reflexivity.
  - rewrite He by (cbn; auto 10). rewrite H3. reflexivity.
Qed.

(** A segment with SYN and RST set. *)
Lemma decode_syn_events_witness :
  exists ret lyr w' new,
    decode env_plain (flags_segment 0x06) 0 20 (sample_world 1 0)
    = Ok (ret, lyr, w')
    /\ trace w' = [] ++ new
    /\ (In (Event DECODE_TCP_SYN_RST) new
        <-> ret = true
            /\ TCP_ISFLAGSET (flags_segment 0x06) 0 (Z.lor TH_SYN TH_RST)
               = true)
    /\ (In (Event DECODE_TCP_SYN_FIN) new
        <-> ret = true
            /\ TCP_ISFLAGSET (flags_segment 0x06) 0 (Z.lor TH_SYN TH_FIN)
               = true)
    /\ (In (Event DECODE_SYN_TO_MULTICAST) new
        <-> ret = true
            /\ TCP_ISFLAGSET (flags_segment 0x06) 0 TH_SYN = true
            /\ sfvar_ip_in_SynToMulticastDstIp env_plain
                 (ip_api (pkt (sample_world 1 0))) = true).
Proof.
  destruct (decode env_plain (flags_segment 0x06) 0 20 (sample_world 1 0))
    as [[[ret lyr] w']|f] eqn:E; [|vm_compute in E; discriminate E].
  destruct (decode_syn_events env_plain (flags_segment 0x06) 0 20
              (sample_world 1 0) ret lyr w' eq_refl E) as (new & H).
  exists ret, lyr, w', new. split; [reflexivity | exact H].
Defined.

(** X7.  [decode] raises TCP_NO_SYN_ACK_RST exactly when it returns
    success on a header with none of SYN, ACK and RST set, and
    TCP_MUST_ACK exactly when it returns success on a header with one of
    FIN, PUSH and URG set and ACK clear. *)
Theorem decode_ack_events (env : Env) (m : mem) (raw_pkt : ptr)
    (raw_len : Z) (w : World) (ret : bool) (lyr : option Z) (w' : World) :
  length (tcp_options (pkt w)) = 40%nat ->
  decode env m raw_pkt raw_len w = Ok (ret, lyr, w') ->
  exists new,
    trace w' = trace w ++ new
    /\ (In (Event DECODE_TCP_NO_SYN_ACK_RST) new
        <-> ret = true
            /\ Z.land (th_flags m raw_pkt)
                 (Z.lor TH_SYN (Z.lor TH_ACK TH_RST)) = 0)
    /\ (In (Event DECODE_TCP_MUST_ACK) new
        <-> ret = true
            /\ Z.land (th_flags m raw_pkt)
                 (Z.lor TH_FIN (Z.lor TH_PUSH TH_URG)) <> 0
            /\ Z.land (th_flags m raw_pkt) TH_ACK = 0).
Proof.
  intros Hl Hd.
  destruct (decode_test_events env m raw_pkt raw_len w ret lyr w' Hl Hd)
    as (new & Ht & He & _).
  destruct (In_flag_events_syn env m raw_pkt (ip_api (pkt w)))
    as (_ & _ & _ & H4 & H5).
  destruct (flag_masks (th_flags m raw_pkt) (load8_range _ _))
    as (_ & _ & _ & M4).
  exists new. split; [exact Ht|]. split.
  - rewrite He by (cbn; auto 10). rewrite H4.
    unfold TCP_ISFLAGSET. rewrite M4, Z.eqb_eq. reflexivity.
  - rewrite He by (cbn; auto 10). rewrite H5.
    rewrite andb_true_iff, negb_true_iff, Z.eqb_neq, Z.eqb_eq. reflexivity.
Qed.

(** A segment with no flag but FIN set. *)
Lemma decode_ack_events_witness :
  exists ret lyr w' new,
    decode env_plain (flags_segment 0x01) 0 20 (sample_world 1 0)
    = Ok (ret, lyr, w')
    /\ trace w' = [] ++ new
    /\ (In (Event DECODE_TCP_NO_SYN_ACK_RST) new
        <-> ret = true
            /\ Z.land (th_flags (flags_segment 0x01) 0)
                 (Z.lor TH_SYN (Z.lor TH_ACK TH_RST)) = 0)
    /\ (In (Event DECODE_TCP_MUST_ACK) new
        <-> ret = true
            /\ Z.land (th_flags (flags_segment 0x01) 0)
                 (Z.lor TH_FIN (Z.lor TH_PUSH TH_URG)) <> 0
            /\ Z.land (th_flags (flags_segment 0x01) 0) TH_ACK = 0).
Proof.
  destruct (decode env_plain (flags_segment 0x01) 0 20 (sample_world 1 0))
    as [[[ret lyr] w']|f] eqn:E; [|vm_compute in E; discriminate E].
  destruct (decode_ack_events env_plain (flags_segment 0x01) 0 20
              (sample_world 1 0) ret lyr w' eq_refl E) as (new & H).
  exists ret, lyr, w', new. split; [reflexivity | exact H].
Defined.


Lemma htonl_eq_iff (env : Env) (x c : Z) :
  0 <= x < 4294967296 -> 0 <= c < 4294967296 ->
  x = htonl env c <-> ntohl env x = c.
Proof.
  intros Hx Hc. unfold htonl, ntohl.
  destruct (host_big_endian env); [reflexivity|].
  split; intros H.
  - rewrite H. apply bswap32_involutive, Hc.
  - rewrite <- H. symmetry. apply bswap32_involutive, Hx.
Qed.

(** X8.  [decode] raises TCP_SHAFT_SYNFLOOD exactly when it returns
    success on a header whose flags are SYN and nothing else of the six
    and whose sequence number is 674711609; the sequence number is the
    big-endian number of the four bytes at offset 4, whatever the byte
    order of the host. *)
Theorem decode_shaft_synflood (env : Env) (m : mem) (raw_pkt : ptr)
    (raw_len : Z) (w : World) (ret : bool) (lyr : option Z) (w' : World) :
  length (tcp_options (pkt w)) = 40%nat ->
  decode env m raw_pkt raw_len w = Ok (ret, lyr, w') ->
  seq_number env m raw_pkt
  = load8 m (raw_pkt + 4) * 16777216 + load8 m (raw_pkt + 5) * 65536
    + load8 m (raw_pkt + 6) * 256 + load8 m (raw_pkt + 7)
  /\ exists new,
       trace w' = trace w ++ new
       /\ (In (Event DECODE_TCP_SHAFT_SYNFLOOD) new
           <-> ret = true
               /\ Z.land (th_flags m raw_pkt) TH_NORESERVED = TH_SYN
               /\ seq_number env m raw_pkt = 674711609).
Proof.
  intros Hl Hd. split.
  - unfold seq_number, th_seq. rewrite ntohl_load32.
    rewrite <- !Z.add_assoc. reflexivity.
  - destruct (decode_test_events env m raw_pkt raw_len w ret lyr w' Hl Hd)
      as (new & Ht & _ & He).
    exists new. split; [exact Ht|].
    rewrite He by (cbn; auto 10).
    destruct (In_tail_events env m raw_pkt
                ((raw_len - hdr_len m raw_pkt) mod 65536)) as (_ & H2 & _).
    rewrite H2, andb_true_iff, !Z.eqb_eq.
    unfold seq_number.
    rewrite (htonl_eq_iff env (th_seq env m raw_pkt) 674711609);
      [reflexivity | apply load32_range | lia].
Qed.

(** A pure SYN with the sequence number 674711609. *)
Lemma decode_shaft_synflood_witness :
  exists ret lyr w' new,
    decode env_plain shaft_segment 0 20 (sample_world 1 0)
    = Ok (ret, lyr, w')
    /\ trace w' = [] ++ new
    /\ (In (Event DECODE_TCP_SHAFT_SYNFLOOD) new
        <-> ret = true
            /\ Z.land (th_flags shaft_segment 0) TH_NORESERVED = TH_SYN
            /\ seq_number env_plain shaft_segment 0 = 674711609).
Proof.
  destruct (decode env_plain shaft_segment 0 20 (sample_world 1 0))
    as [[[ret lyr] w']|f] eqn:E; [|vm_compute in E; discriminate E].
  destruct (decode_shaft_synflood env_plain shaft_segment 0 20
              (sample_world 1 0) ret lyr w' eq_refl E) as (_ & new & H).
  exists ret, lyr, w', new. split; [reflexivity | exact H].
Defined.

(** X9.  A [decode] that returns success stores the ports in host order:
    each is the big-endian number of its two bytes in the header,
    whatever the byte order of the host.  [decode] raises TCP_PORT_ZERO
    exactly when it returns success and one of the two ports is 0. *)
Theorem decode_ports (env : Env) (m : mem) (raw_pkt : ptr)
    (raw_len : Z) (w : World) (ret : bool) (lyr : option Z) (w' : World) :
  length (tcp_options (pkt w)) = 40%nat ->
  decode env m raw_pkt raw_len w = Ok (ret, lyr, w') ->
  (ret = true ->
   sp (pkt w') = load8 m raw_pkt * 256 + load8 m (raw_pkt + 1)
   /\ dp (pkt w') = load8 m (raw_pkt + 2) * 256 + load8 m (raw_pkt + 3))
  /\ exists new,
       trace w' = trace w ++ new
       /\ (In (Event DECODE_TCP_PORT_ZERO) new
           <-> ret = true /\ (sp (pkt w') = 0 \/ dp (pkt w') = 0)).
Proof.
  intros Hl Hd.
  assert (Hp : ret = true ->
               sp (pkt w') = ntohs env (th_sport env m raw_pkt)
               /\ dp (pkt w') = ntohs env (th_dport env m raw_pkt)).
  { intros ->. apply decode_success_post in Hd as (_ & F & _); [|exact Hl].
    destruct F as (_ & F1 & F2 & _). auto. }
  split.
  - intros Hr. destruct (Hp Hr) as [-> ->].
    unfold th_sport, th_dport. rewrite !ntohs_load16.
    rewrite <- !Z.add_assoc. auto.
  - destruct (decode_test_events env m raw_pkt raw_len w ret lyr w' Hl Hd)
      as (new & Ht & _ & He).
    exists new. split; [exact Ht|].
    rewrite He by (cbn; auto 10).
    destruct (In_tail_events env m raw_pkt
                ((raw_len - hdr_len m raw_pkt) mod 65536)) as (_ & _ & H3).
    rewrite H3, orb_true_iff, !Z.eqb_eq.
    split; intros [Hr H]; (split; [exact Hr|]);
      destruct (Hp Hr) as [E1 E2]; rewrite E1, E2 in *; exact H.
Qed.

(** A SYN from port 0. *)
Lemma decode_ports_witness :
  exists ret lyr w',
    decode env_plain shaft_segment 0 20 (sample_world 1 0)
    = Ok (ret, lyr, w')
    /\ (ret = true ->
        sp (pkt w') = load8 shaft_segment 0 * 256 + load8 shaft_segment (0 + 1)
        /\ dp (pkt w')
           = load8 shaft_segment (0 + 2) * 256 + load8 shaft_segment (0 + 3))
    /\ exists new,
         trace w' = [] ++ new
         /\ (In (Event DECODE_TCP_PORT_ZERO) new
             <-> ret = true /\ (sp (pkt w') = 0 \/ dp (pkt w') = 0)).
Proof.
  destruct (decode env_plain shaft_segment 0 20 (sample_world 1 0))
    as [[[ret lyr] w']|f] eqn:E; [|vm_compute in E; discriminate E].
  exists ret, lyr, w'. split; [reflexivity|].
  apply (decode_ports env_plain shaft_segment 0 20 (sample_world 1 0)
           ret lyr w' eq_refl E).
Defined.

(** X10.  A [decode] that returns success sets the data pointer behind
    the header and the payload size to the rest of the segment, as a
    16-bit number; for a segment of fewer than 65536 bytes header and
    payload make up the segment.  [decode] raises TCP_BAD_URP exactly when
    it returns success on a header with URG set and the payload is empty
    or shorter than the urgent pointer. *)
Theorem decode_payload_and_urgent (env : Env) (m : mem) (raw_pkt : ptr)
    (raw_len : Z) (w : World) (ret : bool) (lyr : option Z) (w' : World) :
  length (tcp_options (pkt w)) = 40%nat ->
  decode env m raw_pkt raw_len w = Ok (ret, lyr, w') ->
  (ret = true ->
   data (pkt w') = raw_pkt + hdr_len m raw_pkt
   /\ dsize (pkt w') = (raw_len - hdr_len m raw_pkt) mod 65536
   /\ (raw_len < 65536 -> hdr_len m raw_pkt + dsize (pkt w') = raw_len))
  /\ exists new,
       trace w' = trace w ++ new
       /\ (In (Event DECODE_TCP_BAD_URP) new
           <-> ret = true
               /\ Z.land (th_flags m raw_pkt) TH_URG <> 0
               /\ (dsize (pkt w') = 0
                   \/ dsize (pkt w')
                      < load8 m (raw_pkt + 18) * 256 + load8 m (raw_pkt + 19))).
Proof.
  intros Hl Hd.
  assert (Hp : ret = true ->
               20 <= hdr_len m raw_pkt <= raw_len
               /\ data (pkt w') = raw_pkt + hdr_len m raw_pkt
               /\ dsize (pkt w') = (raw_len - hdr_len m raw_pkt) mod 65536).
  { intros ->.
    apply decode_success_post in Hd as ((_ & B & _) & F & _); [|exact Hl].
    destruct F as (_ & _ & _ & F1 & F2 & _).
    split; [exact B|]. split; [exact F1|]. rewrite F2.
    unfold payload_size.
    destruct (hdr_len m raw_pkt <? raw_len) eqn:E; [reflexivity|].
    replace (raw_len - hdr_len m raw_pkt) with 0 by lia. reflexivity. }
  split.
  - intros Hr. destruct (Hp Hr) as (B & E1 & E2).
    split; [exact E1|]. split; [exact E2|].
    intros Hs. rewrite E2, Z.mod_small by lia. lia.
  - destruct (decode_test_events env m raw_pkt raw_len w ret lyr w' Hl Hd)
      as (new & Ht & _ & He).
    exists new. split; [exact Ht|].
    rewrite He by (cbn; auto 10).
    destruct (In_tail_events env m raw_pkt
                ((raw_len - hdr_len m raw_pkt) mod 65536)) as (H1 & _).
    rewrite H1, andb_true_iff, orb_true_iff, negb_true_iff, Z.eqb_neq,
      Z.eqb_eq, Z.ltb_lt.
    unfold th_urp. rewrite ntohs_load16, <- !Z.add_assoc.
    change (18 + 1) with 19.
    split; intros (Hr & H); (split; [exact Hr|]);
      destruct (Hp Hr) as (_ & _ & E2); rewrite E2 in *; exact H.
Qed.

(** A segment with URG set, a payload of 4 bytes and an urgent pointer of
    5. *)
Lemma decode_payload_and_urgent_witness :
  exists ret lyr w',
    decode env_plain urgent_segment 0 24 (sample_world 1 0)
    = Ok (ret, lyr, w')
    /\ (ret = true ->
        data (pkt w') = 0 + hdr_len urgent_segment 0
        /\ dsize (pkt w') = (24 - hdr_len urgent_segment 0) mod 65536
        /\ (24 < 65536 -> hdr_len urgent_segment 0 + dsize (pkt w') = 24))
    /\ exists new,
         trace w' = [] ++ new
         /\ (In (Event DECODE_TCP_BAD_URP) new
             <-> ret = true
                 /\ Z.land (th_flags urgent_segment 0) TH_URG <> 0
                 /\ (dsize (pkt w') = 0
                     \/ dsize (pkt w')
                        < load8 urgent_segment (0 + 18) * 256
                          + load8 urgent_segment (0 + 19))).
Proof.
  destruct (decode env_plain urgent_segment 0 24 (sample_world 1 0))
    as [[[ret lyr] w']|f] eqn:E; [|vm_compute in E; discriminate E].
  exists ret, lyr, w'. split; [reflexivity|].
  apply (decode_payload_and_urgent env_plain urgent_segment 0 24
           (sample_world 1 0) ret lyr w' eq_refl E).
Defined.


(** ** The packet after [decode] *)

(** X11.  A [decode] that returns success has found a data offset of at
    least 5 and a header that fits in the segment, stores the header
    length in [lyr_len], leaves the header reference set, sets the TCP
    protocol bit and leaves the decode flags, the packet flags and the IP
    layer alone.  It counts at most as many options as the header has
    option bytes, and every counted option record describes an option
    inside the header: its kind is a byte between the 20 fixed bytes and
    the end of the header, and its payload lies before the end of the
    header.  For a data offset of 5 the option count is 0 and the option
    array is left as it was. *)
Theorem decode_success_state (env : Env) (m : mem) (raw_pkt : ptr)
    (raw_len : Z) (w : World) (lyr : option Z) (w' : World) :
  length (tcp_options (pkt w)) = 40%nat ->
  decode env m raw_pkt raw_len w = Ok (true, lyr, w') ->
  let hl := hdr_len m raw_pkt in
  (5 <= TCP_OFFSET m raw_pkt /\ hl = TCP_OFFSET m raw_pkt * 4
   /\ 20 <= hl <= raw_len /\ lyr = Some hl)
  /\ (tcph (pkt w') = Some raw_pkt
      /\ proto_bits (pkt w')
         = Z.lor (proto_bits (pkt w)) (PROTO_BIT__TCP env)
      /\ decode_flags (pkt w') = decode_flags (pkt w)
      /\ packet_flags (pkt w') = packet_flags (pkt w)
      /\ ip_api (pkt w') = ip_api (pkt w))
  /\ (0 <= tcp_option_count (pkt w') <= hl - 20
      /\ (forall i,
            0 <= i < tcp_option_count (pkt w') ->
            exists p,
              raw_pkt + 20 <= p < raw_pkt + hl
              /\ opt_code (get_option w' i) = load8 m p
              /\ match opt_data (get_option w' i) with
                 | None => opt_len (get_option w' i) = 0
                 | Some d =>
                     d = p + 2 /\ 1 <= opt_len (get_option w' i)
                     /\ d + opt_len (get_option w' i) <= raw_pkt + hl
                 end)
      /\ (hl = 20 -> tcp_options (pkt w') = tcp_options (pkt w))).
Proof.
  intros Hl Hd hl. subst hl.
  apply decode_success_post in Hd
    as ((_ & B & Hlyr & _) & F & (Hc & _ & Hrec & Hnone) & _);
    [|exact Hl].
  destruct F as (F1 & _ & _ & _ & _ & F6 & _ & F8 & F9 & F10).
  pose proof (hdr_len_offset m raw_pkt) as [Ho _].
  split; [repeat split; auto; lia|]. split; [auto 10|].
  split; [exact Hc|]. split; [|exact Hnone].
  intros i Hi. destruct (Hrec (Z.to_nat i)) as (o & Ho' & Hw); [lia|].
  unfold get_option. rewrite Ho'. exact Hw.
Qed.

(** A SYN with a data offset of 6 and a window scale option. *)
Lemma decode_success_state_witness :
  exists lyr w',
    decode env_passive syn_wscale_segment 0 24 (sample_world 1 0)
    = Ok (true, lyr, w')
    /\ lyr = Some (hdr_len syn_wscale_segment 0)
    /\ tcph (pkt w') = Some 0
    /\ 0 <= tcp_option_count (pkt w') <= hdr_len syn_wscale_segment 0 - 20.
Proof.
  destruct (decode env_passive syn_wscale_segment 0 24 (sample_world 1 0))
    as [[[ret lyr] w']|f] eqn:E; [|vm_compute in E; discriminate E].
  assert (Hr : ret = true).
  { apply (f_equal (fun r => match r with
                             | Ok (b, _, _) => b
                             | Fault _ => false
                             end)) in E.
    vm_compute in E. symmetry. exact E. }
  subst ret. exists lyr, w'. split; [reflexivity|].
  destruct (decode_success_state env_passive syn_wscale_segment 0 24
              (sample_world 1 0) lyr w' eq_refl E)
    as ((_ & _ & _ & H1) & (H2 & _) & (H3 & _)).
  auto.
Defined.

(** The ways in which [decode] fails, and what a failed [decode] leaves
    behind. *)
Lemma decode_failure_post (env : Env) (m : mem) (raw_pkt : ptr)
    (raw_len : Z) (w : World) (ret : bool) (lyr : option Z) (w' : World) :
  decode env m raw_pkt raw_len w = Ok (ret, lyr, w') ->
  (ret = false
   <-> raw_len < 20 \/ hdr_len m raw_pkt < 20 \/ raw_len < hdr_len m raw_pkt
       \/ (checksum_bad env m raw_pkt raw_len (pkt w) = true
           /\ unsure_encap env (pkt w) = true))
  /\ (ret = false ->
      lyr = (if raw_len <? 20 then None else Some (hdr_len m raw_pkt))
      /\ pkt w' = pkt (set_tcph w None)
      /\ exists new, trace w' = trace w ++ new /\ ~ In ActiveDrop new).
Proof.
  unfold decode, TCP_HEADER_LEN, checksum_bad.
  destruct (raw_len <? 20) eqn:E0.
  { intros [= <- <- <-]. split; [split; [lia | reflexivity]|].
    intros _. split; [reflexivity|]. split; [reflexivity|].
    eexists. split; [cbn; rewrite <- app_assoc; reflexivity|].
    cbn. intuition discriminate. }
  destruct (hdr_len m raw_pkt <? 20) eqn:E1.
  { intros [= <- <- <-]. split; [split; [lia | reflexivity]|].
    intros _. split; [reflexivity|]. split; [reflexivity|].
    eexists. split; [cbn; rewrite <- !app_assoc; reflexivity|].
    cbn. intuition discriminate. }
  destruct (raw_len <? hdr_len m raw_pkt) eqn:E2.
  { intros [= <- <- <-]. split; [split; [lia | reflexivity]|].
    intros _. split; [reflexivity|]. split; [reflexivity|].
    eexists. split; [cbn; rewrite <- !app_assoc; reflexivity|].
    cbn. intuition discriminate. }
  unfold decode_checksum, deref_tcph.
  cbn [set_tcph pkt tcph bind ip_api decode_flags].
  assert (Hok : forall w1 : World,
            (let* w2 := decode_rest env m raw_pkt raw_len
                          (hdr_len m raw_pkt) w1 in
             Ok (true, Some (hdr_len m raw_pkt), w2))
            = Ok (ret, lyr, w') -> ret = true).
  { intros w1.
    destruct (decode_rest env m raw_pkt raw_len (hdr_len m raw_pkt) w1);
      cbn [bind]; [|discriminate].
    intros [= <- _ _]. reflexivity. }
  destruct (ScTcpChecksums env); cbn [andb].
  - destruct (negb (decode_csum env m raw_pkt raw_len (ip_api (pkt w)) =? 0)).
    + unfold unsure_encap at 1. cbn [decode_flags].
      fold (unsure_encap env (pkt w)).
      destruct (unsure_encap env (pkt w)); cbn [bind].
      * intros [= <- <- <-]. split; [split; [auto 10 | reflexivity]|].
        intros _. split; [reflexivity|]. split; [reflexivity|].
        eexists. split; [cbn; rewrite <- !app_assoc; reflexivity|].
        cbn. intuition discriminate.
      * cbv zeta. intros H. apply Hok in H. subst ret.
        split; [|discriminate].
        split; [discriminate|]. intros [H | [H | [H | [_ H]]]];
          try lia; discriminate H.
    + cbn [bind]. intros H. apply Hok in H. subst ret.
      split; [|discriminate].
      split; [discriminate|]. intros [H | [H | [H | [H _]]]];
        try lia; discriminate H.
  - cbn [bind]. intros H. apply Hok in H. subst ret.
    split; [|discriminate].
    split; [discriminate|]. intros [H | [H | [H | [H _]]]];
      try lia; discriminate H.
Qed.

(** X12.  [decode] returns failure exactly when the segment has fewer
    than 20 bytes, or the data offset is below 5, or the header is longer
    than the segment, or checksum verification is on, the checksum is bad
    and the packet's unsure_encap flag is set.  A [decode] that returns
    failure stores the header length in [lyr_len] unless the segment has
    fewer than 20 bytes, requests no drop, and leaves the packet as it was
    but for the header reference, which is null. *)
Theorem decode_failure (env : Env) (m : mem) (raw_pkt : ptr)
    (raw_len : Z) (w : World) (ret : bool) (lyr : option Z) (w' : World) :
  decode env m raw_pkt raw_len w = Ok (ret, lyr, w') ->
  (ret = false
   <-> raw_len < 20 \/ hdr_len m raw_pkt < 20 \/ raw_len < hdr_len m raw_pkt
       \/ (checksum_bad env m raw_pkt raw_len (pkt w) = true
           /\ unsure_encap env (pkt w) = true))
  /\ (ret = false ->
      lyr = (if raw_len <? 20 then None else Some (hdr_len m raw_pkt))
      /\ pkt w' = pkt (set_tcph w None)
      /\ exists new, trace w' = trace w ++ new /\ ~ In ActiveDrop new).
Proof. apply decode_failure_post. Qed.

(** A fragment of 16 bytes. *)
Lemma decode_failure_witness :
  exists ret lyr w',
    decode env_passive short_segment 0 16 (sample_world 1 0)
    = Ok (ret, lyr, w')
    /\ (ret = false
        <-> 16 < 20 \/ hdr_len short_segment 0 < 20
            \/ 16 < hdr_len short_segment 0
            \/ (checksum_bad env_passive short_segment 0 16
                  (pkt (sample_world 1 0)) = true
                /\ unsure_encap env_passive (pkt (sample_world 1 0)) = true))
    /\ (ret = false ->
        lyr = (if 16 <? 20 then None else Some (hdr_len short_segment 0))
        /\ pkt w' = pkt (set_tcph (sample_world 1 0) None)
        /\ exists new, trace w' = [] ++ new /\ ~ In ActiveDrop new).
Proof.
  destruct (decode env_passive short_segment 0 16 (sample_world 1 0))
    as [[[ret lyr] w']|f] eqn:E; [|vm_compute in E; discriminate E].
  exists ret, lyr, w'. split; [reflexivity|].
  apply (decode_failure env_passive short_segment 0 16 (sample_world 1 0)
           ret lyr w' E).
Defined.

(** X13.  [decode] sets PKT_ERR_CKSUM_TCP exactly when it returns success
    with checksum verification on and a bad checksum, and leaves the error
    flags as they were otherwise; it requests a drop exactly when, in
    addition, inline mode and the TCP checksum drop policy are both on.
    With checksum verification off it does neither. *)
Theorem decode_checksum_effects (env : Env) (m : mem) (raw_pkt : ptr)
    (raw_len : Z) (w : World) (ret : bool) (lyr : option Z) (w' : World) :
  length (tcp_options (pkt w)) = 40%nat ->
  decode env m raw_pkt raw_len w = Ok (ret, lyr, w') ->
  error_flags (pkt w')
  = (if ret && checksum_bad env m raw_pkt raw_len (pkt w)
     then Z.lor (error_flags (pkt w)) (PKT_ERR_CKSUM_TCP env)
     else error_flags (pkt w))
  /\ (exists new,
        trace w' = trace w ++ new
        /\ (In ActiveDrop new
            <-> ret = true
                /\ checksum_bad env m raw_pkt raw_len (pkt w) = true
                /\ ScInlineMode env = true
                /\ ScTcpChecksumDrops env = true))
  /\ (ScTcpChecksums env = false ->
      checksum_bad env m raw_pkt raw_len (pkt w) = false).
Proof.
  intros Hl Hd.
  split; [|split; [|intros H; unfold checksum_bad; rewrite H; reflexivity]].
  - destruct ret; cbn [andb].
    + apply decode_success_post in Hd as (_ & F & _); [|exact Hl].
      apply F.
    + apply decode_failure_post in Hd as (_ & H).
      destruct (H eq_refl) as (_ & -> & _).
      reflexivity.
  - destruct ret.
    + apply decode_success_post in Hd as (_ & _ & _ & n & last & Ht & _);
        [|exact Hl].
      eexists. split; [exact Ht|].
      destruct (checksum_bad env m raw_pkt raw_len (pkt w)); cbn [andb];
        [destruct (ScInlineMode env); destruct (ScTcpChecksumDrops env)|];
        cbn [andb app].
      all: split;
        [ intros [H | H]; [discriminate H|];
          try (destruct H as [H | H]; [auto|]);
          try (exfalso; revert H; apply not_in_map_Event; intros e;
               discriminate);
          auto
        | intros (_ & H1 & H2 & H3);
          try discriminate; right; left; reflexivity ].
    + apply decode_failure_post in Hd as (_ & H).
      destruct (H eq_refl) as (_ & _ & new & Ht & Hn).
      exists new. split; [exact Ht|]. split; [intros Hin; contradiction|].
      intros [H1 _]. discriminate H1.
Qed.

(** The SYN of S1 with a corrupted checksum on an inline sensor that
    drops on bad TCP checksums. *)
Lemma decode_checksum_effects_witness :
  exists ret lyr w',
    decode env_inline seg_syn_badsum 0 20 (sample_world 1 0)
    = Ok (ret, lyr, w')
    /\ error_flags (pkt w')
       = (if ret && checksum_bad env_inline seg_syn_badsum 0 20
                      (pkt (sample_world 1 0))
          then Z.lor (error_flags (pkt (sample_world 1 0)))
                 (PKT_ERR_CKSUM_TCP env_inline)
          else error_flags (pkt (sample_world 1 0)))
    /\ exists new,
         trace w' = [] ++ new
         /\ (In ActiveDrop new
             <-> ret = true
                 /\ checksum_bad env_inline seg_syn_badsum 0 20
                      (pkt (sample_world 1 0)) = true
                 /\ ScInlineMode env_inline = true
                 /\ ScTcpChecksumDrops env_inline = true).
Proof.
  destruct (decode env_inline seg_syn_badsum 0 20 (sample_world 1 0))
    as [[[ret lyr] w']|f] eqn:E; [|vm_compute in E; discriminate E].
  exists ret, lyr, w'. split; [reflexivity|].
  destruct (decode_checksum_effects env_inline seg_syn_badsum 0 20
              (sample_world 1 0) ret lyr w' eq_refl E) as (H1 & H2 & _).
  split; [exact H1 | exact H2].
Defined.


(** ** The bytes that [decode] reads *)

Section DecodeReads.
Variable env : Env.
Variable m m' : mem.

Lemma header_agree (h : ptr) :
  agree_on m m' h (h + 20) ->
  th_sport env m' h = th_sport env m h
  /\ th_dport env m' h = th_dport env m h
  /\ th_seq env m' h = th_seq env m h
  /\ th_flags m' h = th_flags m h
  /\ th_urp env m' h = th_urp env m h
  /\ hdr_len m' h = hdr_len m h.
Proof.
  intros Hag.
  assert (H8 : forall x, h <= x < h + 20 -> load8 m' x = load8 m x)
    by (intros x Hx; symmetry; apply Hag; exact Hx).
  unfold th_sport, th_dport, th_seq, th_flags, th_urp, hdr_len, th_offx2.
  repeat split;
    first [ apply load16_ext; intros b Hb; apply H8; lia
          | apply load32_ext; intros b Hb; apply H8; lia
          | rewrite H8 by lia; reflexivity ].
Qed.

Lemma decode_flag_tests_ext (w : World) (h : ptr) :
  tcph (pkt w) = Some h ->
  agree_on m m' h (h + 20) ->
  decode_flag_tests env m' w = decode_flag_tests env m w.
Proof.
  intros Hh Hag.
  destruct (header_agree h Hag) as (_ & _ & Hseq & Hfl & _).
  unfold decode_flag_tests, deref_tcph, TCP_ISFLAGSET. rewrite Hh.
  cbn [bind]. rewrite !Hfl, !Hseq. reflexivity.
Qed.

Lemma decode_payload_ext (raw_pkt : ptr) (raw_len lyr_len : Z) (w : World) :
  tcph (pkt w) = Some raw_pkt ->
  length (tcp_options (pkt w)) = 40%nat ->
  20 <= hdr_len m raw_pkt <= raw_len ->
  agree_on m m' raw_pkt (raw_pkt + raw_len) ->
  decode_payload env m' raw_pkt raw_len lyr_len w
  = decode_payload env m raw_pkt raw_len lyr_len w.
Proof.
  intros Hh Hl Hoff Hag.
  assert (Hag20 : agree_on m m' raw_pkt (raw_pkt + 20))
    by (intros x Hx; apply Hag; lia).
  destruct (header_agree raw_pkt Hag20) as (Hsp & Hdp & Hseq & Hfl & Hurp & Hhl).
  pose proof (tcp_opt_len_range m raw_pkt ltac:(lia)) as [_ Hrange].
  pose proof (hdr_len_offset m raw_pkt) as [Hhl4 _].
  assert (Hol : tcp_opt_len m' raw_pkt = tcp_opt_len m raw_pkt)
    by (unfold tcp_opt_len; rewrite Hhl; reflexivity).
  assert (Hlen : tcp_opt_len m raw_pkt = hdr_len m raw_pkt - 20).
  { unfold tcp_opt_len, TCP_HEADER_LEN. apply Z.mod_small.
    pose proof (hdr_len_range m raw_pkt). lia. }
  unfold decode_payload. unfold deref_tcph at 1 3. rewrite Hh. cbn [bind].
  rewrite Hsp, Hdp, Hol.
  set (w1 := with_pkt w _).
  rewrite (DecodeTCPOptions_ext env m m');
    [ | exact Hl
      | intros x Hx; apply Hag; unfold TCP_HEADER_LEN in Hx; lia ].
  assert (Hw2 : forall w2,
            (if 0 <? tcp_opt_len m raw_pkt
             then DecodeTCPOptions env m (raw_pkt + TCP_HEADER_LEN)
                    (tcp_opt_len m raw_pkt) w1
             else Ok (with_pkt w1 (fun p => set_tcp_option_count p 0)))
            = Ok w2 ->
            tcph (pkt w2) = Some raw_pkt).
  { intros w2. destruct (0 <? tcp_opt_len m raw_pkt).
    - destruct (DecodeTCPOptions_ok env m (raw_pkt + TCP_HEADER_LEN)
                  (tcp_opt_len m raw_pkt) w1) as (w2' & -> & F);
        [unfold TCP_OPTLENMAX; lia | exact Hl |].
      intros [= <-]. destruct F as (-> & _). exact Hh.
    - intros [= <-]. exact Hh. }
  destruct (if 0 <? tcp_opt_len m raw_pkt then _ else _) as [w2|f];
    cbn [bind]; [|reflexivity].
  specialize (Hw2 w2 eq_refl).
  unfold deref_tcph. cbn [pkt with_pkt set_data tcph]. rewrite Hw2.
  cbn [bind]. rewrite Hfl, Hurp.
  unfold TCPMiscTests, deref_tcph.
  match goal with
  | |- context [if ?b then decoder_event ?w3 DECODE_TCP_BAD_URP else _] =>
      destruct b
  end;
    cbn [pkt with_pkt decoder_event set_proto_bits set_data tcph];
    rewrite Hw2; cbn [bind]; rewrite Hfl, Hseq; reflexivity.
Qed.

Lemma decode_ext (raw_pkt : ptr) (raw_len : Z) (w : World) :
  length (tcp_options (pkt w)) = 40%nat ->
  agree_on m m' raw_pkt (raw_pkt + raw_len) ->
  (ScTcpChecksums env = true -> 20 <= raw_len ->
   decode_csum env m' raw_pkt raw_len (ip_api (pkt w))
   = decode_csum env m raw_pkt raw_len (ip_api (pkt w))) ->
  decode env m' raw_pkt raw_len w = decode env m raw_pkt raw_len w.
Proof.
  intros Hl Hag Hcs. unfold decode, TCP_HEADER_LEN.
  destruct (raw_len <? 20) eqn:E0; [reflexivity|].
  assert (Hag20 : agree_on m m' raw_pkt (raw_pkt + 20))
    by (intros x Hx; apply Hag; lia).
  destruct (header_agree raw_pkt Hag20) as (_ & _ & _ & _ & _ & Hhl).
  rewrite Hhl.
  destruct (hdr_len m raw_pkt <? 20) eqn:E1; [reflexivity|].
  destruct (raw_len <? hdr_len m raw_pkt) eqn:E2; [reflexivity|].
  assert (Hc : decode_checksum env m' raw_len (set_tcph w (Some raw_pkt))
               = decode_checksum env m raw_len (set_tcph w (Some raw_pkt))).
  { unfold decode_checksum, deref_tcph.
    cbn [set_tcph pkt tcph bind ip_api decode_flags].
    destruct (ScTcpChecksums env) eqn:Es; [|reflexivity].
    rewrite Hcs by (auto; lia). reflexivity. }
  rewrite Hc.
  destruct (decode_checksum env m raw_len (set_tcph w (Some raw_pkt)))
    as [[w1|w1]|f] eqn:C; cbn [bind]; try reflexivity.
  apply (decode_checksum_next _ _ _ _ _ raw_pkt) in C
    as (C1 & _ & C3 & _); [|reflexivity].
  cbn [pkt set_tcph tcp_options] in C3.
  unfold decode_rest.
  rewrite (decode_flag_tests_ext w1 raw_pkt C1 Hag20).
  destruct (decode_flag_tests_frame env m w1 raw_pkt C1) as (w2 & -> & F).
  cbn [bind]. destruct F as (F1 & _ & _ & F4 & _).
  rewrite decode_payload_ext;
    [reflexivity | congruence | congruence | lia | exact Hag].
Qed.
End DecodeReads.

(** X14.  [decode] reads no byte outside the segment it is given: on two
    memories that hold the same bytes in the [raw_len] bytes at [raw_pkt],
    and for which the checksum routine, where it is called, gives the same
    checksum, it does the same. *)
Theorem decode_reads_within_segment (env : Env) (m m' : mem) (raw_pkt : ptr)
    (raw_len : Z) (w : World) :
  length (tcp_options (pkt w)) = 40%nat ->
  agree_on m m' raw_pkt (raw_pkt + raw_len) ->
  (ScTcpChecksums env = true -> 20 <= raw_len ->
   decode_csum env m' raw_pkt raw_len (ip_api (pkt w))
   = decode_csum env m raw_pkt raw_len (ip_api (pkt w))) ->
  decode env m' raw_pkt raw_len w = decode env m raw_pkt raw_len w.
Proof. apply decode_ext. Qed.

(** A segment of 24 bytes, alone and with four more bytes behind it. *)
Lemma decode_reads_within_segment_witness :
  decode env_passive syn_wscale_segment_tail 0 24 (sample_world 1 0)
  = decode env_passive syn_wscale_segment 0 24 (sample_world 1 0).
Proof.
  apply (decode_reads_within_segment env_passive syn_wscale_segment
           syn_wscale_segment_tail 0 24 (sample_world 1 0)).
  - reflexivity.
  - intros x Hx. replace x with (Z.of_nat (Z.to_nat x)) by lia.
    assert (Hn : (Z.to_nat x < 24)%nat) by lia.
    revert Hn. generalize (Z.to_nat x). intros n Hn.
    do 24 (destruct n as [|n]; [reflexivity|]). lia.
  - intros _ _. vm_compute. reflexivity.
Defined.


(** ** More on [encode] *)

Section EncodeShape.
Variable env : Env.

Lemma payload_attached_fields (mi : mem) (enc : EncState) (out : Buffer) :
  base (payload_attached mi enc out) = base out - attached_len enc
  /\ buf_end (payload_attached mi enc out) = buf_end out + attached_len enc
  /\ buf_size (payload_attached mi enc out) = buf_size out
  /\ 0 <= attached_len enc
  /\ (forall b,
        b < base out - attached_len enc \/ base out <= b ->
        load8 (buf_mem (payload_attached mi enc out)) b
        = load8 (buf_mem out) b)
  /\ (forall pl k,
        payLoad enc = Some pl -> 0 <= k < attached_len enc ->
        load8 (buf_mem (payload_attached mi enc out))
          (base out - attached_len enc + k)
        = load8 mi (pl + k)).
Proof.
  unfold payload_attached, attached_len.
  destruct (payLoad enc) as [pl|].
  2:{ repeat split; lia. }
  destruct (is_fin_or_push (enc_type enc) && (0 <? payLen enc)) eqn:E.
  2:{ repeat split; lia. }
  apply andb_true_iff in E as [_ E]. cbn.
  repeat split; try lia.
  - intros b Hb. unfold memcpy, load8 at 1.
    destruct ((base out - payLen enc <=? b)
              && (b <? base out - payLen enc + payLen enc)) eqn:Eb;
      [lia | reflexivity].
  - intros pl' k [= <-] Hk. unfold memcpy, load8 at 1.
    destruct ((base out - payLen enc <=? base out - payLen enc + k)
              && (base out - payLen enc + k
                  <? base out - payLen enc + payLen enc)) eqn:Eb; [|lia].
    rewrite Z.mod_small by apply load8_range. f_equal. lia.
Qed.

(** The three ways in which [encode] ends. *)
Lemma encode_cases (mi : mem) (enc : EncState) (out : Buffer)
    (raw_in : ptr) :
  let out1 := payload_attached mi enc out in
  let out2 :=
    {| buf_mem := buf_mem out1; base := base out1 - hdr_len mi raw_in;
       buf_end := buf_end out1 + hdr_len mi raw_in;
       buf_size := buf_size out1 |} in
  (buf_size out < buf_end out + attached_len enc
   /\ encode env mi enc out raw_in = (false, enc, out))
  \/ (buf_end out + attached_len enc <= buf_size out
      /\ buf_size out < buf_end out + attached_len enc + hdr_len mi raw_in
      /\ encode env mi enc out raw_in = (false, enc, out1))
  \/ (buf_end out + attached_len enc + hdr_len mi raw_in <= buf_size out
      /\ encode env mi enc out raw_in
         = (true, set_enc_proto enc IPPROTO_TCP,
            set_buf_mem out2
              (encode_checksum env (set_enc_proto enc IPPROTO_TCP)
                 (set_buf_mem out2
                    (encode_header env mi raw_in enc (buf_mem out2)
                       (base out2)))
                 (base out2)))).
Proof.
  intros out1 out2. subst out2 out1.
  pose proof (hdr_len_range mi raw_in) as Hh.
  unfold encode, payload_attached, attached_len.
  destruct (payLoad enc) as [pl|].
  - destruct (is_fin_or_push (enc_type enc) && (0 <? payLen enc)) eqn:E.
    + apply andb_true_iff in E as [_ E].
      unfold update_buffer.
      destruct (buf_size out <? buf_end out + payLen enc) eqn:E1;
        [left; split; [lia | reflexivity]|].
      right. cbn [buf_size buf_end set_buf_mem base buf_mem].
      destruct (buf_size out <? buf_end out + payLen enc + hdr_len mi raw_in)
        eqn:E2; [left | right]; (split; [lia|]); try (split; [lia|]);
        reflexivity.
    + unfold update_buffer.
      destruct (buf_size out <? buf_end out + hdr_len mi raw_in) eqn:E2.
      * destruct (Z.lt_ge_cases (buf_size out) (buf_end out));
          [left | right; left]; repeat split; lia.
      * right. right. split; [lia | reflexivity].
  - unfold update_buffer.
    destruct (buf_size out <? buf_end out + hdr_len mi raw_in) eqn:E2.
    + destruct (Z.lt_ge_cases (buf_size out) (buf_end out));
        [left | right; left]; repeat split; lia.
    + right. right. split; [lia | reflexivity].
Qed.
End EncodeShape.


Section EncodeHeader.
Variable env : Env.

(** The header stages write the 20 bytes at [ho] and nothing else. *)
Lemma encode_header_other (mi : mem) (hi : ptr) (enc : EncState) (mo : mem)
    (ho : ptr) (b : ptr) :
  b < ho \/ ho + 20 <= b ->
  load8 (encode_header env mi hi enc mo ho) b = load8 mo b.
Proof.
  intros Hb. unfold encode_header, encode_control, encode_seq_flag,
    encode_direction. cbv zeta. unfold_fields.
  destruct (is_fin_or_push (enc_type enc));
    [destruct (is_push (enc_type enc))|];
    destruct (negb (Z.land (enc_flags enc) (ENC_FLAG_SEQ env) =? 0));
    destruct (forward env (enc_flags enc));
    try destruct (negb (DAQ_interface_inline env));
    peel_stores; reflexivity.
Qed.

Lemma htons_65535 : htons env 65535 = 65535.
Proof. unfold htons. destruct (host_big_endian env); reflexivity. Qed.

(** The data offset, the flags, the window and the urgent pointer that the
    control stage leaves. *)
Lemma encode_control_fields (enc : EncState) (mo : mem) (ho : ptr) :
  let mo' := encode_control env enc mo ho in
  th_offx2 mo' ho = 0x50
  /\ th_urp env mo' ho = 0
  /\ th_flags mo' ho
     = (if is_fin_or_push (enc_type enc)
        then if is_push (enc_type enc) then Z.lor TH_ACK TH_PUSH
             else Z.lor TH_ACK TH_FIN
        else Z.lor TH_RST TH_ACK)
  /\ th_win env mo' ho
     = (if is_fin_or_push (enc_type enc) && is_push (enc_type enc)
        then 65535 else 0).
Proof.
  unfold encode_control. cbv zeta. unfold_fields.
  destruct (is_fin_or_push (enc_type enc));
    [destruct (is_push (enc_type enc))|]; cbn [andb];
    repeat split; peel_stores;
    rewrite ?load8_store8_same, ?load16_store16_same;
    try reflexivity.
  all: first [ rewrite htons_65535; reflexivity
             | unfold th_offx2; rewrite load8_store8_same; reflexivity ].
Qed.

(** The fields that the control stage wrote, read from the memory that
    the checksum stage leaves. *)
Lemma encode_checksum_control (e1 : EncState) (out2 : Buffer) (ho : ptr)
    (mh : mem) :
  let mo := encode_checksum env e1 (set_buf_mem out2 mh) ho in
  th_offx2 mo ho = th_offx2 mh ho
  /\ th_flags mo ho = th_flags mh ho
  /\ th_win env mo ho = th_win env mh ho
  /\ th_urp env mo ho = th_urp env mh ho.
Proof.
  cbv zeta. unfold th_offx2, th_flags, th_win, th_urp.
  repeat split.
  - rewrite encode_checksum_other by lia. reflexivity.
  - rewrite encode_checksum_other by lia. reflexivity.
  - apply load16_ext. intros b Hb.
    rewrite encode_checksum_other by lia. reflexivity.
  - apply load16_ext. intros b Hb.
    rewrite encode_checksum_other by lia. reflexivity.
Qed.
End EncodeHeader.


(** X15.  A successful [encode] sets [enc->proto] to TCP and writes a
    data offset of 5 with the low four bits of that byte zero and an
    urgent pointer of 0.  For the type FIN the flags are ACK|FIN and the
    window is 0, for PUSH they are ACK|PUSH and the window is 65535, and
    for every other type the flags are RST|ACK and the window is 0. *)
Theorem encode_control_by_type (env : Env) (mi : mem) (enc : EncState)
    (out : Buffer) (raw_in : ptr) (enc' : EncState) (out' : Buffer) :
  encode env mi enc out raw_in = (true, enc', out') ->
  let ho := base out' in
  let mo := buf_mem out' in
  enc' = set_enc_proto enc IPPROTO_TCP
  /\ th_offx2 mo ho = 0x50
  /\ TCP_OFFSET mo ho = 5
  /\ th_urp env mo ho = 0
  /\ match enc_type enc with
     | ENC_TCP_FIN =>
         th_flags mo ho = Z.lor TH_ACK TH_FIN /\ th_win env mo ho = 0
     | ENC_TCP_PUSH =>
         th_flags mo ho = Z.lor TH_ACK TH_PUSH /\ th_win env mo ho = 65535
     | _ => th_flags mo ho = Z.lor TH_RST TH_ACK /\ th_win env mo ho = 0
     end.
Proof.
  intros He ho mo. subst ho mo.
  destruct (encode_cases env mi enc out raw_in)
    as [[_ H] | [(_ & _ & H) | [_ H]]];
    rewrite H in He; [discriminate | discriminate |].
  injection He as <- <-. cbn [base buf_mem set_buf_mem].
  match goal with
  | |- context [encode_checksum env ?e1 (set_buf_mem ?o2 ?mh) ?h] =>
      destruct (encode_checksum_control env e1 o2 h mh) as (C1 & C2 & C3 & C4)
  end.
  unfold encode_header in *. cbv zeta in *.
  match goal with
  | |- context [encode_control env enc ?ms ?h] =>
      destruct (encode_control_fields env enc ms h) as (F1 & F2 & F3 & F4)
  end.
  split; [reflexivity|].
  split; [rewrite C1; exact F1|].
  split; [unfold TCP_OFFSET; rewrite C1, F1; reflexivity|].
  split; [rewrite C4; exact F2|].
  rewrite C2, C3, F3, F4.
  destruct (enc_type enc); cbn; split; reflexivity.
Qed.

(** A PUSH for the SYN of S1 with a payload of four bytes. *)
Lemma encode_control_by_type_witness :
  exists enc' out',
    encode env_passive seg_syn_payload (sample_enc_payload ENC_TCP_PUSH 0)
           sample_buffer 0 = (true, enc', out')
    /\ enc_proto enc' = 6
    /\ TCP_OFFSET (buf_mem out') (base out') = 5
    /\ th_flags (buf_mem out') (base out') = Z.lor TH_ACK TH_PUSH
    /\ th_win env_passive (buf_mem out') (base out') = 65535.
Proof.
  destruct (encode env_passive seg_syn_payload
              (sample_enc_payload ENC_TCP_PUSH 0) sample_buffer 0)
    as [[ok enc'] out'] eqn:E.
  assert (Hok : ok = true).
  { apply (f_equal (fun r => fst (fst r))) in E. vm_compute in E.
    symmetry. exact E. }
  subst ok. exists enc', out'. split; [reflexivity|].
  destruct (encode_control_by_type env_passive seg_syn_payload
              (sample_enc_payload ENC_TCP_PUSH 0) sample_buffer 0 enc' out' E)
    as (H1 & _ & H3 & _ & H5 & H6).
  rewrite H1. auto.
Defined.

(** X16.  A successful [encode] whose source header has a data offset of
    at least 5 grows the buffer downwards by the attached payload and by
    the length of the source header, and writes nothing outside what it
    reserved: every byte below the new start and from the old start on is
    as it was.  Between the 20 bytes of the new header and the payload,
    the bytes reserved for the options of the source header are also as
    they were.  The attached payload lies just below the old start. *)
Theorem encode_buffer_layout (env : Env) (mi : mem) (enc : EncState)
    (out : Buffer) (raw_in : ptr) (enc' : EncState) (out' : Buffer) :
  encode env mi enc out raw_in = (true, enc', out') ->
  20 <= hdr_len mi raw_in ->
  let pay := attached_len enc in
  let hl := hdr_len mi raw_in in
  (base out' = base out - pay - hl
   /\ buf_end out' = buf_end out + pay + hl
   /\ buf_size out' = buf_size out
   /\ buf_end out' <= buf_size out')
  /\ (forall b,
        b < base out' \/ base out <= b ->
        load8 (buf_mem out') b = load8 (buf_mem out) b)
  /\ (forall b,
        base out' + 20 <= b < base out - pay ->
        load8 (buf_mem out') b = load8 (buf_mem out) b)
  /\ (forall pl k,
        payLoad enc = Some pl -> 0 <= k < pay ->
        load8 (buf_mem out') (base out - pay + k) = load8 mi (pl + k)).
Proof.
  intros He Hh pay hl. subst pay hl.
  destruct (encode_cases env mi enc out raw_in)
    as [[_ H] | [(_ & _ & H) | [Hroom H]]];
    rewrite H in He; [discriminate | discriminate |].
  injection He as <- <-. cbn [base buf_mem buf_end buf_size set_buf_mem].
  destruct (payload_attached_fields mi enc out)
    as (P1 & P2 & P3 & P4 & P5 & P6).
  rewrite P1, P2, P3.
  assert (Hout : forall b,
            b < base out - attached_len enc - hdr_len mi raw_in
            \/ base out - attached_len enc - hdr_len mi raw_in + 20 <= b ->
            load8
              (encode_checksum env (set_enc_proto enc IPPROTO_TCP)
                 (set_buf_mem
                    {| buf_mem := buf_mem (payload_attached mi enc out);
                       base := base out - attached_len enc
                               - hdr_len mi raw_in;
                       buf_end := buf_end out + attached_len enc
                                  + hdr_len mi raw_in;
                       buf_size := buf_size out |}
                    (encode_header env mi raw_in enc
                       (buf_mem (payload_attached mi enc out))
                       (base out - attached_len enc - hdr_len mi raw_in)))
                 (base out - attached_len enc - hdr_len mi raw_in)) b
            = load8 (buf_mem (payload_attached mi enc out)) b).
  { intros b Hb. rewrite encode_checksum_other by lia.
    cbn [buf_mem set_buf_mem]. apply encode_header_other. lia. }
  split; [repeat split; lia|]. split; [|split].
  - intros b Hb. rewrite Hout by lia. apply P5. lia.
  - intros b Hb. rewrite Hout by lia. apply P5. lia.
  - intros pl k Hpl Hk. rewrite Hout by lia. apply P6; assumption.
Qed.

(** A PUSH for the SYN of S1 with a payload of four bytes into an empty
    buffer of 100 bytes. *)
Lemma encode_buffer_layout_witness :
  exists enc' out',
    encode env_passive seg_syn_payload (sample_enc_payload ENC_TCP_PUSH 0)
           sample_buffer 0 = (true, enc', out')
    /\ base out' = 100 - 4 - 20
    /\ buf_end out' = 0 + 4 + 20
    /\ (forall k, 0 <= k < 4 ->
          load8 (buf_mem out') (100 - 4 + k) = load8 seg_syn_payload (20 + k)).
Proof.
  destruct (encode env_passive seg_syn_payload
              (sample_enc_payload ENC_TCP_PUSH 0) sample_buffer 0)
    as [[ok enc'] out'] eqn:E.
  assert (Hok : ok = true).
  { apply (f_equal (fun r => fst (fst r))) in E. vm_compute in E.
    symmetry. exact E. }
  subst ok. exists enc', out'. split; [reflexivity|].
  destruct (encode_buffer_layout env_passive seg_syn_payload
              (sample_enc_payload ENC_TCP_PUSH 0) sample_buffer 0 enc' out' E)
    as ((H1 & H2 & _) & _ & _ & H4).
  - vm_compute. discriminate.
  - split; [exact H1|]. split; [exact H2|].
    intros k Hk. apply (H4 20 k); [reflexivity | exact Hk].
Defined.

(** X17.  [encode] returns failure exactly when the buffer has no room
    for the attached payload and the source header's length.  It then
    leaves [*enc] as it was; the buffer is as it was when there was no
    room for the payload, but when the payload went in and the header did
    not, the buffer stays grown by the payload, with the payload in it. *)
Theorem encode_failure (env : Env) (mi : mem) (enc : EncState)
    (out : Buffer) (raw_in : ptr) (ok : bool) (enc' : EncState)
    (out' : Buffer) :
  encode env mi enc out raw_in = (ok, enc', out') ->
  (ok = false
   <-> buf_size out < buf_end out + attached_len enc + hdr_len mi raw_in)
  /\ (ok = false ->
      enc' = enc
      /\ (buf_size out < buf_end out + attached_len enc -> out' = out)
      /\ (buf_end out + attached_len enc <= buf_size out ->
          base out' = base out - attached_len enc
          /\ buf_end out' = buf_end out + attached_len enc
          /\ forall pl k,
               payLoad enc = Some pl -> 0 <= k < attached_len enc ->
               load8 (buf_mem out') (base out - attached_len enc + k)
               = load8 mi (pl + k))).
Proof.
  intros He.
  pose proof (hdr_len_range mi raw_in) as Hh.
  destruct (payload_attached_fields mi enc out)
    as (P1 & P2 & P3 & P4 & P5 & P6).
  destruct (encode_cases env mi enc out raw_in)
    as [[Hroom H] | [(Hroom1 & Hroom2 & H) | [Hroom H]]];
    rewrite H in He; injection He as <- <- <-.
  - split; [split; [lia | reflexivity]|]. intros _.
    split; [reflexivity|]. split; [reflexivity | lia].
  - split; [split; [lia | reflexivity]|]. intros _.
    split; [reflexivity|]. split; [lia|]. intros _. auto.
  - split; [split; [discriminate | lia]|]. discriminate.
Qed.

(** A PUSH with a payload of four bytes into a buffer with room for 22
    bytes: the payload goes in, the header does not. *)
Lemma encode_failure_witness :
  exists ok enc' out',
    encode env_passive seg_syn_payload (sample_enc_payload ENC_TCP_PUSH 0)
           nearly_full_buffer 0 = (ok, enc', out')
    /\ (ok = false
        <-> buf_size nearly_full_buffer
            < buf_end nearly_full_buffer
              + attached_len (sample_enc_payload ENC_TCP_PUSH 0)
              + hdr_len seg_syn_payload 0)
    /\ (ok = false -> buf_end out' = 78 + 4 /\ out' <> nearly_full_buffer).
Proof.
  destruct (encode env_passive seg_syn_payload
              (sample_enc_payload ENC_TCP_PUSH 0) nearly_full_buffer 0)
    as [[ok enc'] out'] eqn:E.
  exists ok, enc', out'. split; [reflexivity|].
  destruct (encode_failure env_passive seg_syn_payload
              (sample_enc_payload ENC_TCP_PUSH 0) nearly_full_buffer 0
              ok enc' out' E) as (H1 & H2).
  split; [exact H1|]. intros Hok.
  destruct (H2 Hok) as (_ & _ & H3).
  destruct H3 as (_ & H4 & _); [vm_compute; discriminate|].
  split; [exact H4|]. intros ->. vm_compute in H4. discriminate H4.
Defined.


(** ** [encode] and then [decode] *)

Section EncodeDecode.
Variable env : Env.

(** The ports of the response, read from the memory that the checksum
    stage leaves. *)
Lemma encode_ports (mi : mem) (enc e1 : EncState) (out2 : Buffer)
    (raw_in : ptr) :
  let mo :=
    encode_checksum env e1
      (set_buf_mem out2
         (encode_header env mi raw_in enc (buf_mem out2) (base out2)))
      (base out2) in
  th_sport env mo (base out2)
  = (if forward env (enc_flags enc) then th_sport env mi raw_in
     else th_dport env mi raw_in)
  /\ th_dport env mo (base out2)
     = (if forward env (enc_flags enc) then th_dport env mi raw_in
        else th_sport env mi raw_in).
Proof.
  cbv zeta.
  assert (Hlow16 : forall a,
            base out2 <= a <= base out2 + 2 ->
            load16 env
              (encode_checksum env e1
                 (set_buf_mem out2
                    (encode_header env mi raw_in enc (buf_mem out2)
                       (base out2)))
                 (base out2)) a
            = load16 env
                (encode_direction env mi raw_in enc (buf_mem out2)
                   (base out2)) a).
  { intros a Ha. apply load16_ext. intros b Hb.
    rewrite encode_low_bytes by lia.
    apply encode_seq_flag_other. lia. }
  unfold th_sport at 1, th_dport at 2. rewrite !Hlow16 by lia.
  destruct (forward env (enc_flags enc)) eqn:Hf.
  - destruct (encode_direction_forward env mi raw_in enc (buf_mem out2)
                (base out2) Hf) as (D1 & D2 & _).
    split; [exact D1 | exact D2].
  - destruct (encode_direction_reverse env mi raw_in enc (buf_mem out2)
                (base out2) Hf) as (D1 & D2 & _).
    split; [exact D1 | exact D2].
Qed.

(** The flags that [encode] writes raise none of the events of the flag
    tests, and of the last tests at most TCP_PORT_ZERO. *)
Lemma response_flags_events (m : mem) (h : ptr) (api : IpApi) (dsz : Z)
    (t : EncodeType) :
  th_flags m h
  = (if is_fin_or_push t
     then if is_push t then Z.lor TH_ACK TH_PUSH else Z.lor TH_ACK TH_FIN
     else Z.lor TH_RST TH_ACK) ->
  flag_events env m h api = []
  /\ tail_events env m h dsz
     = (if (ntohs env (th_sport env m h) =? 0)
           || (ntohs env (th_dport env m h) =? 0)
        then [DECODE_TCP_PORT_ZERO] else []).
Proof.
  intros Hf. unfold flag_events, tail_events, TCP_ISFLAGSET. rewrite Hf.
  destruct t; cbn; split; reflexivity.
Qed.
End EncodeDecode.


(** X18.  The response that a successful [encode] writes for a source
    header with a data offset of at least 5 is accepted by [decode],
    given the bytes from the start of the buffer to the end of its
    content, whenever checksum verification is off or the checksum
    routine accepts the checksum that [encode] stored.  [decode] returns
    success with a header length of 20, no options and no error flag; the
    ports it finds are those of the source header in host order, as they
    were on a forward encode and swapped on a reverse one; and it raises
    no event but TCP_PORT_ZERO, which it raises exactly when one of the
    ports is 0. *)
Theorem encode_then_decode (env : Env) (mi : mem) (enc : EncState)
    (out : Buffer) (raw_in : ptr) (enc' : EncState) (out' : Buffer)
    (w : World) :
  encode env mi enc out raw_in = (true, enc', out') ->
  20 <= hdr_len mi raw_in ->
  0 <= buf_end out ->
  length (tcp_options (pkt w)) = 40%nat ->
  (ScTcpChecksums env = true ->
   decode_csum env (buf_mem out') (base out') (buf_end out') (ip_api (pkt w))
   = 0) ->
  exists w',
    decode env (buf_mem out') (base out') (buf_end out') w
    = Ok (true, Some 20, w')
    /\ tcph (pkt w') = Some (base out')
    /\ sp (pkt w')
       = ntohs env (if forward env (enc_flags enc)
                    then th_sport env mi raw_in else th_dport env mi raw_in)
    /\ dp (pkt w')
       = ntohs env (if forward env (enc_flags enc)
                    then th_dport env mi raw_in else th_sport env mi raw_in)
    /\ tcp_option_count (pkt w') = 0
    /\ error_flags (pkt w') = error_flags (pkt w)
    /\ trace w'
       = trace w
         ++ TcphStore (Some (base out'))
            :: map Event
                 (if (sp (pkt w') =? 0) || (dp (pkt w') =? 0)
                  then [DECODE_TCP_PORT_ZERO] else []).
Proof.
  intros He Hh Hend Hl Hcs.
  destruct (encode_cases env mi enc out raw_in)
    as [[_ H] | [(_ & _ & H) | [Hroom H]]];
    rewrite H in He; [discriminate | discriminate |].
  injection He as <- <-.
  destruct (payload_attached_fields mi enc out) as (P1 & P2 & P3 & P4 & _).
  cbn [base buf_mem buf_end buf_size set_buf_mem] in *.
  set (out2 := {| buf_mem := buf_mem (payload_attached mi enc out);
                  base := base (payload_attached mi enc out)
                          - hdr_len mi raw_in;
                  buf_end := buf_end (payload_attached mi enc out)
                             + hdr_len mi raw_in;
                  buf_size := buf_size (payload_attached mi enc out) |}) in *.
  set (ho := base (payload_attached mi enc out) - hdr_len mi raw_in) in *.
  set (len := buf_end (payload_attached mi enc out) + hdr_len mi raw_in) in *.
  set (mh := encode_header env mi raw_in enc
               (buf_mem (payload_attached mi enc out)) ho) in *.
  set (mo := encode_checksum env (set_enc_proto enc IPPROTO_TCP)
               (set_buf_mem out2 mh) ho) in *.
  destruct (encode_checksum_control env (set_enc_proto enc IPPROTO_TCP)
              out2 ho mh) as (C1 & C2 & _ & _).
  fold mo in C1, C2.
  destruct (encode_control_fields env enc
              (encode_seq_flag env enc
                 (encode_direction env mi raw_in enc
                    (buf_mem (payload_attached mi enc out)) ho) ho) ho)
    as (F1 & _ & F3 & _).
  assert (Hoff : th_offx2 mo ho = 0x50) by (rewrite C1; exact F1).
  assert (Hfl : th_flags mo ho
                = (if is_fin_or_push (enc_type enc)
                   then if is_push (enc_type enc) then Z.lor TH_ACK TH_PUSH
                        else Z.lor TH_ACK TH_FIN
                   else Z.lor TH_RST TH_ACK)) by (rewrite C2; exact F3).
  assert (Hhl : hdr_len mo ho = 20) by (unfold hdr_len; rewrite Hoff; reflexivity).
  destruct (encode_ports env mi enc (set_enc_proto enc IPPROTO_TCP) out2 raw_in)
    as (Hsp & Hdp).
  cbn [base buf_mem out2] in Hsp, Hdp. fold ho in Hsp, Hdp.
  fold mh in Hsp, Hdp. fold out2 in Hsp, Hdp. fold mo in Hsp, Hdp.
  assert (Hbad : checksum_bad env mo ho len (pkt w) = false).
  { unfold checksum_bad. destruct (ScTcpChecksums env) eqn:Es; [|reflexivity].
    rewrite Hcs by reflexivity. reflexivity. }
  assert (Hdec : exists w', decode env mo ho len w = Ok (true, Some 20, w')).
  { unfold decode, TCP_HEADER_LEN. cbv zeta. rewrite !Hhl.
    destruct (len <? 20) eqn:E0; [lia|].
    change (20 <? 20) with false. cbv iota.
    assert (Hc : decode_checksum env mo len (set_tcph w (@Some ptr ho))
                 = Ok (Next (set_tcph w (@Some ptr ho)))).
    { unfold decode_checksum, deref_tcph.
      cbn [set_tcph pkt tcph bind ip_api decode_flags].
      destruct (ScTcpChecksums env) eqn:Es; [|reflexivity].
      rewrite Hcs by reflexivity. reflexivity. }
    rewrite Hc. cbn [bind].
    destruct (decode_rest_post env mo ho len 20 (set_tcph w (@Some ptr ho)))
      as (wf & w2 & w' & Hr & _); [reflexivity | exact Hl | lia |].
    rewrite Hr. cbn [bind]. exists w'. reflexivity. }
  destruct Hdec as (w' & Hdec). exists w'. split; [exact Hdec|].
  destruct (decode_success_post env mo ho len w (Some 20) w' Hl Hdec)
    as (_ & F & (Hc & _ & _ & _) & n & last & Ht & _ & _ & Hn).
  destruct F as (G1 & G2 & G3 & _ & _ & _ & G7 & _).
  rewrite Hhl in Hc, Hn, Ht. destruct (Hn eq_refl) as [-> ->].
  rewrite Hbad in G7, Ht. cbn [andb] in Ht.
  destruct (response_flags_events env mo ho (ip_api (pkt w))
              (payload_size 20 len) (enc_type enc) Hfl) as [E1 E2].
  rewrite E1, E2 in Ht. cbn [repeat app] in Ht.
  rewrite G2, G3, Hsp, Hdp.
  split; [exact G1|]. split; [reflexivity|]. split; [reflexivity|].
  split; [lia|]. split; [exact G7|].
  rewrite Ht, Hsp, Hdp. reflexivity.
Qed.

(** The reverse RST for the SYN of S1 (spec, S7), decoded on a host that
    verifies checksums. *)
Lemma encode_then_decode_witness :
  exists enc' out' w',
    encode env_passive seg_syn (sample_enc ENC_TCP_RST 0) sample_buffer 0
    = (true, enc', out')
    /\ decode env_passive (buf_mem out') (base out') (buf_end out')
         (sample_world 1 0) = Ok (true, Some 20, w')
    /\ sp (pkt w') = 80 /\ dp (pkt w') = 40000
    /\ trace w' = [TcphStore (Some (base out'))].
Proof.
  pose (r := encode env_passive seg_syn (sample_enc ENC_TCP_RST 0)
               sample_buffer 0).
  assert (E : encode env_passive seg_syn (sample_enc ENC_TCP_RST 0)
                sample_buffer 0 = (true, snd (fst r), snd r))
    by (vm_compute; reflexivity).
  destruct (encode_then_decode env_passive seg_syn (sample_enc ENC_TCP_RST 0)
              sample_buffer 0 (snd (fst r)) (snd r) (sample_world 1 0) E)
    as (w' & H1 & _ & H3 & H4 & _ & _ & H7).
  - vm_compute. discriminate.
  - vm_compute. discriminate.
  - reflexivity.
  - intros _. vm_compute. reflexivity.
  - exists (snd (fst r)), (snd r), w'. split; [exact E|].
    split; [exact H1|].
    split; [rewrite H3; vm_compute; reflexivity|].
    split; [rewrite H4; vm_compute; reflexivity|].
    rewrite H7, H3, H4. vm_compute. reflexivity.
Defined.


(** ** Memories that agree on some of their bytes *)

Lemma agree_where_weaken (P Q : ptr -> Prop) (m1 m2 : mem) :
  (forall b, Q b -> P b) -> agree_where P m1 m2 -> agree_where Q m1 m2.
Proof. unfold agree_where. auto. Qed.

Lemma store8_agree (P : ptr -> Prop) (m1 m2 : mem) (a : ptr) (v : Z) :
  agree_where P m1 m2 ->
  agree_where (fun b => P b \/ b = a) (store8 m1 a v) (store8 m2 a v).
Proof.
  intros H b Hb. rewrite !load8_store8.
  destruct (Z.eqb_spec b a); [reflexivity|].
  destruct Hb as [Hb | Hb]; [apply H, Hb | contradiction].
Qed.

Section Agree.
Variable env : Env.

Lemma store16_agree (P : ptr -> Prop) (m1 m2 : mem) (a : ptr) (v : Z) :
  agree_where P m1 m2 ->
  agree_where (fun b => P b \/ a <= b < a + 2)
    (store16 env m1 a v) (store16 env m2 a v).
Proof.
  intros H. unfold store16.
  destruct (host_big_endian env);
    (eapply agree_where_weaken;
     [|apply store8_agree, store8_agree, H]);
    cbv beta; intros b Hb; intuition lia.
Qed.

Lemma store32_agree (P : ptr -> Prop) (m1 m2 : mem) (a : ptr) (v : Z) :
  agree_where P m1 m2 ->
  agree_where (fun b => P b \/ a <= b < a + 4)
    (store32 env m1 a v) (store32 env m2 a v).
Proof.
  intros H. unfold store32.
  destruct (host_big_endian env);
    (eapply agree_where_weaken;
     [|apply store8_agree, store8_agree, store8_agree, store8_agree, H]);
    cbv beta; intros b Hb; intuition lia.
Qed.

Lemma load16_agree (P : ptr -> Prop) (m1 m2 : mem) (a : ptr) :
  agree_where P m1 m2 -> P a -> P (a + 1) ->
  load16 env m1 a = load16 env m2 a.
Proof.
  intros H H0 H1. unfold load16. rewrite (H a H0), (H (a + 1) H1).
  reflexivity.
Qed.

Lemma load32_agree (P : ptr -> Prop) (m1 m2 : mem) (a : ptr) :
  agree_where P m1 m2 -> P a -> P (a + 1) -> P (a + 2) -> P (a + 3) ->
  load32 env m1 a = load32 env m2 a.
Proof.
  intros H H0 H1 H2 H3. unfold load32.
  rewrite (H a H0), (H (a + 1) H1), (H (a + 2) H2), (H (a + 3) H3).
  reflexivity.
Qed.
End Agree.


(** The checksum routine of the examples looks at the bytes of the memory
    only. *)
Lemma words16_ext (env : Env) (m1 m2 : mem) (n : nat) :
  (forall b, load8 m1 b = load8 m2 b) ->
  forall a, words16 env m1 a n = words16 env m2 a n.
Proof.
  intros H. induction n as [|n IH]; intros a; cbn [words16]; [reflexivity|].
  rewrite IH. f_equal. unfold load16. rewrite !H. reflexivity.
Qed.

Lemma sample_env_reads_bytes (be c i d q : bool) :
  cksum_reads_bytes (sample_env be c i d q).
Proof.
  intros m1 m2 h len ps H. cbn [tcp_cksum sample_env].
  unfold spec_tcp_cksum. rewrite (words16_ext _ m1 m2) by exact H.
  rewrite !H. reflexivity.
Qed.

(** ** More on [update] *)

(** X19.  [update] writes no byte but the two of the checksum field: the
    rest of the memory, and with it the header length, is as it was. *)
Theorem update_touches_only_checksum (env : Env) (m : mem) (p : Packet)
    (lyr_start : ptr) (len : Z) :
  let '(ok, m', len') := update env m p lyr_start len in
  (forall b,
     b < lyr_start + 16 \/ lyr_start + 18 <= b -> load8 m' b = load8 m b)
  /\ hdr_len m' lyr_start = hdr_len m lyr_start.
Proof.
  unfold update.
  destruct (negb (PacketWasCooked env p)
            || negb (Z.land (packet_flags p) (PKT_REBUILT_FRAG env) =? 0));
    [|split; reflexivity].
  assert (H : forall b,
            b < lyr_start + 16 \/ lyr_start + 18 <= b ->
            load8
              (set_th_sum env (set_th_sum env m lyr_start 0) lyr_start
                 (update_csum env (set_th_sum env m lyr_start 0) lyr_start
                    ((len + (hdr_len m lyr_start + dsize p)) mod 4294967296)
                    (ip_api p))) b
            = load8 m b).
  { intros b Hb. unfold set_th_sum. rewrite !load8_store16_other by lia.
    reflexivity. }
  split; [exact H|].
  unfold hdr_len, th_offx2. rewrite H by lia. reflexivity.
Qed.

(** X20.  Where [update] recomputes the checksum, and the checksum routine
    looks at the bytes of the segment only, what [update] leaves does not
    depend on what the checksum field held: on two memories that differ in
    the checksum field at most it leaves the same bytes and the same
    length.  In particular a second [update] that is given the same
    length leaves the bytes that the first left. *)
Theorem update_ignores_old_checksum (env : Env) (m1 m2 : mem) (p : Packet)
    (lyr_start : ptr) (len : Z) :
  cksum_reads_bytes env ->
  cooked_not_rebuilt env p = false ->
  (forall b,
     b < lyr_start + 16 \/ lyr_start + 18 <= b -> load8 m1 b = load8 m2 b) ->
  let r1 := update env m1 p lyr_start len in
  let r2 := update env m2 p lyr_start len in
  snd r1 = snd r2
  /\ (forall b, load8 (snd (fst r1)) b = load8 (snd (fst r2)) b)
  /\ (forall b,
        load8 (snd (fst (update env (snd (fst r1)) p lyr_start len))) b
        = load8 (snd (fst r1)) b).
Proof.
  intros Hext Hck.
  assert (Hmain : forall ma mb,
            (forall b,
               b < lyr_start + 16 \/ lyr_start + 18 <= b ->
               load8 ma b = load8 mb b) ->
            snd (update env ma p lyr_start len)
            = snd (update env mb p lyr_start len)
            /\ forall b,
                 load8 (snd (fst (update env ma p lyr_start len))) b
                 = load8 (snd (fst (update env mb p lyr_start len))) b).
  { intros ma mb Hag. unfold update. unfold cooked_not_rebuilt in Hck.
    assert (Hh : hdr_len ma lyr_start = hdr_len mb lyr_start)
      by (unfold hdr_len, th_offx2; rewrite Hag by lia; reflexivity).
    destruct (PacketWasCooked env p);
      destruct (Z.land (packet_flags p) (PKT_REBUILT_FRAG env) =? 0);
      try discriminate Hck; cbn [negb orb fst snd]; rewrite Hh;
      (split; [reflexivity|]);
      (assert (H0 : forall b,
                 load8 (set_th_sum env ma lyr_start 0) b
                 = load8 (set_th_sum env mb lyr_start 0) b)
         by (intros b;
             apply (store16_agree env _ ma mb (lyr_start + 16) 0 Hag);
             cbv beta; lia));
      unfold update_csum;
      destruct (is_ip4 (ip_api p));
      rewrite (Hext _ _ _ _ _ H0);
      intros b;
      (apply (store16_agree env (fun _ => True));
       [intros x _; apply H0 | left; exact I]). }
  intros Hag r1 r2. subst r1 r2.
  destruct (Hmain m1 m2 Hag) as [H1 H2].
  split; [exact H1|]. split; [exact H2|].
  apply Hmain. intros b Hb.
  unfold update. unfold cooked_not_rebuilt in Hck.
  destruct (PacketWasCooked env p);
    destruct (Z.land (packet_flags p) (PKT_REBUILT_FRAG env) =? 0);
    try discriminate Hck; cbn [negb orb fst snd];
    unfold set_th_sum; rewrite !load8_store16_other by lia; reflexivity.
Qed.

(** The SYN of S1 with its checksum and with a stale checksum field. *)
Lemma update_ignores_old_checksum_witness :
  snd (update env_passive seg_syn (sample_packet 1 0 0) 0 0)
  = snd (update env_passive seg_syn_stale (sample_packet 1 0 0) 0 0)
  /\ (forall b,
        load8 (snd (fst (update env_passive seg_syn
                           (sample_packet 1 0 0) 0 0))) b
        = load8 (snd (fst (update env_passive seg_syn_stale
                             (sample_packet 1 0 0) 0 0))) b).
Proof.
  destruct (update_ignores_old_checksum env_passive seg_syn seg_syn_stale
              (sample_packet 1 0 0) 0 0) as (H1 & H2 & _).
  - apply sample_env_reads_bytes.
  - reflexivity.
  - intros b Hb. unfold seg_syn, seg_syn_stale, load8, mem_of_bytes.
    destruct (b <? 0) eqn:E; [reflexivity|].
    assert (Hn : (Z.to_nat b < 16 \/ 18 <= Z.to_nat b)%nat) by lia.
    revert Hn. generalize (Z.to_nat b). intros n Hn.
    do 18 (destruct n as [|n]; [try reflexivity; lia|]). reflexivity.
  - split; [exact H1 | exact H2].
Defined.


(** ** The bytes of the response header *)

Section EncodeAgree.
Variable env : Env.

Lemma encode_direction_agree (P : ptr -> Prop) (mi : mem) (hi : ptr)
    (enc : EncState) (mo1 mo2 : mem) (ho : ptr) :
  agree_where P mo1 mo2 ->
  agree_where (fun b => P b \/ ho <= b < ho + 12)
    (encode_direction env mi hi enc mo1 ho)
    (encode_direction env mi hi enc mo2 ho).
Proof.
  intros H. unfold encode_direction. cbv zeta. unfold_fields.
  destruct (forward env (enc_flags enc));
    [destruct (negb (DAQ_interface_inline env))|];
    (eapply agree_where_weaken;
     [|apply store32_agree, store32_agree, store16_agree, store16_agree, H]);
    cbv beta; intros b Hb; intuition lia.
Qed.

Lemma encode_seq_flag_agree (P : ptr -> Prop) (enc : EncState)
    (mo1 mo2 : mem) (ho : ptr) :
  agree_where P mo1 mo2 ->
  (forall b, ho + 4 <= b < ho + 8 -> P b) ->
  agree_where P (encode_seq_flag env enc mo1 ho)
    (encode_seq_flag env enc mo2 ho).
Proof.
  intros H HP. unfold encode_seq_flag. cbv zeta. unfold_fields.
  destruct (negb (Z.land (enc_flags enc) (ENC_FLAG_SEQ env) =? 0));
    [|exact H].
  rewrite (load32_agree env P mo1 mo2 (ho + 4) H) by (apply HP; lia).
  eapply agree_where_weaken; [|apply store32_agree, H].
  cbv beta. auto.
Qed.

Lemma encode_control_agree (P : ptr -> Prop) (enc : EncState)
    (mo1 mo2 : mem) (ho : ptr) :
  agree_where P mo1 mo2 ->
  agree_where
    (fun b => P b \/ ho + 12 <= b < ho + 16 \/ ho + 18 <= b < ho + 20)
    (encode_control env enc mo1 ho) (encode_control env enc mo2 ho).
Proof.
  intros H. unfold encode_control. cbv zeta. unfold_fields.
  unfold th_offx2, th_flags. rewrite !load8_store8_same.
  destruct (is_fin_or_push (enc_type enc));
    [destruct (is_push (enc_type enc))|].
  - eapply agree_where_weaken;
      [|apply store16_agree, store8_agree, store8_agree, store16_agree,
          store16_agree, store8_agree, store8_agree, H].
    cbv beta. intros b Hb. intuition lia.
  - eapply agree_where_weaken;
      [|apply store8_agree, store8_agree, store16_agree, store16_agree,
          store8_agree, store8_agree, H].
    cbv beta. intros b Hb. intuition lia.
  - eapply agree_where_weaken;
      [|apply store8_agree, store16_agree, store16_agree, store8_agree,
          store8_agree, H].
    cbv beta. intros b Hb. intuition lia.
Qed.

Lemma encode_checksum_agree (e1 : EncState) (out1 out2 : Buffer)
    (m1 m2 : mem) (ho : ptr) :
  cksum_reads_bytes env ->
  base out1 = base out2 -> buf_end out1 = buf_end out2 ->
  agree_where (fun b => b < ho + 16 \/ ho + 18 <= b) m1 m2 ->
  forall b,
    load8 (encode_checksum env e1 (set_buf_mem out1 m1) ho) b
    = load8 (encode_checksum env e1 (set_buf_mem out2 m2) ho) b.
Proof.
  intros Hext Hb He H.
  assert (H0 : forall b,
            load8 (set_th_sum env m1 ho 0) b
            = load8 (set_th_sum env m2 ho 0) b).
  { intros b. apply (store16_agree env _ m1 m2 (ho + 16) 0 H).
    cbv beta. lia. }
  unfold encode_checksum, buff_diff. cbv zeta.
  cbn [buf_mem base buf_end set_buf_mem]. rewrite Hb, He.
  destruct (is_ip4 (ip_api (enc_p e1)));
    rewrite (Hext _ _ _ _ _ H0);
    intros b;
    (apply (store16_agree env (fun _ => True));
     [intros x _; apply H0 | left; exact I]).
Qed.

(** The header stages and the checksum stage together. *)
Lemma encode_response_agree (mi : mem) (hi : ptr) (enc e1 : EncState)
    (out1 out2 : Buffer) (m1 m2 : mem) (ho : ptr) :
  cksum_reads_bytes env ->
  base out1 = base out2 -> buf_end out1 = buf_end out2 ->
  agree_where (fun b => b < ho \/ ho + 20 <= b) m1 m2 ->
  forall b,
    load8 (encode_checksum env e1
             (set_buf_mem out1 (encode_header env mi hi enc m1 ho)) ho) b
    = load8 (encode_checksum env e1
               (set_buf_mem out2 (encode_header env mi hi enc m2 ho)) ho) b.
Proof.
  intros Hext Hb He H.
  apply encode_checksum_agree; [exact Hext | exact Hb | exact He |].
  unfold encode_header. cbv zeta.
  eapply agree_where_weaken;
    [|apply encode_control_agree, encode_seq_flag_agree;
      [apply encode_direction_agree, H|]].
  - cbv beta. intros b Hb'. lia.
  - cbv beta. intros b Hb'. lia.
Qed.
End EncodeAgree.


Lemma payload_attached_agree (P : ptr -> Prop) (mi : mem) (enc : EncState)
    (out : Buffer) (mb : mem) :
  agree_where P (buf_mem out) mb ->
  agree_where P (buf_mem (payload_attached mi enc out))
    (buf_mem (payload_attached mi enc (set_buf_mem out mb)))
  /\ base (payload_attached mi enc (set_buf_mem out mb))
     = base (payload_attached mi enc out)
  /\ buf_end (payload_attached mi enc (set_buf_mem out mb))
     = buf_end (payload_attached mi enc out)
  /\ buf_size (payload_attached mi enc (set_buf_mem out mb))
     = buf_size (payload_attached mi enc out).
Proof.
  intros H. unfold payload_attached.
  destruct (payLoad enc) as [pl|]; [|auto].
  destruct (is_fin_or_push (enc_type enc) && (0 <? payLen enc)); [|auto].
  cbn [buf_mem base buf_end buf_size set_buf_mem].
  split; [|auto]. intros b Hb. unfold memcpy, load8 at 1 3.
  destruct ((base out - payLen enc <=? b)
            && (b <? base out - payLen enc + payLen enc)); [reflexivity|].
  apply H, Hb.
Qed.

(** X21.  [encode] writes every one of the 20 bytes of the response
    header: where the checksum routine looks at the bytes of the segment
    only, neither the outcome of [encode] nor any byte of the buffer it
    leaves depends on what the buffer held in the 20 bytes where the
    header goes. *)
Theorem encode_initialises_header (env : Env) (mi : mem) (enc : EncState)
    (out : Buffer) (raw_in : ptr) (mb : mem) :
  cksum_reads_bytes env ->
  let ho := base out - attached_len enc - hdr_len mi raw_in in
  (forall b, b < ho \/ ho + 20 <= b -> load8 (buf_mem out) b = load8 mb b) ->
  let ra := encode env mi enc out raw_in in
  let rb := encode env mi enc (set_buf_mem out mb) raw_in in
  fst (fst ra) = fst (fst rb)
  /\ snd (fst ra) = snd (fst rb)
  /\ (fst (fst ra) = true ->
      base (snd ra) = base (snd rb)
      /\ buf_end (snd ra) = buf_end (snd rb)
      /\ forall b, load8 (buf_mem (snd ra)) b = load8 (buf_mem (snd rb)) b).
Proof.
  intros Hext ho Hag ra rb. subst ra rb.
  destruct (payload_attached_agree _ mi enc out mb Hag) as (A & Ab & Ae & As).
  destruct (payload_attached_fields mi enc out) as (P1 & P2 & P3 & P4 & _).
  pose proof (hdr_len_range mi raw_in) as Hh.
  destruct (encode_cases env mi enc out raw_in)
    as [[Ha Ea] | [(Ha1 & Ha2 & Ea) | [Ha Ea]]];
    destruct (encode_cases env mi enc (set_buf_mem out mb) raw_in)
      as [[Hb Eb] | [(Hb1 & Hb2 & Eb) | [Hb Eb]]];
    change (buf_size (set_buf_mem out mb)) with (buf_size out) in *;
    change (buf_end (set_buf_mem out mb)) with (buf_end out) in *;
    try lia;
    rewrite Ea, Eb; cbn [fst snd];
    (split; [reflexivity|]); (split; [reflexivity|]);
    try discriminate.
  intros _. cbn [base buf_end buf_mem set_buf_mem].
  rewrite Ab, Ae. split; [reflexivity|]. split; [reflexivity|].
  apply encode_response_agree;
    [exact Hext | reflexivity | reflexivity |].
  rewrite P1. exact A.
Qed.

(** The reverse RST for the SYN of S1 into two buffers that differ where
    the header goes. *)
Lemma encode_initialises_header_witness :
  base (snd (encode env_passive seg_syn (sample_enc ENC_TCP_RST 0)
               sample_buffer 0))
  = base (snd (encode env_passive seg_syn (sample_enc ENC_TCP_RST 0)
                 (set_buf_mem sample_buffer dirty_window) 0))
  /\ forall b,
       load8 (buf_mem (snd (encode env_passive seg_syn
                              (sample_enc ENC_TCP_RST 0) sample_buffer 0))) b
       = load8 (buf_mem (snd (encode env_passive seg_syn
                                (sample_enc ENC_TCP_RST 0)
                                (set_buf_mem sample_buffer dirty_window) 0))) b.
Proof.
  destruct (encode_initialises_header env_passive seg_syn
              (sample_enc ENC_TCP_RST 0) sample_buffer 0 dirty_window)
    as (_ & _ & H).
  - apply sample_env_reads_bytes.
  - intros b Hb. unfold sample_buffer, dirty_window, load8. cbn [buf_mem].
    change (base sample_buffer) with 100 in Hb.
    change (attached_len (sample_enc ENC_TCP_RST 0)) with 0 in Hb.
    change (hdr_len seg_syn 0) with 20 in Hb.
    destruct ((80 <=? b) && (b <? 100)) eqn:E; [lia | reflexivity].
  - destruct H as (H1 & _ & H3); [vm_compute; reflexivity|].
    split; [exact H1 | exact H3].
Defined.


(** ** [format] *)

(** X22.  [format] sets the header reference of the copy to the layer's
    start and its ports to those of the copy's header in host order, and
    writes no byte outside the four port bytes of that header.  On a
    forward format it writes nothing.  On a reverse format, when the header
    of the original does not overlap the port bytes of the copy, the
    copy's ports become those of the original, swapped, and the original's
    stay as they were. *)
Theorem format_ports (env : Env) (f : Z) (m : mem) (ph : ptr) (c : World)
    (lyr_start : ptr) (m' : mem) (c' : World) :
  format env f m ph c lyr_start = (m', c') ->
  (tcph (pkt c') = Some lyr_start
   /\ sp (pkt c') = ntohs env (th_sport env m' lyr_start)
   /\ dp (pkt c') = ntohs env (th_dport env m' lyr_start)
   /\ trace c' = trace c ++ [TcphStore (Some lyr_start)]
   /\ forall b,
        b < lyr_start \/ lyr_start + 4 <= b -> load8 m' b = load8 m b)
  /\ (reverse env f = false -> m' = m)
  /\ (reverse env f = true ->
      ph + 4 <= lyr_start \/ lyr_start + 4 <= ph ->
      th_sport env m' lyr_start = th_dport env m ph
      /\ th_dport env m' lyr_start = th_sport env m ph
      /\ th_sport env m' ph = th_sport env m ph
      /\ th_dport env m' ph = th_dport env m ph).
Proof.
  unfold format. cbv zeta. intros [= <- <-].
  split; [|split].
  - cbn. repeat split.
    intros b Hb. destruct (reverse env f); [|reflexivity].
    unfold_fields. rewrite !load8_store16_other by lia. reflexivity.
  - intros ->. reflexivity.
  - intros -> Hd. unfold_fields.
    pose proof (load16_range env m ph). pose proof (load16_range env m (ph + 2)).
    repeat split.
    + rewrite load16_store16_other by lia.
      rewrite load16_store16_same. apply Z.mod_small. lia.
    + rewrite load16_store16_same.
      rewrite load16_store16_other by lia. apply Z.mod_small. lia.
    + rewrite !load16_store16_other by lia. reflexivity.
    + rewrite !load16_store16_other by lia. reflexivity.
Qed.

(** The copy at address 100 of the SYN at address 0, formatted in
    reverse. *)
Lemma format_ports_witness :
  exists m' c',
    format env_passive 0 two_headers 0 (sample_world 1 0) 100 = (m', c')
    /\ sp (pkt c') = 80 /\ dp (pkt c') = 40000
    /\ th_sport env_passive m' 100 = th_dport env_passive two_headers 0
    /\ th_dport env_passive m' 100 = th_sport env_passive two_headers 0.
Proof.
  destruct (format env_passive 0 two_headers 0 (sample_world 1 0) 100)
    as [m' c'] eqn:E.
  exists m', c'. split; [reflexivity|].
  destruct (format_ports env_passive 0 two_headers 0 (sample_world 1 0) 100
              m' c' E) as ((_ & H2 & H3 & _) & _ & H5).
  destruct H5 as (H6 & H7 & _); [reflexivity | lia |].
  rewrite H2, H3, H6, H7. repeat split; reflexivity.
Defined.

(** X23.  A reverse [format] of a header against itself does not swap the
    ports: the source port is overwritten before it is read, and both
    ports of the header, and both ports of the copy, end as the old
    destination port. *)
Theorem format_reverse_aliased (env : Env) (f : Z) (m : mem) (c : World)
    (lyr_start : ptr) (m' : mem) (c' : World) :
  format env f m lyr_start c lyr_start = (m', c') ->
  reverse env f = true ->
  th_sport env m' lyr_start = th_dport env m lyr_start
  /\ th_dport env m' lyr_start = th_dport env m lyr_start
  /\ sp (pkt c') = ntohs env (th_dport env m lyr_start)
  /\ dp (pkt c') = ntohs env (th_dport env m lyr_start).
Proof.
  unfold format. cbv zeta. intros [= <- <-] ->. cbn [pkt with_pkt set_ports sp dp].
  assert (H : th_sport env
                (set_th_dport env
                   (set_th_sport env m lyr_start (th_dport env m lyr_start))
                   lyr_start
                   (th_sport env
                      (set_th_sport env m lyr_start
                         (th_dport env m lyr_start)) lyr_start)) lyr_start
              = th_dport env m lyr_start
              /\ th_dport env
                   (set_th_dport env
                      (set_th_sport env m lyr_start (th_dport env m lyr_start))
                      lyr_start
                      (th_sport env
                         (set_th_sport env m lyr_start
                            (th_dport env m lyr_start)) lyr_start)) lyr_start
                 = th_dport env m lyr_start).
  { unfold_fields.
    pose proof (load16_range env m (lyr_start + 2)).
    split.
    - rewrite load16_store16_other by lia.
      rewrite load16_store16_same. apply Z.mod_small. lia.
    - rewrite !load16_store16_same.
      rewrite Z.mod_mod by lia. apply Z.mod_small. lia. }
  destruct H as [H1 H2]. rewrite H1, H2. auto.
Qed.

(** The SYN at address 0, formatted in reverse against itself. *)
Lemma format_reverse_aliased_witness :
  exists m' c',
    format env_passive 0 two_headers 0 (sample_world 1 0) 0 = (m', c')
    /\ th_sport env_passive two_headers 0 <> th_dport env_passive two_headers 0
    /\ th_sport env_passive m' 0 = th_dport env_passive two_headers 0
    /\ th_dport env_passive m' 0 = th_dport env_passive two_headers 0
    /\ sp (pkt c') = 80 /\ dp (pkt c') = 80.
Proof.
  destruct (format env_passive 0 two_headers 0 (sample_world 1 0) 0)
    as [m' c'] eqn:E.
  exists m', c'. split; [reflexivity|].
  destruct (format_reverse_aliased env_passive 0 two_headers
              (sample_world 1 0) 0 m' c' E eq_refl) as (H1 & H2 & H3 & H4).
  split; [vm_compute; discriminate|].
  rewrite H1, H2, H3, H4. repeat split; reflexivity.
Defined.
